(** * Session state of the marketing plugin: brands, ledger, handoffs, memory

    A shallow embedding of the TypeScript sources
      - [core/storage.ts]                   (record store, [generateId])
      - [core/brand/brand-manager.ts]       (brand registry)
      - [core/state/continuity-ledger.ts]   (layer 1)
      - [core/state/handoffs.ts]            (layer 2)
      - [core/state/archival-memory.ts]     (layer 3)
      - [core/history/history-manager.ts]   (history sessions)
      - [core/session/session-manager.ts]   (session coordinator)
      - [types/index.ts]                    (the records)

    Conventions of the embedding.
      - A JavaScript string is a [string], a list of 8-bit characters.
        The embedding renders the texts of 7-bit characters ([asciiText])
        exactly: [toLowerCase] folds the letters A-Z, [trim] strips the
        ASCII white space and the regular expressions see ASCII classes,
        which on such texts is what JavaScript does.  [localeCompare]
        compares code units, which is the collation order on the dates
        YYYY-MM-DD of the store ([isoDate]).  Outside ASCII, JavaScript
        folds further letters (accented capitals, U+0130, U+212A), strips
        further white space (U+00A0, U+FEFF, U+3000) and collates by
        locale, none of which the embedding renders; a statement that
        would not hold of the sources outside these texts carries
        [asciiText] or [isoDate] as a hypothesis.
      - An optional field [f?: T] is an [option T]; JavaScript truthiness of
        an optional string is [truthy] (absent and the empty string are
        falsy).  A JavaScript number that counts or ranks is a [Z].
      - Module-level [let] variables and the files under
        [~/.claude-marketing] form one explicit [World]; every function of
        the sources that reads or writes them is a function on [World].
        Each file of the store is addressed by the logical key that its
        path is built from (brand id, year-month) and holds a well-formed
        record; every [writeYaml] and [unlinkSync] is also appended to a
        trace, so that "no write happened" is observable.  File-system
        calls are taken to succeed.
      - The clock ([getTimestamp], [getDateString], [Date.now]) and the
        random suffix of [generateUniqueId] are explicit arguments of the
        operation that reads them.
      - A function that can [throw] returns an [Outcome]. *)

From Stdlib Require Import Ascii String ZArith Bool Sorted Permutation.
From stdpp Require Import base option list gmap strings.

Local Open Scope string_scope.
Local Open Scope list_scope.
Local Open Scope Z_scope.

(* ================================================================== *)
(** ** JavaScript string primitives used by the sources *)
(* ================================================================== *)

Definition isUpper (c : ascii) : bool :=
  ((65 <=? nat_of_ascii c) && (nat_of_ascii c <=? 90))%nat.

Definition isLowerAlnum (c : ascii) : bool :=
  (((97 <=? nat_of_ascii c) && (nat_of_ascii c <=? 122))
   || ((48 <=? nat_of_ascii c) && (nat_of_ascii c <=? 57)))%nat.

Definition toLowerChar (c : ascii) : ascii :=
  if isUpper c then ascii_of_nat (nat_of_ascii c + 32) else c.

(** [s.toLowerCase()] on a text of ASCII characters: the letters A-Z are
    folded, every other character is left alone. *)
Fixpoint toLowerCase (s : string) : string :=
  match s with
  | EmptyString => EmptyString
  | String c r => String (toLowerChar c) (toLowerCase r)
  end.

(** [s.startsWith(p)] is [String.prefix p s]; [s.includes(sub)]: *)
Fixpoint includes (s sub : string) : bool :=
  String.prefix sub s ||
  match s with
  | EmptyString => false
  | String _ r => includes r sub
  end.

(** [a === b] on strings *)
Definition strEq (a b : string) : bool := String.eqb a b.

(** [a.toLowerCase() === b.toLowerCase()] on ASCII texts *)
Definition sameTextCI (a b : string) : bool :=
  strEq (toLowerCase a) (toLowerCase b).

(** Truthiness of an optional string: [undefined] and [''] are falsy. *)
Definition truthy (o : option string) : bool :=
  match o with
  | Some s => negb (strEq s "")
  | None => false
  end.

(** [a || b] on optional strings. *)
Definition orElse (a b : option string) : option string :=
  if truthy a then a else b.

(** [s.replace(/[^a-z0-9]+/g, '-')]: every maximal run of characters
    outside [a-z0-9] becomes one hyphen.  [inRun] tells that the previous
    character already belonged to the current run. *)
Fixpoint replaceNonAlnumRuns (inRun : bool) (s : string) : string :=
  match s with
  | EmptyString => EmptyString
  | String c r =>
      if isLowerAlnum c then String c (replaceNonAlnumRuns false r)
      else if inRun then replaceNonAlnumRuns true r
      else String "-" (replaceNonAlnumRuns true r)
  end.

(** The [^-] alternative of [/^-|-$/g]. *)
Definition stripLeadingHyphen (s : string) : string :=
  match s with
  | String "-" r => r
  | _ => s
  end.

(** The [-$] alternative of [/^-|-$/g], and [/\/$/] with [c := "/"]. *)
Fixpoint stripTrailingChar (c : ascii) (s : string) : string :=
  match s with
  | EmptyString => EmptyString
  | String d EmptyString => if Ascii.eqb d c then EmptyString else s
  | String d r => String d (stripTrailingChar c r)
  end.

(** [s.replace(/^-|-$/g, '')] *)
Definition trimHyphens (s : string) : string :=
  stripTrailingChar "-" (stripLeadingHyphen s).

(** [s.replace(/^https?:\/\//, '')] *)
Definition stripProtocol (s : string) : string :=
  if String.prefix "http://" s then substring 7 (String.length s - 7) s
  else if String.prefix "https://" s then substring 8 (String.length s - 8) s
  else s.

(** A text between double quotes, as the error messages have it. *)
Definition quoted (s : string) : string :=
  String (ascii_of_nat 34) (s +:+ String (ascii_of_nat 34) EmptyString).

(** [Array.prototype.join] *)
Fixpoint join (sep : string) (l : list string) : string :=
  match l with
  | [] => ""
  | [x] => x
  | x :: r => x +:+ sep +:+ join sep r
  end.

(* ================================================================== *)
(** ** storage.ts: utilities *)
(* ================================================================== *)

(** [generateId]: lowercase, hyphenate, trim, truncate to 50; with
    [toLowerCase], exact on names of ASCII characters. *)
Definition generateId (name : string) : string :=
  substring 0 50 (trimHyphens (replaceNonAlnumRuns false (toLowerCase name))).


(* ================================================================== *)
(** ** types/index.ts: the data model *)
(* ================================================================== *)

(** *** Brand *)

Record BusinessInfo := {
  industry : string;
  product : string;
  model : string;
  priceRange : option string;
  usp : string }.

Record AudienceSegment := {
  description : string;
  role : option string;
  companySize : option string }.

Record AudienceInfo := {
  primary : AudienceSegment;
  secondary : option AudienceSegment;
  geo : list string;
  painPoints : list string }.

Record Competitor := {
  domain : string;
  competitorName : option string;
  competitorNotes : option string;
  yourAngle : option string }.

(** [ApiAccounts] and [MarketingInvestments] are objects with optional
    keys only: finite maps from the key to its value. *)
Record ChannelInvestment := {
  active : bool;
  budget : option string;
  channelDuration : option string;
  performance : option string;
  channelNotes : option string }.

Record BrandNote := { noteDate : string; noteContent : string }.

Record BrandPreferences := {
  dataMode : string;
  contactEmail : option string;
  timezone : option string }.

Record PlaybookTask := {
  playbookTaskId : string;
  playbookTask : string;
  week : option string;
  playbookStatus : string;
  completedDate : option string;
  playbookNotes : option string }.

Record ChannelRecommendation := {
  channelName : string; action : string; reason : string }.

Record Persona := {
  personaId : string;
  personaName : string;
  personaRole : string;
  personaCompanySize : option string;
  personaPainPoints : list string;
  goals : list string;
  contentTopics : list string;
  messagingDo : list string;
  messagingAvoid : list string }.

Record Strategy := {
  generatedDate : string;
  strategyLastUpdated : option string;
  positioning : list (string * string);
  personas : list Persona;
  channelPriorities : list ChannelRecommendation;
  channelAvoid : list ChannelRecommendation;
  contentPillars : list string;
  playbookGenerated : string;
  playbookTasks : list PlaybookTask }.

Record Brand := {
  id : string;
  name : string;
  website : string;
  created : string;
  lastUpdated : string;
  lastSession : option string;
  business : BusinessInfo;
  audience : AudienceInfo;
  competitors : list Competitor;
  accounts : gmap string string;
  currentInvestments : gmap string ChannelInvestment;
  strategy : option Strategy;
  notes : list BrandNote;
  preferences : BrandPreferences }.

(** [Partial<Brand>]: every key may be absent. *)
Record PartialBrand := {
  p_id : option string;
  p_name : option string;
  p_website : option string;
  p_created : option string;
  p_lastUpdated : option string;
  p_lastSession : option string;
  p_business : option BusinessInfo;
  p_audience : option AudienceInfo;
  p_competitors : option (list Competitor);
  p_accounts : option (gmap string string);
  p_currentInvestments : option (gmap string ChannelInvestment);
  p_strategy : option Strategy;
  p_notes : option (list BrandNote);
  p_preferences : option BrandPreferences }.

Definition noUpdates : PartialBrand :=
  {| p_id := None; p_name := None; p_website := None; p_created := None;
     p_lastUpdated := None; p_lastSession := None; p_business := None;
     p_audience := None; p_competitors := None; p_accounts := None;
     p_currentInvestments := None; p_strategy := None; p_notes := None;
     p_preferences := None |}.

(** *** Layer 1: continuity ledger *)

Record SessionTask := {
  task : string;
  timestamp : string;
  result : option string }.

Record ContinuityLedger := {
  brandId : string;
  brandName : string;
  started : string;
  goal : option string;
  completed : list SessionTask;
  inProgress : list SessionTask;
  blockers : list string;
  ledgerNotes : list string }.

(** *** Layer 2: handoffs *)

Record HandoffTask := {
  h_task : string;
  h_result : option string;
  h_keyword : option string;
  h_progress : option string;
  h_reason : option string }.

Record PrioritizedTask := {
  priority : Z;
  stepTask : string;
  context : option string }.

Record LastSession := {
  date : string;
  duration : option string;
  ls_completed : list HandoffTask;
  ls_inProgress : list HandoffTask;
  deferred : list HandoffTask }.

Record Handoff := {
  handoffBrandId : string;
  handoffCreated : string;
  handoffLastSession : LastSession;
  nextSteps : list PrioritizedTask;
  resumePrompt : string }.

(** *** Layer 3: archival memory *)

Inductive LearningType :=
  what_worked | outcome | user_preference | rejected | pattern | mistake.

Inductive Confidence := high | medium | low.

Record Learning := {
  learningId : string;
  brand : string;
  learningDate : string;
  learningType : LearningType;
  category : string;
  content : string;
  learningContext : option string;
  confidence : Confidence;
  metrics : option (list (string * string)) }.

(** *** History and configuration *)

Record ActionItem := {
  actionId : string;
  actionTask : string;
  actionStatus : string;
  actionCreated : string;
  actionCompleted : option string;
  actionOutcome : option string;
  actionReason : option string }.

Record Activity := {
  activityType : string;
  activityTimestamp : string;
  inputMethod : option string;
  target : option string;
  outputSummary : option string;
  insights : option (list string);
  actionItems : list ActionItem }.

Record Session := {
  sessionDate : string;
  sessionDuration : option string;
  sessionBrandId : string;
  activities : list Activity;
  sessionNotes : list string }.

Record HistoryFile := {
  historyBrandId : string;
  yearMonth : string;
  sessions : list Session }.

Record ApiConfig := { configured : bool; key : option string }.

Record Config := {
  defaultDataMode : string;
  showApiNudges : bool;
  exportFormat : string;
  apis : gmap string ApiConfig;
  showConfidenceLevels : bool;
  verboseExplanations : bool;
  autoSuggestNextSteps : bool;
  activeBrand : option string }.

(* ================================================================== *)
(** ** The world: files of the store and module-level variables *)
(* ================================================================== *)

(** [sessionState] of session-manager.ts.  Its [ledger] field aliases the
    object held by [currentLedger]; no function of the sources reads it
    back, the embedding keeps the value it had when it was captured. *)
Record SessionState := {
  ss_brand : option Brand;
  ss_ledger : option ContinuityLedger;
  ss_handoff : option Handoff;
  isActive : bool;
  startTime : option Z }.

Definition idleState : SessionState :=
  {| ss_brand := None; ss_ledger := None; ss_handoff := None;
     isActive := false; startTime := None |}.

Inductive FsEvent :=
| Written (path : string)
| Unlinked (path : string).

Record World := {
  brandFiles : gmap string Brand;                   (* brands/<id>.yaml *)
  continuityFile : option ContinuityLedger;         (* session/continuity.yaml *)
  handoffFiles : gmap string Handoff;               (* handoffs/<id>.yaml *)
  learningsFile : option (list Learning);           (* memory/learnings.yaml *)
  historyFiles : gmap (string * string) HistoryFile;(* history/<id>/<ym>.yaml *)
  configFile : option Config;                       (* config.yaml *)
  fsTrace : list FsEvent;
  currentLedger : option ContinuityLedger;          (* continuity-ledger.ts *)
  currentSession : option Session;                  (* history-manager.ts *)
  sessionState : SessionState }.                    (* session-manager.ts *)

Definition emptyWorld : World :=
  {| brandFiles := ∅; continuityFile := None; handoffFiles := ∅;
     learningsFile := None; historyFiles := ∅; configFile := None;
     fsTrace := []; currentLedger := None; currentSession := None;
     sessionState := idleState |}.

Definition set_brandFiles v (w : World) : World :=
  {| brandFiles := v; continuityFile := continuityFile w;
     handoffFiles := handoffFiles w; learningsFile := learningsFile w;
     historyFiles := historyFiles w; configFile := configFile w;
     fsTrace := fsTrace w; currentLedger := currentLedger w;
     currentSession := currentSession w; sessionState := sessionState w |}.

Definition set_continuityFile v (w : World) : World :=
  {| brandFiles := brandFiles w; continuityFile := v;
     handoffFiles := handoffFiles w; learningsFile := learningsFile w;
     historyFiles := historyFiles w; configFile := configFile w;
     fsTrace := fsTrace w; currentLedger := currentLedger w;
     currentSession := currentSession w; sessionState := sessionState w |}.

Definition set_handoffFiles v (w : World) : World :=
  {| brandFiles := brandFiles w; continuityFile := continuityFile w;
     handoffFiles := v; learningsFile := learningsFile w;
     historyFiles := historyFiles w; configFile := configFile w;
     fsTrace := fsTrace w; currentLedger := currentLedger w;
     currentSession := currentSession w; sessionState := sessionState w |}.

Definition set_learningsFile v (w : World) : World :=
  {| brandFiles := brandFiles w; continuityFile := continuityFile w;
     handoffFiles := handoffFiles w; learningsFile := v;
     historyFiles := historyFiles w; configFile := configFile w;
     fsTrace := fsTrace w; currentLedger := currentLedger w;
     currentSession := currentSession w; sessionState := sessionState w |}.

Definition set_historyFiles v (w : World) : World :=
  {| brandFiles := brandFiles w; continuityFile := continuityFile w;
     handoffFiles := handoffFiles w; learningsFile := learningsFile w;
     historyFiles := v; configFile := configFile w;
     fsTrace := fsTrace w; currentLedger := currentLedger w;
     currentSession := currentSession w; sessionState := sessionState w |}.

Definition set_configFile v (w : World) : World :=
  {| brandFiles := brandFiles w; continuityFile := continuityFile w;
     handoffFiles := handoffFiles w; learningsFile := learningsFile w;
     historyFiles := historyFiles w; configFile := v;
     fsTrace := fsTrace w; currentLedger := currentLedger w;
     currentSession := currentSession w; sessionState := sessionState w |}.

Definition set_fsTrace v (w : World) : World :=
  {| brandFiles := brandFiles w; continuityFile := continuityFile w;
     handoffFiles := handoffFiles w; learningsFile := learningsFile w;
     historyFiles := historyFiles w; configFile := configFile w;
     fsTrace := v; currentLedger := currentLedger w;
     currentSession := currentSession w; sessionState := sessionState w |}.

Definition set_currentLedger v (w : World) : World :=
  {| brandFiles := brandFiles w; continuityFile := continuityFile w;
     handoffFiles := handoffFiles w; learningsFile := learningsFile w;
     historyFiles := historyFiles w; configFile := configFile w;
     fsTrace := fsTrace w; currentLedger := v;
     currentSession := currentSession w; sessionState := sessionState w |}.

Definition set_currentSession v (w : World) : World :=
  {| brandFiles := brandFiles w; continuityFile := continuityFile w;
     handoffFiles := handoffFiles w; learningsFile := learningsFile w;
     historyFiles := historyFiles w; configFile := configFile w;
     fsTrace := fsTrace w; currentLedger := currentLedger w;
     currentSession := v; sessionState := sessionState w |}.

Definition set_sessionState v (w : World) : World :=
  {| brandFiles := brandFiles w; continuityFile := continuityFile w;
     handoffFiles := handoffFiles w; learningsFile := learningsFile w;
     historyFiles := historyFiles w; configFile := configFile w;
     fsTrace := fsTrace w; currentLedger := currentLedger w;
     currentSession := currentSession w; sessionState := v |}.

(* ================================================================== *)
(** ** storage.ts: paths and record files *)
(* ================================================================== *)

Definition continuityPath : string := "session/continuity.yaml".
Definition configPath : string := "config.yaml".
Definition getBrandPath (brandId : string) : string :=
  "brands/" +:+ brandId +:+ ".yaml".
Definition getHandoffPath (brandId : string) : string :=
  "handoffs/" +:+ brandId +:+ ".yaml".
Definition getLearningsPath : string := "memory/learnings.yaml".
Definition getHistoryPath (brandId ym : string) : string :=
  "history/" +:+ brandId +:+ "/" +:+ ym +:+ ".yaml".

(** [writeYaml(path, data)] fully overwrites the file and is traced. *)
Definition traced (e : FsEvent) (w : World) : World :=
  set_fsTrace (fsTrace w ++ [e]) w.

Definition writeBrand (brandId : string) (b : Brand) (w : World) : World :=
  traced (Written (getBrandPath brandId))
         (set_brandFiles (<[brandId := b]> (brandFiles w)) w).

Definition writeContinuity (l : ContinuityLedger) (w : World) : World :=
  traced (Written continuityPath) (set_continuityFile (Some l) w).

Definition writeHandoff (brandId : string) (h : Handoff) (w : World) : World :=
  traced (Written (getHandoffPath brandId))
         (set_handoffFiles (<[brandId := h]> (handoffFiles w)) w).

Definition writeLearnings (ls : list Learning) (w : World) : World :=
  traced (Written getLearningsPath) (set_learningsFile (Some ls) w).

Definition writeHistory (brandId ym : string) (h : HistoryFile) (w : World)
  : World :=
  traced (Written (getHistoryPath brandId ym))
         (set_historyFiles (<[(brandId, ym) := h]> (historyFiles w)) w).

Definition writeConfig (c : Config) (w : World) : World :=
  traced (Written configPath) (set_configFile (Some c) w).

(** [deleteFile(path)]: unlink only when the file exists; always [true]. *)
Definition deleteContinuity (w : World) : World :=
  match continuityFile w with
  | Some _ => traced (Unlinked continuityPath) (set_continuityFile None w)
  | None => w
  end.

Definition deleteHandoffFile (brandId : string) (w : World) : World :=
  match handoffFiles w !! brandId with
  | Some _ => traced (Unlinked (getHandoffPath brandId))
                     (set_handoffFiles (delete brandId (handoffFiles w)) w)
  | None => w
  end.

Definition deleteBrandFile (brandId : string) (w : World) : World :=
  match brandFiles w !! brandId with
  | Some _ => traced (Unlinked (getBrandPath brandId))
                     (set_brandFiles (delete brandId (brandFiles w)) w)
  | None => w
  end.

(* ================================================================== *)
(** ** continuity-ledger.ts *)
(* ================================================================== *)

Definition set_goal v (l : ContinuityLedger) : ContinuityLedger :=
  {| brandId := brandId l; brandName := brandName l; started := started l;
     goal := v; completed := completed l; inProgress := inProgress l;
     blockers := blockers l; ledgerNotes := ledgerNotes l |}.

Definition set_completed v (l : ContinuityLedger) : ContinuityLedger :=
  {| brandId := brandId l; brandName := brandName l; started := started l;
     goal := goal l; completed := v; inProgress := inProgress l;
     blockers := blockers l; ledgerNotes := ledgerNotes l |}.

Definition set_inProgress v (l : ContinuityLedger) : ContinuityLedger :=
  {| brandId := brandId l; brandName := brandName l; started := started l;
     goal := goal l; completed := completed l; inProgress := v;
     blockers := blockers l; ledgerNotes := ledgerNotes l |}.

Definition set_blockers v (l : ContinuityLedger) : ContinuityLedger :=
  {| brandId := brandId l; brandName := brandName l; started := started l;
     goal := goal l; completed := completed l; inProgress := inProgress l;
     blockers := v; ledgerNotes := ledgerNotes l |}.

Definition set_ledgerNotes v (l : ContinuityLedger) : ContinuityLedger :=
  {| brandId := brandId l; brandName := brandName l; started := started l;
     goal := goal l; completed := completed l; inProgress := inProgress l;
     blockers := blockers l; ledgerNotes := v |}.

(** [saveLedger] *)
Definition saveLedger (w : World) : bool * World :=
  match currentLedger w with
  | None => (false, w)
  | Some l => (true, writeContinuity l w)
  end.

(** [initLedger]; [now] is the value of [getTimestamp()]. *)
Definition initLedger (bId bName : string) (g : option string) (now : string)
    (w : World) : ContinuityLedger * World :=
  let ledger :=
    {| brandId := bId; brandName := bName; started := now; goal := g;
       completed := []; inProgress := []; blockers := [];
       ledgerNotes := [] |} in
  (ledger, snd (saveLedger (set_currentLedger (Some ledger) w))).

(** [loadLedger] *)
Definition loadLedger (w : World) : option ContinuityLedger * World :=
  match currentLedger w with
  | Some l => (Some l, w)
  | None =>
      match continuityFile w with
      | Some l => (Some l, set_currentLedger (Some l) w)
      | None => (None, w)
      end
  end.

(** [clearLedger] *)
Definition clearLedger (w : World) : World :=
  deleteContinuity (set_currentLedger None w).

(** [getLedger]: [currentLedger || loadLedger()] *)
Definition getLedger (w : World) : option ContinuityLedger * World :=
  match currentLedger w with
  | Some l => (Some l, w)
  | None => loadLedger w
  end.

(** The object that [getLedger] returns is the one [currentLedger] holds:
    an assignment to one of its fields followed by [saveLedger()] is a
    replacement of [currentLedger] followed by the write. *)
Definition mutateAndSave (l' : ContinuityLedger) (w : World) : World :=
  snd (saveLedger (set_currentLedger (Some l') w)).

(** [Array.prototype.findIndex], [None] for [-1]. *)
Fixpoint findIndex {A} (p : A -> bool) (l : list A) : option nat :=
  match l with
  | [] => None
  | x :: r => if p x then Some O else S <$> findIndex p r
  end.

(** [addCompletedTask] *)
Definition addCompletedTask (t : string) (res : option string) (now : string)
    (w : World) : World :=
  let '(ol, w) := getLedger w in
  match ol with
  | None => w
  | Some ledger =>
      let sessionTask := {| task := t; timestamp := now; result := res |} in
      let ledger := set_inProgress
          (List.filter (fun x => negb (sameTextCI (task x) t))
                       (inProgress ledger)) ledger in
      let ledger := set_completed (completed ledger ++ [sessionTask]) ledger in
      mutateAndSave ledger w
  end.

(** [addInProgressTask] *)
Definition addInProgressTask (t : string) (now : string) (w : World) : World :=
  let '(ol, w) := getLedger w in
  match ol with
  | None => w
  | Some ledger =>
      let exists_ := existsb (fun x => sameTextCI (task x) t)
                             (inProgress ledger) in
      if exists_ then w
      else
        let sessionTask := {| task := t; timestamp := now; result := None |} in
        mutateAndSave
          (set_inProgress (inProgress ledger ++ [sessionTask]) ledger) w
  end.

(** [updateTaskProgress] *)
Definition updateTaskProgress (t res : string) (w : World) : World :=
  let '(ol, w) := getLedger w in
  match ol with
  | None => w
  | Some ledger =>
      match findIndex (fun x => sameTextCI (task x) t) (inProgress ledger) with
      | Some taskIndex =>
          mutateAndSave
            (set_inProgress
               (alter (fun x => {| task := task x; timestamp := timestamp x;
                                   result := Some res |})
                      taskIndex (inProgress ledger)) ledger) w
      | None => w
      end
  end.

(** [completeTask] *)
Definition completeTask (t : string) (res : option string) (now : string)
    (w : World) : World :=
  let '(ol, w) := getLedger w in
  match ol with
  | None => w
  | Some ledger =>
      match findIndex (fun x => sameTextCI (task x) t) (inProgress ledger) with
      | Some taskIndex =>
          match inProgress ledger !! taskIndex with
          | Some completedTask =>
              let completedTask :=
                {| task := task completedTask; timestamp := now;
                   result := orElse res (result completedTask) |} in
              let ledger :=
                set_inProgress (delete taskIndex (inProgress ledger)) ledger in
              let ledger :=
                set_completed (completed ledger ++ [completedTask]) ledger in
              mutateAndSave ledger w
          | None => w
          end
      | None => addCompletedTask t res now w
      end
  end.

(** [addBlocker]: [Array.prototype.includes] compares with [===]. *)
Definition addBlocker (blocker : string) (w : World) : World :=
  let '(ol, w) := getLedger w in
  match ol with
  | None => w
  | Some ledger =>
      if negb (existsb (strEq blocker) (blockers ledger)) then
        mutateAndSave (set_blockers (blockers ledger ++ [blocker]) ledger) w
      else w
  end.

(** [removeBlocker] *)
Definition removeBlocker (blocker : string) (w : World) : World :=
  let '(ol, w) := getLedger w in
  match ol with
  | None => w
  | Some ledger =>
      mutateAndSave
        (set_blockers
           (List.filter (fun b => negb (sameTextCI b blocker))
                        (blockers ledger)) ledger) w
  end.

(** [addLedgerNote] *)
Definition addLedgerNote (note : string) (w : World) : World :=
  let '(ol, w) := getLedger w in
  match ol with
  | None => w
  | Some ledger =>
      if negb (existsb (strEq note) (ledgerNotes ledger)) then
        mutateAndSave
          (set_ledgerNotes (ledgerNotes ledger ++ [note]) ledger) w
      else w
  end.

(** [setGoal] *)
Definition setGoal (g : string) (w : World) : World :=
  let '(ol, w) := getLedger w in
  match ol with
  | None => w
  | Some ledger => mutateAndSave (set_goal (Some g) ledger) w
  end.

(** The duration string of [getSessionSummary] and [finishSession]:
    whole minutes below one hour, hours and minutes from there on.  The
    decimal rendering of the numbers is left to [showZ]. *)
Fixpoint showDigits (fuel : nat) (n : Z) (acc : string) : string :=
  match fuel with
  | O => acc
  | S f =>
      let d := String (ascii_of_nat (48 + Z.to_nat (n mod 10))) acc in
      if n / 10 =? 0 then d else showDigits f (n / 10) d
  end.

Definition showZ (n : Z) : string :=
  if n <? 0 then "-" +:+ showDigits (Z.to_nat (Z.log2 (- n) + 2)) (- n) ""
  else showDigits (Z.to_nat (Z.log2 n + 2)) n "".

Definition formatDuration (durationMs : Z) : string :=
  let minutes := durationMs / 60000 in
  if minutes <? 60 then showZ minutes +:+ " min"
  else showZ (minutes / 60) +:+ "h " +:+ showZ (minutes mod 60) +:+ "m".

Record SessionSummary := {
  sum_brandId : string;
  sum_brandName : string;
  sum_duration : string;
  sum_completed : nat;
  sum_inProgress : nat;
  sum_blockers : nat;
  sum_notes : nat }.

(** The clock as one call observes it: [Date.now()], [getTimestamp()],
    [getDateString()], [getCurrentYearMonth()], and the reading of an ISO
    timestamp by [new Date(s).getTime()]. *)
Record Clock := {
  nowMs : Z;
  isoNow : string;
  today : string;
  thisMonth : string;
  parseDate : string -> Z }.

(** [getSessionSummary] *)
Definition getSessionSummary (clk : Clock) (w : World)
  : option SessionSummary * World :=
  let '(ol, w) := getLedger w in
  match ol with
  | None => (None, w)
  | Some ledger =>
      let durationMs := nowMs clk - parseDate clk (started ledger) in
      (Some {| sum_brandId := brandId ledger;
               sum_brandName := brandName ledger;
               sum_duration := formatDuration durationMs;
               sum_completed := length (completed ledger);
               sum_inProgress := length (inProgress ledger);
               sum_blockers := length (blockers ledger);
               sum_notes := length (ledgerNotes ledger) |}, w)
  end.

(* ================================================================== *)
(** ** Array.prototype.sort *)
(* ================================================================== *)

(** [Array.prototype.sort(cmp)] is a stable sort: with a comparator that is
    a consistent ordering its result is the stable insertion sort. *)
Fixpoint sortInsert {A} (cmp : A -> A -> Z) (x : A) (l : list A) : list A :=
  match l with
  | [] => [x]
  | y :: r => if cmp x y >? 0 then y :: sortInsert cmp x r else x :: y :: r
  end.

Definition jsSort {A} (cmp : A -> A -> Z) (l : list A) : list A :=
  foldr (sortInsert cmp) [] l.

(** [a.localeCompare(b)] on strings that collate by code unit, as the
    dates YYYY-MM-DD of the store do; on other texts the collation of
    JavaScript depends on the locale and is not rendered. *)
Definition localeCompare (a b : string) : Z :=
  match String.compare a b with
  | Lt => -1
  | Eq => 0
  | Gt => 1
  end.

(* ================================================================== *)
(** ** handoffs.ts *)
(* ================================================================== *)

Definition set_nextSteps v (h : Handoff) : Handoff :=
  {| handoffBrandId := handoffBrandId h; handoffCreated := handoffCreated h;
     handoffLastSession := handoffLastSession h; nextSteps := v;
     resumePrompt := resumePrompt h |}.

Definition set_resumePrompt v (h : Handoff) : Handoff :=
  {| handoffBrandId := handoffBrandId h; handoffCreated := handoffCreated h;
     handoffLastSession := handoffLastSession h; nextSteps := nextSteps h;
     resumePrompt := v |}.

Definition set_priority v (s : PrioritizedTask) : PrioritizedTask :=
  {| priority := v; stepTask := stepTask s; context := context s |}.

(** [generateDefaultNextSteps]: the two [for] loops thread the array
    [steps] and the counter [priority]. *)
Definition generateDefaultNextSteps (ledger : ContinuityLedger)
  : list PrioritizedTask :=
  let '(steps, prio) :=
    fold_left
      (fun '(steps, prio) t =>
         (steps ++ [{| priority := prio;
                       stepTask := "Continue: " +:+ task t;
                       context := result t |}], prio + 1))
      (inProgress ledger) ([], 1) in
  let '(steps, prio) :=
    fold_left
      (fun '(steps, prio) blocker =>
         (steps ++ [{| priority := prio;
                       stepTask := "Resolve blocker: " +:+ blocker;
                       context := None |}], prio + 1))
      (blockers ledger) (steps, prio) in
  match goal ledger with
  | Some g =>
      if (length steps =? 0)%nat && truthy (Some g) then
        steps ++ [{| priority := 1;
                     stepTask := "Continue working on: " +:+ g;
                     context := None |}]
      else steps
  | None => steps
  end.

(** [generateResumePrompt] *)
Definition generateResumePrompt (ledger : ContinuityLedger)
    (steps : list PrioritizedTask) : string :=
  let parts := ["Working with " +:+ brandName ledger +:+ "."] in
  let parts :=
    match goal ledger with
    | Some g => if truthy (Some g) then parts ++ ["Goal: " +:+ g] else parts
    | None => parts
    end in
  let parts :=
    if (0 <? length (completed ledger))%nat then
      parts ++ ["Last session completed: " +:+
                join ", " (task <$> drop (length (completed ledger) - 3)
                                          (completed ledger))]
    else parts in
  let parts :=
    if (0 <? length (inProgress ledger))%nat then
      parts ++ ["In progress: " +:+ join ", " (task <$> inProgress ledger)]
    else parts in
  let parts :=
    if (0 <? length (blockers ledger))%nat then
      parts ++ ["Blockers: " +:+ join ", " (blockers ledger)]
    else parts in
  let parts :=
    if (0 <? length steps)%nat then
      parts ++ ["Suggested next: " +:+ join "; " (stepTask <$> take 3 steps)]
    else parts in
  join " " parts.

(** [createHandoff(nextSteps?, customResumePrompt?)].  An array, also the
    empty one, is truthy. *)
Definition createHandoff (steps0 : option (list PrioritizedTask))
    (customResumePrompt : option string) (clk : Clock)
    (w : World) : option Handoff * World :=
  let '(ol, w) := getLedger w in
  match ol with
  | None => (None, w)
  | Some ledger =>
      let '(summary, w) := getSessionSummary clk w in
      let completed_ :=
        (fun t => {| h_task := task t; h_result := result t;
                     h_keyword := None; h_progress := None;
                     h_reason := None |}) <$> completed ledger in
      let inProgress_ :=
        (fun t => {| h_task := task t; h_result := None;
                     h_keyword := None; h_progress := result t;
                     h_reason := None |}) <$> inProgress ledger in
      let deferred_ :=
        (fun b => {| h_task := b; h_result := None; h_keyword := None;
                     h_progress := None;
                     h_reason := Some "Blocked - needs resolution" |})
          <$> blockers ledger in
      let steps :=
        match steps0 with
        | Some s => s
        | None => generateDefaultNextSteps ledger
        end in
      let prompt :=
        match customResumePrompt with
        | Some p => if truthy (Some p) then p
                    else generateResumePrompt ledger steps
        | None => generateResumePrompt ledger steps
        end in
      let handoff :=
        {| handoffBrandId := brandId ledger;
           handoffCreated := isoNow clk;
           handoffLastSession :=
             {| date := today clk;
                duration := sum_duration <$> summary;
                ls_completed := completed_;
                ls_inProgress := inProgress_;
                deferred := deferred_ |};
           nextSteps := steps;
           resumePrompt := prompt |} in
      (Some handoff, writeHandoff (brandId ledger) handoff w)
  end.

(** [getHandoff], [hasHandoff], [clearHandoff] *)
Definition getHandoff (bId : string) (w : World) : option Handoff :=
  handoffFiles w !! bId.

Definition hasHandoff (bId : string) (w : World) : bool :=
  match getHandoff bId w with Some _ => true | None => false end.

Definition clearHandoff (bId : string) (w : World) : bool * World :=
  (true, deleteHandoffFile bId w).

(** [addNextStep]: [priority || nextSteps.length + 1]; zero is falsy. *)
Definition addNextStep (bId t : string) (prio : option Z)
    (ctx : option string) (w : World) : option Handoff * World :=
  match getHandoff bId w with
  | None => (None, w)
  | Some handoff =>
      let newPriority :=
        match prio with
        | Some p => if p =? 0 then Z.of_nat (length (nextSteps handoff)) + 1
                    else p
        | None => Z.of_nat (length (nextSteps handoff)) + 1
        end in
      let steps :=
        nextSteps handoff ++
        [{| priority := newPriority; stepTask := t; context := ctx |}] in
      let handoff :=
        set_nextSteps (jsSort (fun a b => priority a - priority b) steps)
                      handoff in
      (Some handoff, writeHandoff bId handoff w)
  end.

(** [removeNextStep]: [splice(taskIndex, 1)] on an index in range, then
    [forEach((step, idx) => step.priority = idx + 1)], then the write. *)
Definition removeNextStep (bId : string) (taskIndex : Z) (w : World)
  : option Handoff * World :=
  match getHandoff bId w with
  | None => (None, w)
  | Some handoff =>
      if (0 <=? taskIndex) && (taskIndex <? Z.of_nat (length (nextSteps handoff)))
      then
        let steps := delete (Z.to_nat taskIndex) (nextSteps handoff) in
        let steps :=
          imap (fun idx step => set_priority (Z.of_nat idx + 1) step) steps in
        let handoff := set_nextSteps steps handoff in
        (Some handoff, writeHandoff bId handoff w)
      else (Some handoff, w)
  end.

(** [updateResumePrompt] *)
Definition updateResumePrompt (bId prompt : string) (w : World)
  : option Handoff * World :=
  match getHandoff bId w with
  | None => (None, w)
  | Some handoff =>
      let handoff := set_resumePrompt prompt handoff in
      (Some handoff, writeHandoff bId handoff w)
  end.

(* ================================================================== *)
(** ** archival-memory.ts *)
(* ================================================================== *)

Definition set_brand v (l : Learning) : Learning :=
  {| learningId := learningId l; brand := v; learningDate := learningDate l;
     learningType := learningType l; category := category l;
     content := content l; learningContext := learningContext l;
     confidence := confidence l; metrics := metrics l |}.

Definition set_confidence v (l : Learning) : Learning :=
  {| learningId := learningId l; brand := brand l;
     learningDate := learningDate l; learningType := learningType l;
     category := category l; content := content l;
     learningContext := learningContext l; confidence := v;
     metrics := metrics l |}.

(** [loadLearnings]: [file?.learnings || []] *)
Definition loadLearnings (w : World) : list Learning :=
  default [] (learningsFile w).

(** [saveLearnings] *)
Definition saveLearnings (ls : list Learning) (w : World) : World :=
  writeLearnings ls w.

(** [storeLearning]; [freshId] is the value of [generateUniqueId('learn')]. *)
Definition storeLearning (b : string) (ty : LearningType) (cat cont : string)
    (ctx : option string) (conf : option Confidence)
    (ms : option (list (string * string)))
    (freshId : string) (clk : Clock) (w : World) : Learning * World :=
  let learning :=
    {| learningId := freshId; brand := b; learningDate := today clk;
       learningType := ty; category := cat; content := cont;
       learningContext := ctx; confidence := default medium conf;
       metrics := ms |} in
  let learnings := loadLearnings w in
  (learning, saveLearnings (learnings ++ [learning]) w).

(** [getBrandLearnings] *)
Definition getBrandLearnings (bId : string) (w : World) : list Learning :=
  List.filter (fun l => strEq (brand l) bId || strEq (brand l) "global")
              (loadLearnings w).

(** The query of [getRelevantLearnings]. *)
Record LearningContext := {
  activity : option string;
  ctxCategory : option string;
  keywords : option (list string) }.

(** [!context.activity && !context.category && !context.keywords?.length] *)
Definition noCriteria (ctx : LearningContext) : bool :=
  negb (truthy (activity ctx)) && negb (truthy (ctxCategory ctx)) &&
  match keywords ctx with
  | Some (_ :: _) => false
  | _ => true
  end.

(** The body shared by the three loops:
    [if (!seen.has(l.id)) { relevant.push(l); seen.add(l.id) }]. *)
Definition pushUnseen (st : list Learning * gset string) (l : Learning)
  : list Learning * gset string :=
  if bool_decide (learningId l ∈ st.2) then st
  else (st.1 ++ [l], {[learningId l]} ∪ st.2).

(** One pass for a lowercase needle: the filter reads [seen] as it is
    before the pass, the loop over the matches reads it as it grows. *)
Definition matchKeyword (brandLearnings : list Learning)
    (st : list Learning * gset string) (needle : string)
  : list Learning * gset string :=
  let matches :=
    List.filter
      (fun l => negb (bool_decide (learningId l ∈ st.2)) &&
                (includes (toLowerCase (content l)) needle ||
                 includes (toLowerCase (category l)) needle))
      brandLearnings in
  fold_left pushUnseen matches st.

(** [activityMap[context.activity]].  The map is an object literal: a name
    that [Object.prototype] defines is found there, and the value found
    (a function, or the prototype itself) is truthy and not iterable, so
    that the [for ... of] over it throws a [TypeError]. *)
Definition objectPrototypeKeys : list string :=
  ["constructor"; "hasOwnProperty"; "isPrototypeOf"; "propertyIsEnumerable";
   "toLocaleString"; "toString"; "valueOf"; "__proto__";
   "__defineGetter__"; "__defineSetter__"; "__lookupGetter__";
   "__lookupSetter__"].

Definition inheritedKey (k : string) : bool :=
  existsb (strEq k) objectPrototypeKeys.

Definition activityMap (k : string) : option (list string) :=
  if strEq k "keyword_research" then Some ["keywords"; "seo"; "search"]
  else if strEq k "content_planning" then Some ["content"; "topics"; "calendar"]
  else if strEq k "competitor_analysis"
       then Some ["competitor"; "analysis"; "comparison"]
  else if strEq k "strategy_creation"
       then Some ["strategy"; "positioning"; "channels"]
  else None.

Definition confOrder (c : Confidence) : Z :=
  match c with high => 0 | medium => 1 | low => 2 end.

(** The comparator handed to [relevant.sort]. *)
Definition compareLearnings (a b : Learning) : Z :=
  let confDiff := confOrder (confidence a) - confOrder (confidence b) in
  if negb (confDiff =? 0) then confDiff
  else localeCompare (learningDate b) (learningDate a).

(** [getRelevantLearnings]; [None] is the [TypeError] described above. *)
Definition getRelevantLearnings (bId : string) (ctx : LearningContext)
    (w : World) : option (list Learning) :=
  let brandLearnings := getBrandLearnings bId w in
  if noCriteria ctx then
    Some (drop (length brandLearnings - 5) brandLearnings)
  else
    let st : list Learning * gset string := ([], ∅) in
    let st :=
      match ctxCategory ctx with
      | Some c =>
          if truthy (Some c) then
            fold_left pushUnseen
              (List.filter
                 (fun l => includes (toLowerCase (category l)) (toLowerCase c))
                 brandLearnings) st
          else st
      | None => st
      end in
    let st :=
      match keywords ctx with
      | Some ks => fold_left (fun st k => matchKeyword brandLearnings st
                                            (toLowerCase k)) ks st
      | None => st
      end in
    let st :=
      match activity ctx with
      | Some a =>
          if truthy (Some a) then
            if inheritedKey a then None
            else Some (fold_left (matchKeyword brandLearnings)
                                 (default [] (activityMap a)) st)
          else Some st
      | None => Some st
      end in
    (fun st => jsSort compareLearnings st.1) <$> st.

(** [deleteLearning] *)
Definition deleteLearning (lId : string) (w : World) : bool * World :=
  let learnings := loadLearnings w in
  match findIndex (fun l => strEq (learningId l) lId) learnings with
  | None => (false, w)
  | Some index => (true, saveLearnings (delete index learnings) w)
  end.

(** [updateLearningConfidence]: [find] yields the first entry with the id;
    the assignment changes that entry of the array that is saved. *)
Definition updateLearningConfidence (lId : string) (c : Confidence)
    (w : World) : option Learning * World :=
  let learnings := loadLearnings w in
  match findIndex (fun l => strEq (learningId l) lId) learnings with
  | None => (None, w)
  | Some index =>
      match learnings !! index with
      | Some learning =>
          let learning := set_confidence c learning in
          (Some learning, saveLearnings (<[index := learning]> learnings) w)
      | None => (None, w)
      end
  end.

(** [promoteToGlobal] *)
Definition promoteToGlobal (lId : string) (w : World)
  : option Learning * World :=
  let learnings := loadLearnings w in
  match findIndex (fun l => strEq (learningId l) lId) learnings with
  | None => (None, w)
  | Some index =>
      match learnings !! index with
      | Some learning =>
          let learning := set_brand "global" learning in
          (Some learning, saveLearnings (<[index := learning]> learnings) w)
      | None => (None, w)
      end
  end.

(* ================================================================== *)
(** ** brand-manager.ts *)
(* ================================================================== *)

(** A call either returns a value or throws an [Error]; both leave a world
    behind. *)
Inductive Outcome (A : Type) :=
| Returned (a : A) (w : World)
| Thrown (msg : string) (w : World).
Arguments Returned {A} a w.
Arguments Thrown {A} msg w.

Definition bindOutcome {A B} (m : Outcome A) (k : A -> World -> Outcome B)
  : Outcome B :=
  match m with
  | Returned a w => k a w
  | Thrown msg w => Thrown msg w
  end.

Notation "'call' x <<- m 'then' k" := (bindOutcome m (fun x => k))
  (at level 10, x pattern, m at level 100, k at level 200).

Definition worldOf {A} (o : Outcome A) : World :=
  match o with
  | Returned _ w => w
  | Thrown _ w => w
  end.

Definition set_activeBrand v (c : Config) : Config :=
  {| defaultDataMode := defaultDataMode c; showApiNudges := showApiNudges c;
     exportFormat := exportFormat c; apis := apis c;
     showConfidenceLevels := showConfidenceLevels c;
     verboseExplanations := verboseExplanations c;
     autoSuggestNextSteps := autoSuggestNextSteps c; activeBrand := v |}.

(** [getConfig], [getDefaultConfig] *)
Definition getConfig (w : World) : option Config := configFile w.

Definition getDefaultConfig : Config :=
  {| defaultDataMode := "ask"; showApiNudges := true;
     exportFormat := "markdown"; apis := ∅;
     showConfidenceLevels := true; verboseExplanations := false;
     autoSuggestNextSteps := true; activeBrand := None |}.

(** [getBrand] *)
Definition getBrand (bId : string) (w : World) : option Brand :=
  brandFiles w !! bId.

(** [{ ...brand, ...updates }] *)
Definition spreadBrand (b : Brand) (u : PartialBrand) : Brand :=
  {| id := default (id b) (p_id u);
     name := default (name b) (p_name u);
     website := default (website b) (p_website u);
     created := default (created b) (p_created u);
     lastUpdated := default (lastUpdated b) (p_lastUpdated u);
     lastSession := match p_lastSession u with
                    | Some d => Some d
                    | None => lastSession b
                    end;
     business := default (business b) (p_business u);
     audience := default (audience b) (p_audience u);
     competitors := default (competitors b) (p_competitors u);
     accounts := default (accounts b) (p_accounts u);
     currentInvestments :=
       default (currentInvestments b) (p_currentInvestments u);
     strategy := match p_strategy u with
                 | Some s => Some s
                 | None => strategy b
                 end;
     notes := default (notes b) (p_notes u);
     preferences := default (preferences b) (p_preferences u) |}.

(** [updateBrand] *)
Definition updateBrand (bId : string) (updates : PartialBrand) (clk : Clock)
    (w : World) : Outcome Brand :=
  match getBrand bId w with
  | None => Thrown ("Brand " +:+ quoted bId +:+ " not found") w
  | Some b =>
      let merged := spreadBrand b updates in
      let updatedBrand :=
        {| id := id b;
           name := name merged;
           website := website merged;
           created := created b;
           lastUpdated := today clk;
           lastSession := lastSession merged;
           business := business merged;
           audience := audience merged;
           competitors := competitors merged;
           accounts := accounts merged;
           currentInvestments := currentInvestments merged;
           strategy := strategy merged;
           notes := notes merged;
           preferences := preferences merged |} in
      Returned updatedBrand (writeBrand bId updatedBrand w)
  end.

(** [setActiveBrand] *)
Definition setActiveBrand (bId : option string) (clk : Clock) (w : World)
  : Outcome unit :=
  let config := default getDefaultConfig (getConfig w) in
  let config := set_activeBrand bId config in
  let w := writeConfig config w in
  match bId with
  | Some b =>
      if truthy (Some b) then
        match getBrand b w with
        | Some _ =>
            call _ <<- updateBrand b
                    {| p_id := None; p_name := None; p_website := None;
                       p_created := None; p_lastUpdated := None;
                       p_lastSession := Some (today clk);
                       p_business := None; p_audience := None;
                       p_competitors := None; p_accounts := None;
                       p_currentInvestments := None; p_strategy := None;
                       p_notes := None; p_preferences := None |} clk w then
            Returned tt
        | None => Returned tt w
        end
      else Returned tt w
  | None => Returned tt w
  end.

(** [createBrand(data)]: [data] is a [Partial<Brand>] whose [name] and
    [website] are present. *)
Definition createBrand (nm ws : string) (data : PartialBrand) (clk : Clock)
    (w : World) : Outcome Brand :=
  let bId := generateId nm in
  match brandFiles w !! bId with
  | Some _ => Thrown ("Brand with ID " +:+ quoted bId +:+ " already exists") w
  | None =>
      let now := today clk in
      let b :=
        {| id := bId;
           name := nm;
           website := stripTrailingChar "/" (stripProtocol ws);
           created := now;
           lastUpdated := now;
           lastSession := None;
           business :=
             default {| industry := ""; product := ""; model := "";
                        priceRange := None; usp := "" |} (p_business data);
           audience :=
             default {| primary := {| description := ""; role := None;
                                      companySize := None |};
                        secondary := None; geo := []; painPoints := [] |}
                     (p_audience data);
           competitors := default [] (p_competitors data);
           accounts := default ∅ (p_accounts data);
           currentInvestments := default ∅ (p_currentInvestments data);
           strategy := None;
           notes := default [] (p_notes data);
           preferences :=
             default {| dataMode := "ask"; contactEmail := None;
                        timezone := None |} (p_preferences data) |} in
      call _ <<- setActiveBrand (Some bId) clk (writeBrand bId b w) then
      Returned b
  end.

(** [deleteBrand] *)
Definition deleteBrand (bId : string) (clk : Clock) (w : World)
  : Outcome bool :=
  match getBrand bId w with
  | None => Thrown ("Brand " +:+ quoted bId +:+ " not found") w
  | Some _ =>
      call _ <<- (match getConfig w with
             | Some c =>
                 if bool_decide (activeBrand c = Some bId)
                 then setActiveBrand None clk w
                 else Returned tt w
             | None => Returned tt w
             end) then
      fun w => Returned true (deleteBrandFile bId w)
  end.

(** [getActiveBrand] *)
Definition getActiveBrand (w : World) : option Brand :=
  match getConfig w with
  | Some c =>
      match activeBrand c with
      | Some b => if truthy (Some b) then getBrand b w else None
      | None => None
      end
  | None => None
  end.

(* ================================================================== *)
(** ** history-manager.ts: sessions *)
(* ================================================================== *)

(** [startSession] *)
Definition startSession (bId : string) (clk : Clock) (w : World)
  : Session * World :=
  let s := {| sessionDate := today clk; sessionDuration := None;
              sessionBrandId := bId; activities := [];
              sessionNotes := [] |} in
  (s, set_currentSession (Some s) w).

(** [saveSessionToHistory] *)
Definition saveSessionToHistory (s : Session) (clk : Clock) (w : World)
  : bool * World :=
  let ym := thisMonth clk in
  let history :=
    default {| historyBrandId := sessionBrandId s; yearMonth := ym;
               sessions := [] |}
            (historyFiles w !! (sessionBrandId s, ym)) in
  let history :=
    {| historyBrandId := historyBrandId history;
       yearMonth := yearMonth history;
       sessions := sessions history ++ [s] |} in
  (true, writeHistory (sessionBrandId s) ym history w).

(** [endSession] *)
Definition endSession (dur : option string) (clk : Clock) (w : World)
  : option Session * World :=
  match currentSession w with
  | None => (None, w)
  | Some s =>
      let s :=
        if truthy dur then
          {| sessionDate := sessionDate s; sessionDuration := dur;
             sessionBrandId := sessionBrandId s; activities := activities s;
             sessionNotes := sessionNotes s |}
        else s in
      let w := snd (saveSessionToHistory s clk w) in
      (Some s, set_currentSession None w)
  end.

(* ================================================================== *)
(** ** session-manager.ts *)
(* ================================================================== *)

Definition set_ss_handoff v (s : SessionState) : SessionState :=
  {| ss_brand := ss_brand s; ss_ledger := ss_ledger s; ss_handoff := v;
     isActive := isActive s; startTime := startTime s |}.

(** The result of [beginSession].  [resumeContext] is the handoff that
    [formatHandoffDisplay] renders for the caller. *)
Record BeginResult := {
  beginSuccess : bool;
  beginMessage : string;
  resumeContext : option Handoff }.

(** [beginSession] *)
Definition beginSession (bId : string) (g : option string) (clk : Clock)
    (w : World) : Outcome BeginResult :=
  match getBrand bId w with
  | None =>
      Returned {| beginSuccess := false;
                  beginMessage := "Brand " +:+ quoted bId +:+ " not found";
                  resumeContext := None |} w
  | Some b =>
      call _ <<- setActiveBrand (Some bId) clk w then
      fun w =>
      let w := snd (initLedger bId (name b) g (isoNow clk) w) in
      let w := snd (startSession bId clk w) in
      let '(resume, w) :=
        if hasHandoff bId w then
          match getHandoff bId w with
          | Some h =>
              (Some h,
               set_sessionState (set_ss_handoff (Some h) (sessionState w)) w)
          | None => (None, w)
          end
        else (None, w) in
      let '(ledger, w) := getLedger w in
      let w :=
        set_sessionState
          {| ss_brand := Some b; ss_ledger := ledger;
             ss_handoff := ss_handoff (sessionState w);
             isActive := true; startTime := Some (nowMs clk) |} w in
      Returned {| beginSuccess := true;
                  beginMessage := "Session started for " +:+ name b;
                  resumeContext := resume |} w
  end.

Record FinishOptions := {
  opt_createHandoff : option bool;
  opt_nextSteps : option (list PrioritizedTask) }.

Record FinishResult := {
  finishSuccess : bool;
  finishMessage : string;
  finishSummary : option string }.

Definition newline : string := String (ascii_of_nat 10) EmptyString.

(** [finishSession] *)
Definition finishSession (options : option FinishOptions) (clk : Clock)
    (w : World) : FinishResult * World :=
  match isActive (sessionState w), ss_brand (sessionState w) with
  | true, Some b =>
      let bId := id b in
      let dur :=
        (fun t0 => formatDuration (nowMs clk - t0))
          <$> startTime (sessionState w) in
      let '(summary, w) := getSessionSummary clk w in
      let w :=
        match options ≫= opt_createHandoff with
        | Some false => w
        | _ => snd (createHandoff (options ≫= opt_nextSteps) None clk w)
        end in
      let w := snd (endSession dur clk w) in
      let w := clearLedger w in
      let w :=
        match ss_handoff (sessionState w) with
        | Some _ => snd (clearHandoff bId w)
        | None => w
        end in
      let w := set_sessionState idleState w in
      let summaryText := "Session ended for " +:+ bId in
      let summaryText :=
        match summary with
        | Some s =>
            let t := summaryText +:+ newline +:+ "Duration: "
                       +:+ sum_duration s in
            let t := t +:+ newline +:+ "Completed: "
                       +:+ showZ (Z.of_nat (sum_completed s)) +:+ " tasks" in
            if (0 <? sum_inProgress s)%nat then
              t +:+ newline +:+ "In progress: "
                +:+ showZ (Z.of_nat (sum_inProgress s)) +:+ " tasks"
            else t
        | None => summaryText
        end in
      ({| finishSuccess := true;
          finishMessage := "Session ended successfully";
          finishSummary := Some summaryText |}, w)
  | _, _ =>
      ({| finishSuccess := false; finishMessage := "No active session";
          finishSummary := None |}, w)
  end.

(* ================================================================== *)
(** ** brand-manager.ts: listing, search and small updates *)
(* ================================================================== *)

(** [b.lastSession || b.lastUpdated] *)
Definition lastActivity (b : Brand) : string :=
  match lastSession b with
  | Some d => if truthy (Some d) then d else lastUpdated b
  | None => lastUpdated b
  end.

(** [listBrands].  [ids] is what [listBrandIds()] yields: the names of
    the files of the brands directory, in the order of the directory
    listing, without their suffix. *)
Definition listBrands (ids : list string) (w : World) : list Brand :=
  jsSort (fun a b => localeCompare (lastActivity b) (lastActivity a))
         (omap (fun i => getBrand i w) ids).

(** [s.replace(/^www\./, '')] *)
Definition stripWww (s : string) : string :=
  if String.prefix "www." s then substring 4 (String.length s - 4) s else s.

(** [findBrandByDomain] *)
Definition findBrandByDomain (dom : string) (ids : list string) (w : World)
  : option Brand :=
  let cleanDomain :=
    toLowerCase (stripTrailingChar "/" (stripWww (stripProtocol dom))) in
  List.find
    (fun b =>
       let brandDomain := toLowerCase (stripWww (website b)) in
       strEq brandDomain cleanDomain || includes brandDomain cleanDomain)
    (listBrands ids w).

(** [searchBrands] *)
Definition searchBrands (query : string) (ids : list string) (w : World)
  : list Brand :=
  let q := toLowerCase query in
  List.filter
    (fun b =>
       includes (toLowerCase (name b)) q ||
       includes (toLowerCase (website b)) q ||
       includes (toLowerCase (industry (business b))) q)
    (listBrands ids w).

Definition competitorsUpdate (cs : list Competitor) : PartialBrand :=
  {| p_id := None; p_name := None; p_website := None; p_created := None;
     p_lastUpdated := None; p_lastSession := None; p_business := None;
     p_audience := None; p_competitors := Some cs; p_accounts := None;
     p_currentInvestments := None; p_strategy := None; p_notes := None;
     p_preferences := None |}.

(** [addCompetitor(brandId, { domain, name?, yourAngle? })] *)
Definition addCompetitor (bId dom : string) (nm angle : option string)
    (clk : Clock) (w : World) : Outcome (option Brand) :=
  match getBrand bId w with
  | None => Returned None w
  | Some b =>
      if existsb (fun c => sameTextCI (domain c) dom) (competitors b)
      then Thrown ("Competitor " +:+ quoted dom +:+ " already exists") w
      else
        call b' <<- updateBrand bId
            (competitorsUpdate
               (competitors b ++
                [{| domain := dom; competitorName := nm;
                    competitorNotes := None; yourAngle := angle |}]))
            clk w then
        Returned (Some b')
  end.

(** [removeCompetitor] *)
Definition removeCompetitor (bId dom : string) (clk : Clock) (w : World)
  : Outcome (option Brand) :=
  match getBrand bId w with
  | None => Returned None w
  | Some b =>
      call b' <<- updateBrand bId
          (competitorsUpdate
             (List.filter (fun c => negb (sameTextCI (domain c) dom))
                          (competitors b)))
          clk w then
      Returned (Some b')
  end.

(** [addNote] *)
Definition addNote (bId cont : string) (clk : Clock) (w : World)
  : Outcome (option Brand) :=
  match getBrand bId w with
  | None => Returned None w
  | Some b =>
      let newNote := {| noteDate := today clk; noteContent := cont |} in
      call b' <<- updateBrand bId
          {| p_id := None; p_name := None; p_website := None;
             p_created := None; p_lastUpdated := None;
             p_lastSession := None; p_business := None; p_audience := None;
             p_competitors := None; p_accounts := None;
             p_currentInvestments := None; p_strategy := None;
             p_notes := Some (notes b ++ [newNote]);
             p_preferences := None |} clk w then
      Returned (Some b')
  end.

(* ================================================================== *)
(** ** archival-memory.ts: the other queries *)
(* ================================================================== *)

(** [getAllLearnings], [getGlobalLearnings], [getLearningsByCategory] *)
Definition getAllLearnings (w : World) : list Learning := loadLearnings w.

Definition getGlobalLearnings (w : World) : list Learning :=
  List.filter (fun l => strEq (brand l) "global") (loadLearnings w).

Definition getLearningsByCategory (cat : string) (w : World) : list Learning :=
  let lower := toLowerCase cat in
  List.filter (fun l => includes (toLowerCase (category l)) lower)
              (loadLearnings w).

(** [searchLearnings]: [l.context?.toLowerCase().includes(lower)] is
    [undefined], hence falsy, for a learning without context. *)
Definition searchLearnings (query : string) (w : World) : list Learning :=
  let lower := toLowerCase query in
  List.filter
    (fun l =>
       includes (toLowerCase (content l)) lower ||
       includes (toLowerCase (category l)) lower ||
       match learningContext l with
       | Some c => includes (toLowerCase c) lower
       | None => false
       end)
    (loadLearnings w).

(** [a.slice(0, end)]: a negative [end] counts from the end of the array. *)
Definition sliceTo {A} (stop : Z) (l : list A) : list A :=
  if stop <? 0 then take (Z.to_nat (Z.of_nat (length l) + stop)) l
  else take (Z.to_nat stop) l.

(** [getRecentLearnings(limit = 10)] *)
Definition getRecentLearnings (limit : option Z) (w : World) : list Learning :=
  sliceTo (default 10 limit)
    (jsSort (fun a b => localeCompare (learningDate b) (learningDate a))
            (loadLearnings w)).

(** The wrappers of [storeLearning]. *)
Definition storeWhatWorked (b cat cont : string) (ctx : option string)
    (freshId : string) (clk : Clock) (w : World) : Learning * World :=
  storeLearning b what_worked cat cont ctx None None freshId clk w.

Definition storeUserPreference (b cat cont : string)
    (freshId : string) (clk : Clock) (w : World) : Learning * World :=
  storeLearning b user_preference cat cont None (Some high) None freshId clk w.

Definition storeRejected (b cat cont : string) (why : option string)
    (freshId : string) (clk : Clock) (w : World) : Learning * World :=
  storeLearning b rejected cat cont why None None freshId clk w.

(* ================================================================== *)
(** ** history-manager.ts: activities of the open session *)
(* ================================================================== *)

Definition set_activities v (s : Session) : Session :=
  {| sessionDate := sessionDate s; sessionDuration := sessionDuration s;
     sessionBrandId := sessionBrandId s; activities := v;
     sessionNotes := sessionNotes s |}.

Definition set_sessionNotes v (s : Session) : Session :=
  {| sessionDate := sessionDate s; sessionDuration := sessionDuration s;
     sessionBrandId := sessionBrandId s; activities := activities s;
     sessionNotes := v |}.

Record ActivityOptions := {
  o_inputMethod : option string;
  o_target : option string;
  o_outputSummary : option string;
  o_insights : option (list string) }.

(** [getCurrentSession] *)
Definition getCurrentSession (w : World) : option Session := currentSession w.

(** [logActivity]: the push changes the session object in memory only. *)
Definition logActivity (ty : string) (options : option ActivityOptions)
    (clk : Clock) (w : World) : option Activity * World :=
  match currentSession w with
  | None => (None, w)
  | Some s =>
      let act :=
        {| activityType := ty; activityTimestamp := isoNow clk;
           inputMethod := options ≫= o_inputMethod;
           target := options ≫= o_target;
           outputSummary := options ≫= o_outputSummary;
           insights := Some (default [] (options ≫= o_insights));
           actionItems := [] |} in
      (Some act,
       set_currentSession (Some (set_activities (activities s ++ [act]) s)) w)
  end.

(** [addSessionNote] *)
Definition addSessionNote (note : string) (w : World) : bool * World :=
  match currentSession w with
  | None => (false, w)
  | Some s =>
      (true,
       set_currentSession
         (Some (set_sessionNotes (sessionNotes s ++ [note]) s)) w)
  end.

(** [a.slice(start)]: a negative [start] counts from the end. *)
Definition sliceFrom {A} (start : Z) (l : list A) : list A :=
  if start <? 0 then drop (Z.to_nat (Z.of_nat (length l) + start)) l
  else drop (Z.to_nat start) l.

(** [getBrandHistory(brandId, { yearMonth?, limit? })]: a [limit] of zero
    is falsy and means no limit. *)
Definition getBrandHistory (bId : string) (ym : option string)
    (limit : option Z) (clk : Clock) (w : World) : list Session :=
  let month :=
    match ym with
    | Some m => if truthy (Some m) then m else thisMonth clk
    | None => thisMonth clk
    end in
  match historyFiles w !! (bId, month) with
  | None => []
  | Some history =>
      match limit with
      | Some n => if n =? 0 then sessions history
                  else sliceFrom (- n) (sessions history)
      | None => sessions history
      end
  end.

(* ================================================================== *)
(** ** session-manager.ts: queries and restoring *)
(* ================================================================== *)

(** [hasActiveSession], [getSessionBrand] *)
Definition hasActiveSession (w : World) : bool := isActive (sessionState w).

Definition getSessionBrand (w : World) : option Brand :=
  ss_brand (sessionState w).

(** [logMarketingActivity] *)
Definition logMarketingActivity (ty : string)
    (options : option ActivityOptions) (clk : Clock) (w : World)
  : bool * World :=
  if negb (isActive (sessionState w)) then (false, w)
  else (true, (logActivity ty options clk w).2).

Record RestoreResult := {
  hasSession : bool;
  restoredBrandId : option string;
  restoredBrandName : option string }.

(** [checkAndRestoreSession] *)
Definition checkAndRestoreSession (clk : Clock) (w : World)
  : RestoreResult * World :=
  match getActiveBrand w with
  | None => ({| hasSession := false; restoredBrandId := None;
                restoredBrandName := None |}, w)
  | Some b =>
      let '(ol, w) := getLedger w in
      match ol with
      | Some ledger =>
          ({| hasSession := true; restoredBrandId := Some (id b);
              restoredBrandName := Some (name b) |},
           set_sessionState
             {| ss_brand := Some b; ss_ledger := Some ledger;
                ss_handoff := None; isActive := true;
                startTime := Some (nowMs clk) |} w)
      | None => ({| hasSession := false; restoredBrandId := None;
                    restoredBrandName := None |}, w)
      end
  end.

(* ================================================================== *)
(** ** input-parser.ts *)
(* ================================================================== *)

(** White space as [String.prototype.trim] sees it among the ASCII
    characters: tab, line feed, vertical tab, form feed, carriage return
    and space. *)
Definition isSpace (c : ascii) : bool :=
  let n := nat_of_ascii c in
  (((9 <=? n) && (n <=? 13)) || (n =? 32))%nat.

Fixpoint trimStart (s : string) : string :=
  match s with
  | EmptyString => EmptyString
  | String c r => if isSpace c then trimStart r else s
  end.

Fixpoint trimEnd (s : string) : string :=
  match s with
  | EmptyString => EmptyString
  | String c r =>
      match trimEnd r with
      | EmptyString => if isSpace c then EmptyString else String c EmptyString
      | r' => String c r'
      end
  end.

Definition trim (s : string) : string := trimEnd (trimStart s).

Definition quoteChar : ascii := ascii_of_nat 34.

(** The loop of [parseCSVLine] over the characters that are left, with
    its three variables. *)
Fixpoint parseCSVLoop (delimiter : ascii) (line : string)
    (result : list string) (current : string) (inQuotes : bool)
  : list string :=
  match line with
  | EmptyString => result ++ [trim current]
  | String char rest =>
      if Ascii.eqb char quoteChar then
        parseCSVLoop delimiter rest result current (negb inQuotes)
      else if Ascii.eqb char delimiter && negb inQuotes then
        parseCSVLoop delimiter rest (result ++ [trim current]) EmptyString
                     inQuotes
      else
        parseCSVLoop delimiter rest result
                     (current +:+ String char EmptyString) inQuotes
  end.

(** [parseCSVLine(line, delimiter)]; its callers pass a tab or a comma. *)
Definition parseCSVLine (line : string) (delimiter : ascii) : list string :=
  parseCSVLoop delimiter line [] EmptyString false.

Inductive DataTool := gsc | ahrefs | semrush | ga4 | unknownTool.

(** [detectDataSource] *)
Definition detectDataSource (text : string) : DataTool :=
  let lower := toLowerCase text in
  if includes lower "impressions" && includes lower "clicks"
     && includes lower "ctr" then gsc
  else if includes lower "keyword difficulty" || includes lower "kd"
          || includes lower "referring domains" then ahrefs
  else if includes lower "keyword difficulty"
          || (includes lower "volume" && includes lower "trend") then semrush
  else if includes lower "sessions" || includes lower "users"
          || includes lower "engagement" then ga4
  else unknownTool.

Inductive DataOrigin := fromScreenshot | fromPaste | fromApi | fromReasoning.

(** [KeywordData] and [ParsedData]; [number] stands for the JavaScript
    numbers of the metrics, of which only the presence is inspected. *)
Record KeywordData (number : Type) := {
  keyword : string;
  volume : option number;
  difficulty : option number;
  cpc : option number }.
Arguments keyword {number} _.
Arguments volume {number} _.
Arguments difficulty {number} _.
Arguments cpc {number} _.

Record ParsedData (number : Type) := {
  source : DataOrigin;
  tool : option string;
  parsedConfidence : Confidence;
  dataKeywords : option (list (KeywordData number));
  limitations : option (list string) }.
Arguments source {number} _.
Arguments tool {number} _.
Arguments parsedConfidence {number} _.
Arguments dataKeywords {number} _.
Arguments limitations {number} _.

(** The score that [assessDataConfidence] adds up. *)
Definition confidenceScore {number} (parsed : ParsedData number) : Z :=
  let score := 0 in
  let score :=
    match source parsed with
    | fromApi => score + 3
    | fromPaste => score + 2
    | fromScreenshot => score + 1
    | fromReasoning => score
    end in
  let score := if truthy (tool parsed) then score + 1 else score in
  match dataKeywords parsed with
  | Some kws =>
      let hasVolume := existsb (fun k => bool_decide (is_Some (volume k))) kws in
      let hasDifficulty :=
        existsb (fun k => bool_decide (is_Some (difficulty k))) kws in
      let score := if hasVolume then score + 1 else score in
      if hasDifficulty then score + 1 else score
  | None => score
  end.

(** [assessDataConfidence]: the level and the reasons it lists. *)
Definition assessDataConfidence {number} (parsed : ParsedData number)
  : Confidence * list string :=
  let reasons :=
    match source parsed with
    | fromApi => ["Direct API data"]
    | fromPaste => ["Pasted from tool"]
    | fromScreenshot => ["Extracted from screenshot"]
    | fromReasoning => []
    end in
  let reasons :=
    match tool parsed with
    | Some t => if truthy (Some t)
                then reasons ++ ["Identified as " +:+ t +:+ " data"]
                else reasons
    | None => reasons
    end in
  let reasons :=
    match dataKeywords parsed with
    | Some kws =>
        let reasons :=
          if existsb (fun k => bool_decide (is_Some (volume k))) kws
          then reasons ++ ["Has volume data"] else reasons in
        if existsb (fun k => bool_decide (is_Some (difficulty k))) kws
        then reasons ++ ["Has difficulty data"] else reasons
    | None => reasons
    end in
  let score := confidenceScore parsed in
  (if 5 <=? score then high else if 3 <=? score then medium else low,
   reasons).

(* ================================================================== *)
(** ** Sequences of operations and observations used in the statements *)
(* ================================================================== *)

(** The mutating calls of the continuity ledger, each with its arguments
    and, where it reads the clock, the timestamp it gets. *)
Inductive LedgerOp :=
| AddInProgressTask (t now : string)
| AddCompletedTask (t : string) (res : option string) (now : string)
| CompleteTask (t : string) (res : option string) (now : string)
| UpdateTaskProgress (t res : string)
| AddBlocker (b : string)
| RemoveBlocker (b : string)
| AddLedgerNote (n : string)
| SetGoal (g : string).

Definition applyOp (op : LedgerOp) (w : World) : World :=
  match op with
  | AddInProgressTask t now => addInProgressTask t now w
  | AddCompletedTask t res now => addCompletedTask t res now w
  | CompleteTask t res now => completeTask t res now w
  | UpdateTaskProgress t res => updateTaskProgress t res w
  | AddBlocker b => addBlocker b w
  | RemoveBlocker b => removeBlocker b w
  | AddLedgerNote n => addLedgerNote n w
  | SetGoal g => setGoal g w
  end.

Definition runOps (ops : list LedgerOp) (w : World) : World :=
  fold_left (fun w op => applyOp op w) ops w.

(** The ledger a caller sees. *)
Definition ledgerOf (w : World) : option ContinuityLedger := (getLedger w).1.

(** A task text is listed (up to letter case) among some tasks. *)
Definition listed (t : string) (ts : list SessionTask) : bool :=
  existsb (fun x => sameTextCI (task x) t) ts.

(** No task text is in the completed and in the in-progress list at once. *)
Definition tasksDisjoint (l : ContinuityLedger) : bool :=
  forallb (fun c => negb (listed (task c) (inProgress l))) (completed l).

(** No two in-progress entries carry the same text up to letter case. *)
Fixpoint distinctTexts (ts : list SessionTask) : bool :=
  match ts with
  | [] => true
  | x :: r => negb (listed (task x) r) && distinctTexts r
  end.

(** [addInProgressTask] is asked to start again a text that is already in
    the completed list. *)
Definition reopens (op : LedgerOp) (w : World) : bool :=
  match op, ledgerOf w with
  | AddInProgressTask t _, Some l => listed t (completed l)
  | _, _ => false
  end.


(** The absent state: no ledger in memory and none on disk. *)
Definition absent (w : World) : Prop :=
  currentLedger w = None /\ continuityFile w = None.




(** No two hyphens in a row; [afterHyphen] tells that a hyphen precedes. *)
Fixpoint singleHyphens (afterHyphen : bool) (s : string) : bool :=
  match s with
  | EmptyString => true
  | String c r =>
      if Ascii.eqb c "-" then negb afterHyphen && singleHyphens true r
      else singleHyphens false r
  end.

(** The default next steps as the handoff store documents them. *)
Definition continueStep (n : nat) (i : nat) (t : SessionTask)
  : PrioritizedTask :=
  {| priority := Z.of_nat (n + i) + 1;
     stepTask := "Continue: " +:+ task t;
     context := result t |}.

Definition blockerStep (n : nat) (i : nat) (b : string) : PrioritizedTask :=
  {| priority := Z.of_nat (n + i) + 1;
     stepTask := "Resolve blocker: " +:+ b;
     context := None |}.

Definition goalStep (g : string) : PrioritizedTask :=
  {| priority := 1; stepTask := "Continue working on: " +:+ g;
     context := None |}.

Definition documentedNextSteps (l : ContinuityLedger)
  : list PrioritizedTask :=
  imap (continueStep 0) (inProgress l) ++
  imap (blockerStep (length (inProgress l))) (blockers l) ++
  match inProgress l, blockers l, goal l with
  | [], [], Some g => if truthy (Some g) then [goalStep g] else []
  | _, _, _ => []
  end.

(** The order the relevant learnings are returned in: higher confidence
    first, and for equal confidence the later date first. *)
Definition learningBefore (a b : Learning) : Prop :=
  confOrder (confidence a) < confOrder (confidence b) \/
  (confidence a = confidence b /\
   String.leb (learningDate b) (learningDate a) = true).

(** Calls of the archival memory that follow a promotion. *)
Inductive MemoryOp :=
| StoreLearning (b : string) (ty : LearningType) (cat cont : string)
    (ctx : option string) (conf : option Confidence)
    (ms : option (list (string * string))) (freshId : string) (clk : Clock)
| UpdateLearningConfidence (lId : string) (c : Confidence)
| PromoteToGlobal (lId : string)
| DeleteLearning (lId : string).

Definition applyMemoryOp (op : MemoryOp) (w : World) : World :=
  match op with
  | StoreLearning b ty cat cont ctx conf ms freshId clk =>
      (storeLearning b ty cat cont ctx conf ms freshId clk w).2
  | UpdateLearningConfidence lId c => (updateLearningConfidence lId c w).2
  | PromoteToGlobal lId => (promoteToGlobal lId w).2
  | DeleteLearning lId => (deleteLearning lId w).2
  end.

Definition deletes (lId : string) (op : MemoryOp) : bool :=
  match op with
  | DeleteLearning d => strEq d lId
  | _ => false
  end.

(** Sample data for the concrete instances below. *)
Definition sampleClock : Clock :=
  {| nowMs := 1000; isoNow := "2026-01-01T09:00:00.000Z";
     today := "2026-01-01"; thisMonth := "2026-01";
     parseDate := fun _ => 0 |}.

Definition laterClock : Clock :=
  {| nowMs := 4000000; isoNow := "2026-01-01T10:06:00.000Z";
     today := "2026-01-01"; thisMonth := "2026-01";
     parseDate := fun _ => 0 |}.

Definition openWorld : World :=
  (initLedger "acme" "Acme" None "2026-01-01T09:00:00.000Z" emptyWorld).2.

(** A stored handoff with two next steps, and a store with one brand. *)
Definition handoffWorld : World :=
  (createHandoff None None laterClock
     (addBlocker "Need API access"
        (addInProgressTask "Keyword research" "2026-01-01T09:05:00.000Z"
                           openWorld))).2.

Definition acmeWorld : World :=
  worldOf (createBrand "Acme Corp" "https://acme.com/" noUpdates sampleClock
                       emptyWorld).

(** A store with two brands, the second one created a day later. *)
Definition registryWorld : World :=
  worldOf (createBrand "Beta Labs" "beta.io" noUpdates
             {| nowMs := 90000000; isoNow := "2026-01-02T10:00:00.000Z";
                today := "2026-01-02"; thisMonth := "2026-01";
                parseDate := fun _ => 0 |}
             acmeWorld).

(** A memory with one learning of the brand acme. *)
Definition memoryWorld : World :=
  (storeLearning "acme" what_worked "seo" "Long-tail keywords convert"
                 None None None "learn-1" sampleClock emptyWorld).2.

(** What the loops of [getRelevantLearnings] keep true of the pair
    ([relevant], [seen]): the ids pushed so far are pairwise different and
    all recorded as seen. *)
Definition seenInv (st : list Learning * gset string) : Prop :=
  NoDup (learningId <$> st.1) /\
  forall l, l ∈ st.1 -> learningId l ∈ st.2.

(** A memory with learnings of mixed confidence, date and brand. *)
Definition libraryWorld : World :=
  let store b cat cont conf fid day w :=
    (storeLearning b what_worked cat cont None conf None fid
       {| nowMs := 0; isoNow := day; today := day; thisMonth := "2026-01";
          parseDate := fun _ => 0 |} w).2 in
  store "acme" "SEO" "Comparison pages rank quickly" (Some low) "learn-4"
        "2026-01-07"
    (store "global" "seo" "Refresh old posts quarterly" (Some high) "learn-3"
           "2026-01-05"
       (store "globex" "seo" "Programmatic pages" (Some high) "learn-2"
              "2026-01-04"
          (store "acme" "seo-content" "Long-tail keywords convert" None
                 "learn-1" "2026-01-03"
             (store "acme" "email" "Plain text wins" (Some high) "learn-0"
                    "2026-01-02" emptyWorld)))).

Definition seoQuery : LearningContext :=
  {| activity := Some "keyword_research"; ctxCategory := Some "seo";
     keywords := Some ["Pages"] |}.

(** Two sessions for one brand, one after the other. *)
Definition firstSessionWorld : World :=
  (finishSession None laterClock
     (addInProgressTask "Keyword research" "2026-01-01T09:05:00.000Z"
        (worldOf (beginSession "acme-corp" (Some "Grow organic traffic")
                               sampleClock acmeWorld)))).2.

Definition secondSessionWorld : World :=
  worldOf (beginSession "acme-corp" None sampleClock firstSessionWorld).

(** A learning with the id is stored and applies to all brands. *)
Definition globalEntry (lId : string) (ls : list Learning) : Prop :=
  exists k l, ls !! k = Some l /\ learningId l = lId /\ brand l = "global".

(** A restart of the process: the module-level variables are gone, the
    files stay. *)
Definition restartProcess (w : World) : World :=
  set_sessionState idleState (set_currentSession None (set_currentLedger None w)).

(** Shapes of identifiers. *)
Fixpoint allChars (p : ascii -> bool) (s : string) : bool :=
  match s with
  | EmptyString => true
  | String c r => p c && allChars p r
  end.

Definition idChar (c : ascii) : bool := isLowerAlnum c || Ascii.eqb c "-".

Fixpoint endsWithHyphen (s : string) : bool :=
  match s with
  | EmptyString => false
  | String c EmptyString => Ascii.eqb c "-"
  | String _ r => endsWithHyphen r
  end.

(** Lower-case letters, digits and single hyphens between them, at most
    50 characters. *)
Definition wellFormedId (s : string) : bool :=
  allChars idChar s && singleHyphens true s && negb (endsWithHyphen s)
  && (String.length s <=? 50)%nat.

(** Texts of 7-bit characters.  On them the string functions of the
    embedding are JavaScript's: [String.prototype.toLowerCase] folds the
    letters A-Z and leaves every other ASCII character alone, as
    [toLowerCase] does; [String.prototype.trim] strips tab, line feed,
    vertical tab, form feed, carriage return and space, as [trim] does;
    and the regular expressions of the sources classify the characters
    as the embedding does.  Outside ASCII, JavaScript folds further
    letters and strips further white space, which an 8-bit [string] does
    not render; the statements below that depend on folding or trimming
    are made for ASCII texts. *)
Definition asciiChar (c : ascii) : bool := (nat_of_ascii c <? 128)%nat.

Definition asciiText (s : string) : bool := allChars asciiChar s.


(** The texts of a brand that a search folds are ASCII texts. *)
Definition asciiBrand (b : Brand) : bool :=
  asciiText (name b) && asciiText (website b)
  && asciiText (industry (business b)).

(** A date as [getDateString] writes it: YYYY-MM-DD.  On such texts the
    collation order of [String.prototype.localeCompare] is the order of
    the code units, which is what [localeCompare] computes. *)
Definition isDigit (c : ascii) : bool :=
  ((48 <=? nat_of_ascii c) && (nat_of_ascii c <=? 57))%nat.

Definition isoDate (s : string) : bool :=
  match s with
  | String y1 (String y2 (String y3 (String y4 (String h1
      (String m1 (String m2 (String h2 (String d1 (String d2
         EmptyString))))))))) =>
      isDigit y1 && isDigit y2 && isDigit y3 && isDigit y4
      && Ascii.eqb h1 "-" && isDigit m1 && isDigit m2
      && Ascii.eqb h2 "-" && isDigit d1 && isDigit d2
  | _ => false
  end.

(** Edits of the competitor list of one brand; a call that throws leaves
    its world to the caller, who goes on. *)
Inductive CompetitorEdit :=
| AddCompetitor (dom : string) (nm angle : option string) (clk : Clock)
| RemoveCompetitor (dom : string) (clk : Clock).

Definition applyEdit (bId : string) (e : CompetitorEdit) (w : World) : World :=
  match e with
  | AddCompetitor dom nm angle clk =>
      worldOf (addCompetitor bId dom nm angle clk w)
  | RemoveCompetitor dom clk => worldOf (removeCompetitor bId dom clk w)
  end.

(** No two competitors share a domain up to letter case. *)
Fixpoint distinctDomains (cs : list Competitor) : bool :=
  match cs with
  | [] => true
  | c :: r =>
      negb (existsb (fun x => sameTextCI (domain x) (domain c)) r)
      && distinctDomains r
  end.

(** A field that needs no quoting: no quote, no delimiter, no white space
    at either end. *)
Definition plainField (delimiter : ascii) (f : string) : bool :=
  allChars (fun c => negb (Ascii.eqb c quoteChar)
                     && negb (Ascii.eqb c delimiter)) f
  && strEq (trim f) f.

(* ================================================================== *)
(** * Properties *)
(* ================================================================== *)

(** ** Identifiers: the cases of tests/storage.test.ts *)

Example generateId_acme : generateId "Acme Corp" = "acme-corp".
Proof. reflexivity. Qed.

Example generateId_tech : generateId "Tech & Co." = "tech-co".
Proof. reflexivity. Qed.

Example generateId_trim : generateId "  -Test Brand-  " = "test-brand".
Proof. reflexivity. Qed.

(** ** The ledger object *)

Lemma getLedger_current w l :
  currentLedger w = Some l -> getLedger w = (Some l, w).
Proof. intros H. unfold getLedger. by rewrite H. Qed.

Lemma getLedger_absent w : absent w -> getLedger w = (None, w).
Proof.
  intros [Hm Hd]. unfold getLedger, loadLedger. by rewrite Hm, Hd.
Qed.

(** What [getLedger] returns is what [currentLedger] holds afterwards. *)
Lemma getLedger_alias w l w' :
  getLedger w = (Some l, w') -> currentLedger w' = Some l.
Proof.
  unfold getLedger, loadLedger.
  destruct (currentLedger w) eqn:Hc; [by intros [= <- <-]|].
  destruct (continuityFile w); [|done].
  by intros [= <- <-].
Qed.

Lemma currentLedger_mutateAndSave l w :
  currentLedger (mutateAndSave l w) = Some l.
Proof. reflexivity. Qed.

Lemma ledgerOf_current w l : currentLedger w = Some l -> ledgerOf w = Some l.
Proof. intros H. unfold ledgerOf. by rewrite (getLedger_current w l). Qed.

(** C9. Every mutating call of the ledger made in the absent state (no
    ledger in memory, no continuity file) returns normally and leaves the
    whole world as it was: the in-memory ledger stays absent, no file
    changes and the trace of writes gets no entry. *)
Theorem absent_ledger_ops_are_noops (op : LedgerOp) (w : World) :
  absent w -> applyOp op w = w /\ absent (applyOp op w).
Proof.
  intros Habs.
  assert (applyOp op w = w) as Heq.
  { destruct op; simpl;
      unfold addInProgressTask, addCompletedTask, completeTask,
        updateTaskProgress, addBlocker, removeBlocker, addLedgerNote, setGoal;
      by rewrite (getLedger_absent w Habs). }
  split; [exact Heq | by rewrite Heq].
Qed.

Lemma absent_ledger_ops_are_noops_witness :
  absent emptyWorld /\
  applyOp (CompleteTask "Keyword research" (Some "done") "t1") emptyWorld
    = emptyWorld.
Proof.
  assert (absent emptyWorld) as H by (split; reflexivity).
  split; [exact H|].
  exact (proj1 (absent_ledger_ops_are_noops
                  (CompleteTask "Keyword research" (Some "done") "t1")
                  emptyWorld H)).
Defined.

Lemma ledgerOf_getLedger w l :
  ledgerOf w = Some l ->
  exists w', getLedger w = (Some l, w') /\ currentLedger w' = Some l.
Proof.
  unfold ledgerOf. destruct (getLedger w) as [ol w'] eqn:Hg. simpl.
  intros ->. exists w'. split; [done|]. by eapply getLedger_alias.
Qed.

Lemma strEq_true a b : strEq a b = true <-> a = b.
Proof. apply String.eqb_eq. Qed.

Lemma existsb_strEq_In b (l : list string) :
  existsb (strEq b) l = true <-> In b l.
Proof.
  rewrite existsb_exists. split.
  - intros (x & Hx & He). apply strEq_true in He. by subst.
  - intros H. exists b. split; [done|]. by apply strEq_true.
Qed.

(** ** Blockers *)




(** ** Task lists *)

Lemma sameTextCI_iff a b :
  sameTextCI a b = true <-> toLowerCase a = toLowerCase b.
Proof. apply strEq_true. Qed.

Lemma sameTextCI_sym a b : sameTextCI a b = sameTextCI b a.
Proof. apply String.eqb_sym. Qed.

Lemma sameTextCI_refl a : sameTextCI a a = true.
Proof. by apply sameTextCI_iff. Qed.

Lemma sameTextCI_trans_l a b c :
  sameTextCI a b = true -> sameTextCI a c = sameTextCI b c.
Proof.
  intros H. apply sameTextCI_iff in H. unfold sameTextCI. by rewrite H.
Qed.

Lemma listed_false t ts :
  listed t ts = false <-> forall x, In x ts -> sameTextCI (task x) t = false.
Proof.
  unfold listed. induction ts as [|y r IH]; simpl.
  - split; [intros _ x [] | done].
  - rewrite orb_false_iff, IH. split.
    + intros [Hy Hr] x [<-|Hx]; auto.
    + intros H. split; [apply H; by left | intros x Hx; apply H; by right].
Qed.

Lemma listed_app t ts us : listed t (ts ++ us) = listed t ts || listed t us.
Proof. apply existsb_app. Qed.

Lemma listed_same t t' ts :
  sameTextCI t t' = true -> listed t ts = listed t' ts.
Proof.
  intros H. unfold listed. induction ts as [|y r IH]; simpl; [done|].
  rewrite IH. f_equal.
  rewrite (sameTextCI_sym (task y) t), (sameTextCI_sym (task y) t').
  by apply sameTextCI_trans_l.
Qed.

Lemma listed_filter_out t ts :
  listed t (List.filter (fun x => negb (sameTextCI (task x) t)) ts) = false.
Proof.
  apply listed_false. intros x Hx. apply filter_In in Hx as [_ Hx].
  by apply negb_true_iff in Hx.
Qed.

Lemma listed_filter_mono t p ts :
  listed t ts = false -> listed t (List.filter p ts) = false.
Proof.
  rewrite !listed_false. intros H x Hx. apply filter_In in Hx as [Hx _]. auto.
Qed.

Lemma In_delete {A} (x : A) i (l : list A) : In x (delete i l) -> In x l.
Proof.
  revert i. induction l as [|y r IH]; intros [|i]; simpl; auto.
  intros [->|H]; eauto.
Qed.

Lemma listed_delete_mono t i ts :
  listed t ts = false -> listed t (delete i ts) = false.
Proof.
  rewrite !listed_false. intros H x Hx. eauto using In_delete.
Qed.

Lemma distinctTexts_filter p ts :
  distinctTexts ts = true -> distinctTexts (List.filter p ts) = true.
Proof.
  induction ts as [|y r IH]; simpl; [done|].
  rewrite andb_true_iff, negb_true_iff. intros [Hy Hr].
  destruct (p y); simpl; auto.
  rewrite IH by done. by rewrite listed_filter_mono.
Qed.

Lemma distinctTexts_delete i ts :
  distinctTexts ts = true -> distinctTexts (delete i ts) = true.
Proof.
  revert i. induction ts as [|y r IH]; intros [|i]; simpl; auto.
  - rewrite andb_true_iff. tauto.
  - rewrite !andb_true_iff, !negb_true_iff. intros [Hy Hr].
    split; [by apply listed_delete_mono | auto].
Qed.

Lemma distinctTexts_snoc ts x :
  distinctTexts ts = true -> listed (task x) ts = false ->
  distinctTexts (ts ++ [x]) = true.
Proof.
  induction ts as [|y r IH]; simpl; [done|].
  rewrite !andb_true_iff, !negb_true_iff, orb_false_iff.
  intros [Hy Hr] [Hxy Hxr]. split; [|auto].
  rewrite listed_app, Hy. simpl. rewrite orb_false_r.
  by rewrite sameTextCI_sym.
Qed.

(** The first match of [findIndex] is the only entry of a duplicate-free
    list that carries the text. *)
Lemma findIndex_Some {A} (p : A -> bool) l i :
  findIndex p l = Some i -> exists e, l !! i = Some e /\ p e = true.
Proof.
  revert i. induction l as [|y r IH]; simpl; [done|]. intros i.
  destruct (p y) eqn:Hp.
  - intros [= <-]. eauto.
  - destruct (findIndex p r) as [j|]; [|done]. intros [= <-].
    destruct (IH j eq_refl) as (e & He & Hpe). eauto.
Qed.

Lemma findIndex_None {A} (p : A -> bool) l :
  findIndex p l = None <-> existsb p l = false.
Proof.
  induction l as [|y r IH]; simpl; [done|].
  destruct (p y); simpl; [done|].
  rewrite <- IH. destruct (findIndex p r); simpl; split; congruence.
Qed.

Lemma listed_delete_found t ts i :
  distinctTexts ts = true ->
  findIndex (fun x => sameTextCI (task x) t) ts = Some i ->
  listed t (delete i ts) = false.
Proof.
  revert i. induction ts as [|y r IH]; simpl; [done|]. intros i.
  rewrite andb_true_iff, negb_true_iff. intros [Hy Hr].
  destruct (sameTextCI (task y) t) eqn:Hyt.
  - intros [= <-]. simpl. by rewrite <- (listed_same _ _ _ Hyt).
  - destruct (findIndex _ r) as [j|] eqn:Hf; [|done]. intros [= <-].
    simpl. rewrite Hyt. simpl. by apply IH.
Qed.

Lemma length_delete_lookup {A} (l : list A) i e :
  l !! i = Some e -> (length (delete i l) + 1 = length l)%nat.
Proof.
  revert i. induction l as [|y r IH]; intros [|i]; simpl; try done.
  - lia.
  - intros H. specialize (IH i H). lia.
Qed.

Lemma texts_alter_result (f : SessionTask -> SessionTask) (i : nat)
    (ts : list SessionTask) :
  (forall x, task (f x) = task x) ->
  task <$> alter f i ts = task <$> ts.
Proof.
  intros Hf. revert i. induction ts as [|y r IH]; intros [|i]; try done.
  - cbn. by rewrite Hf.
  - cbn. f_equal. apply IH.
Qed.

Lemma listed_texts t (ts us : list SessionTask) :
  task <$> ts = task <$> us -> listed t ts = listed t us.
Proof.
  revert us. induction ts as [|y r IH]; intros [|z us]; simpl; try done.
  intros [= Hyz Hr]. rewrite Hyz. f_equal. by apply IH.
Qed.

Lemma distinctTexts_texts (ts us : list SessionTask) :
  task <$> ts = task <$> us -> distinctTexts ts = distinctTexts us.
Proof.
  revert us. induction ts as [|y r IH]; intros [|z us]; simpl; try done.
  intros [= Hyz Hr]. rewrite Hyz, (listed_texts _ r us Hr). f_equal.
  by apply IH.
Qed.

Lemma tasksDisjoint_iff l :
  tasksDisjoint l = true <->
  forall c, In c (completed l) -> listed (task c) (inProgress l) = false.
Proof.
  unfold tasksDisjoint. rewrite forallb_forall.
  split; intros H c Hc; specialize (H c Hc);
    by apply negb_true_iff in H || apply negb_true_iff.
Qed.

(** What one call keeps true of an open ledger: the in-progress texts
    stay pairwise distinct, and the two task lists stay disjoint unless
    the call starts a completed text again. *)
Lemma applyOp_keeps_ledger op w l :
  currentLedger w = Some l ->
  distinctTexts (inProgress l) = true ->
  exists l', currentLedger (applyOp op w) = Some l' /\
    distinctTexts (inProgress l') = true /\
    (tasksDisjoint l = true -> reopens op w = false ->
     tasksDisjoint l' = true).
Proof.
  intros Hc Hd.
  pose proof (getLedger_current w l Hc) as Hg.
  pose proof (ledgerOf_current w l Hc) as Hl.
  destruct op as [t now|t res now|t res now|t res|b|b|n|g]; simpl;
    unfold reopens; rewrite ?Hl.
  - (* addInProgressTask *)
    unfold addInProgressTask. rewrite Hg.
    fold (listed t (inProgress l)).
    destruct (listed t (inProgress l)) eqn:Hin.
    + exists l. auto.
    + eexists. split; [apply currentLedger_mutateAndSave|]. simpl. split.
      * by apply distinctTexts_snoc.
      * rewrite !tasksDisjoint_iff. simpl. intros Hdis Hre c Hcin.
        rewrite listed_app, (Hdis c Hcin). simpl. rewrite orb_false_r.
        rewrite sameTextCI_sym.
        by apply (proj1 (listed_false t (completed l)) Hre).
  - (* addCompletedTask *)
    unfold addCompletedTask. rewrite Hg.
    eexists. split; [apply currentLedger_mutateAndSave|]. simpl. split.
    + by apply distinctTexts_filter.
    + rewrite !tasksDisjoint_iff. simpl. intros Hdis _ c Hcin.
      apply in_app_iff in Hcin as [Hcin|[<-|[]]].
      * by apply listed_filter_mono, Hdis.
      * simpl. apply listed_filter_out.
  - (* completeTask *)
    unfold completeTask. rewrite Hg.
    destruct (findIndex _ (inProgress l)) as [i|] eqn:Hf.
    + destruct (findIndex_Some _ _ _ Hf) as (e & He & Hpe). rewrite He.
      eexists. split; [apply currentLedger_mutateAndSave|]. simpl. split.
      * by apply distinctTexts_delete.
      * rewrite !tasksDisjoint_iff. simpl. intros Hdis _ c Hcin.
        apply in_app_iff in Hcin as [Hcin|[<-|[]]].
        -- by apply listed_delete_mono, Hdis.
        -- simpl. rewrite (listed_same _ _ _ Hpe).
           by apply listed_delete_found.
    + unfold addCompletedTask. rewrite Hg.
      eexists. split; [apply currentLedger_mutateAndSave|]. simpl. split.
      * by apply distinctTexts_filter.
      * rewrite !tasksDisjoint_iff. simpl. intros Hdis _ c Hcin.
        apply in_app_iff in Hcin as [Hcin|[<-|[]]].
        -- by apply listed_filter_mono, Hdis.
        -- simpl. apply listed_filter_out.
  - (* updateTaskProgress *)
    unfold updateTaskProgress. rewrite Hg.
    destruct (findIndex _ (inProgress l)) as [i|] eqn:Hf.
    + eexists. split; [apply currentLedger_mutateAndSave|]. simpl.
      assert (task <$> alter
                (fun x => {| task := task x; timestamp := timestamp x;
                             result := Some res |}) i (inProgress l)
              = task <$> inProgress l) as Ht
        by (by apply texts_alter_result).
      split.
      * by rewrite (distinctTexts_texts _ _ Ht).
      * rewrite !tasksDisjoint_iff. simpl. intros Hdis _ c Hcin.
        rewrite (listed_texts _ _ _ Ht). auto.
    + exists l. auto.
  - (* addBlocker *)
    unfold addBlocker. rewrite Hg.
    destruct (negb _).
    + eexists. split; [apply currentLedger_mutateAndSave|]. simpl. auto.
    + exists l. auto.
  - (* removeBlocker *)
    unfold removeBlocker. rewrite Hg.
    eexists. split; [apply currentLedger_mutateAndSave|]. simpl. auto.
  - (* addLedgerNote *)
    unfold addLedgerNote. rewrite Hg.
    destruct (negb _).
    + eexists. split; [apply currentLedger_mutateAndSave|]. simpl. auto.
    + exists l. auto.
  - (* setGoal *)
    unfold setGoal. rewrite Hg.
    eexists. split; [apply currentLedger_mutateAndSave|]. simpl. auto.
Qed.





(** ** Handoffs *)

Lemma continue_loop ts acc n :
  fold_left
    (fun '(steps, prio) t =>
       (steps ++ [{| priority := prio; stepTask := "Continue: " +:+ task t;
                     context := result t |}], prio + 1))
    ts (acc, Z.of_nat n + 1)
  = (acc ++ imap (continueStep n) ts, Z.of_nat (n + length ts) + 1).
Proof.
  revert acc n. induction ts as [|t r IH]; intros acc n; simpl.
  - by rewrite app_nil_r, Nat.add_0_r.
  - replace (Z.of_nat n + 1 + 1) with (Z.of_nat (S n) + 1) by lia.
    rewrite IH, <- app_assoc. simpl. f_equal; [f_equal|].
    + f_equal.
      * unfold continueStep. by rewrite Nat.add_0_r.
      * apply imap_ext. intros i x _. unfold continueStep. simpl.
        by rewrite Nat.add_succ_r.
    + f_equal. lia.
Qed.

Lemma blocker_loop bs acc n :
  fold_left
    (fun '(steps, prio) blocker =>
       (steps ++ [{| priority := prio;
                     stepTask := "Resolve blocker: " +:+ blocker;
                     context := None |}], prio + 1))
    bs (acc, Z.of_nat n + 1)
  = (acc ++ imap (blockerStep n) bs, Z.of_nat (n + length bs) + 1).
Proof.
  revert acc n. induction bs as [|t r IH]; intros acc n; simpl.
  - by rewrite app_nil_r, Nat.add_0_r.
  - replace (Z.of_nat n + 1 + 1) with (Z.of_nat (S n) + 1) by lia.
    rewrite IH, <- app_assoc. simpl. f_equal; [f_equal|].
    + f_equal.
      * unfold blockerStep. by rewrite Nat.add_0_r.
      * apply imap_ext. intros i x _. unfold blockerStep. simpl.
        by rewrite Nat.add_succ_r.
    + f_equal. lia.
Qed.

Lemma generateDefaultNextSteps_documented l :
  generateDefaultNextSteps l = documentedNextSteps l.
Proof.
  unfold generateDefaultNextSteps, documentedNextSteps.
  pose proof (continue_loop (inProgress l) [] 0) as Hc.
  change (Z.of_nat 0 + 1) with 1 in Hc. rewrite Hc. simpl.
  rewrite blocker_loop.
  destruct (inProgress l) as [|t ts], (blockers l) as [|b bs],
    (goal l) as [g|]; simpl; rewrite ?app_nil_r; try done;
    rewrite ?length_app; simpl; try done.
Qed.

(** C4. [createHandoff] called on an open ledger without a [nextSteps]
    list stores a handoff whose steps are: one "Continue: <task>" per
    in-progress task, numbered 1, 2, ... in the order of the list, then one
    "Resolve blocker: <blocker>" per blocker, numbered on from there, and,
    only when there is neither a task in progress nor a blocker and the
    goal is set (a non-empty text), the one step "Continue working on:
    <goal>".  An empty ledger with a goal gives just that step, an empty
    ledger without a goal gives no step. *)
Theorem createHandoff_default_next_steps
    (w : World) (l : ContinuityLedger) (prompt : option string)
    (clk : Clock) :
  ledgerOf w = Some l ->
  exists h,
    (createHandoff None prompt clk w).1 = Some h /\
    getHandoff (brandId l) (createHandoff None prompt clk w).2 = Some h /\
    nextSteps h =
      imap (continueStep 0) (inProgress l) ++
      imap (blockerStep (length (inProgress l))) (blockers l) ++
      (if bool_decide (inProgress l = []) && bool_decide (blockers l = [])
          && truthy (goal l)
       then [goalStep (default "" (goal l))] else []) /\
    (inProgress l = [] -> blockers l = [] ->
     forall g, goal l = Some g -> g <> "" -> nextSteps h = [goalStep g]) /\
    (inProgress l = [] -> blockers l = [] -> goal l = None ->
     nextSteps h = []).
Proof.
  intros Hl. destruct (ledgerOf_getLedger w l Hl) as (w' & Hg & Hc).
  unfold createHandoff, getSessionSummary.
  rewrite Hg, (getLedger_current w' l Hc).
  eexists. split; [reflexivity|]. split.
  { simpl. unfold getHandoff. simpl. apply lookup_insert_eq. }
  simpl. rewrite generateDefaultNextSteps_documented.
  unfold documentedNextSteps. split; [|split].
  - destruct (inProgress l), (blockers l), (goal l) as [g|]; simpl; try done.
    all: by destruct (strEq g "").
  - intros -> -> g -> Hne. simpl.
    destruct (strEq g "") eqn:He; [|done].
    by apply strEq_true in He.
  - by intros -> -> ->.
Qed.

Lemma createHandoff_default_next_steps_witness :
  exists h,
    (createHandoff None None laterClock
       (setGoal "Rank for brand terms" openWorld)).1 = Some h /\
    nextSteps h = [goalStep "Rank for brand terms"].
Proof.
  destruct (createHandoff_default_next_steps
              (setGoal "Rank for brand terms" openWorld)
              {| brandId := "acme"; brandName := "Acme";
                 started := "2026-01-01T09:00:00.000Z";
                 goal := Some "Rank for brand terms";
                 completed := []; inProgress := []; blockers := [];
                 ledgerNotes := [] |} None laterClock eq_refl)
    as (h & Hh & _ & _ & Hgoal & _).
  exists h. split; [exact Hh|].
  apply (Hgoal eq_refl eq_refl "Rank for brand terms" eq_refl).
  discriminate.
Defined.

Lemma fmap_imap_invariant {A B} (g : A -> B) (f : nat -> A -> A)
    (l : list A) :
  (forall i x, g (f i x) = g x) -> g <$> imap f l = g <$> l.
Proof.
  revert f. induction l as [|x r IH]; intros f Hf; [done|].
  cbn. rewrite Hf. f_equal. apply IH. intros i y. apply Hf.
Qed.

(** C10. [removeNextStep] on a stored handoff with an index below zero or
    not below the number of next steps returns the handoff as stored and
    leaves the world, the trace of writes included, untouched.  With an
    index in range it returns and stores the handoff in which that step is
    gone, the other steps keep their text, context and order, and the
    priorities are 1, 2, ... in list order; nothing else of the handoff
    changes. *)
Theorem removeNextStep_range
    (w : World) (bId : string) (h : Handoff) (taskIndex : Z) :
  getHandoff bId w = Some h ->
  (taskIndex < 0 \/ Z.of_nat (length (nextSteps h)) <= taskIndex ->
     removeNextStep bId taskIndex w = (Some h, w)) /\
  (0 <= taskIndex < Z.of_nat (length (nextSteps h)) ->
     exists h',
       (removeNextStep bId taskIndex w).1 = Some h' /\
       getHandoff bId (removeNextStep bId taskIndex w).2 = Some h' /\
       fsTrace (removeNextStep bId taskIndex w).2
         = fsTrace w ++ [Written (getHandoffPath bId)] /\
       (length (nextSteps h') + 1 = length (nextSteps h))%nat /\
       stepTask <$> nextSteps h'
         = stepTask <$> delete (Z.to_nat taskIndex) (nextSteps h) /\
       context <$> nextSteps h'
         = context <$> delete (Z.to_nat taskIndex) (nextSteps h) /\
       (forall i s, nextSteps h' !! i = Some s ->
                    priority s = Z.of_nat i + 1) /\
       handoffBrandId h' = handoffBrandId h /\
       handoffCreated h' = handoffCreated h /\
       handoffLastSession h' = handoffLastSession h /\
       resumePrompt h' = resumePrompt h).
Proof.
  intros Hh. unfold removeNextStep. rewrite Hh. split.
  - intros Hout.
    destruct (0 <=? taskIndex) eqn:H0; simpl; [|done].
    destruct (taskIndex <? _) eqn:H1; [|done]. lia.
  - intros [H0 H1].
    apply Z.leb_le in H0 as H0'. apply Z.ltb_lt in H1 as H1'.
    rewrite H0', H1'. simpl.
    eexists. split; [reflexivity|]. split.
    { unfold getHandoff. simpl. apply lookup_insert_eq. }
    split; [reflexivity|]. simpl.
    destruct (lookup_lt_is_Some_2 (nextSteps h) (Z.to_nat taskIndex))
      as [s0 Hs0]; [lia|].
    split.
    { rewrite length_imap. by eapply length_delete_lookup. }
    split; [|split; [|split]].
    + by apply fmap_imap_invariant.
    + by apply fmap_imap_invariant.
    + intros i s. rewrite list_lookup_imap.
      destruct (delete _ _ !! i); simpl; [|done]. by intros [= <-].
    + done.
Qed.

Lemma removeNextStep_range_witness :
  exists h',
    (removeNextStep "acme" 0 handoffWorld).1 = Some h' /\
    stepTask <$> nextSteps h' = ["Resolve blocker: Need API access"] /\
    priority <$> nextSteps h' = [1].
Proof.
  destruct (getHandoff "acme" handoffWorld) as [h|] eqn:Hh;
    [|by vm_compute in Hh].
  destruct (proj2 (removeNextStep_range handoffWorld "acme" h 0 Hh))
    as (h' & Hr & _).
  { vm_compute in Hh. injection Hh as <-. vm_compute. split; congruence. }
  exists h'. split; [exact Hr|].
  vm_compute in Hr. injection Hr as <-. split; reflexivity.
Defined.

(** ** Brands *)

(** C7. [updateBrand] on an existing brand returns and stores a record
    whose [id] and [created] are those of the stored brand, whatever the
    payload holds for these two fields. *)
Theorem updateBrand_keeps_id_and_created
    (w : World) (bId : string) (b : Brand) (updates : PartialBrand)
    (clk : Clock) :
  getBrand bId w = Some b ->
  exists b' w',
    updateBrand bId updates clk w = Returned b' w' /\
    getBrand bId w' = Some b' /\
    id b' = id b /\
    created b' = created b.
Proof.
  intros Hb. unfold updateBrand. rewrite Hb.
  eexists _, _. split; [reflexivity|]. split; [|done].
  unfold getBrand. simpl. apply lookup_insert_eq.
Qed.

Lemma updateBrand_keeps_id_and_created_witness :
  exists b' w',
    updateBrand "acme-corp"
      {| p_id := Some "other"; p_name := Some "Acme Inc";
         p_website := None; p_created := Some "1999-12-31";
         p_lastUpdated := None; p_lastSession := None; p_business := None;
         p_audience := None; p_competitors := None; p_accounts := None;
         p_currentInvestments := None; p_strategy := None; p_notes := None;
         p_preferences := None |} laterClock acmeWorld = Returned b' w' /\
    id b' = "acme-corp" /\ created b' = "2026-01-01" /\ name b' = "Acme Inc".
Proof.
  destruct (getBrand "acme-corp" acmeWorld) as [b|] eqn:Hb;
    [|by vm_compute in Hb].
  destruct (updateBrand_keeps_id_and_created acmeWorld "acme-corp" b
              {| p_id := Some "other"; p_name := Some "Acme Inc";
                 p_website := None; p_created := Some "1999-12-31";
                 p_lastUpdated := None; p_lastSession := None;
                 p_business := None; p_audience := None;
                 p_competitors := None; p_accounts := None;
                 p_currentInvestments := None; p_strategy := None;
                 p_notes := None; p_preferences := None |} laterClock Hb)
    as (b' & w' & Hu & _ & Hid & Hcr).
  exists b', w'. split; [exact Hu|].
  vm_compute in Hb. injection Hb as <-.
  split; [exact Hid|]. split; [exact Hcr|].
  unfold updateBrand in Hu. simpl in Hu.
  vm_compute in Hu. by injection Hu as <- _.
Defined.

(** *** The derived identifier *)

Lemma stripLeadingHyphen_cons c r :
  stripLeadingHyphen (String c r) = if Ascii.eqb c "-" then r else String c r.
Proof. by destruct c as [[] [] [] [] [] [] [] []]. Qed.

Lemma replaceNonAlnumRuns_singleHyphens s inRun :
  singleHyphens inRun (replaceNonAlnumRuns inRun s) = true.
Proof.
  revert inRun. induction s as [|c r IH]; intros inRun; simpl; [done|].
  destruct (isLowerAlnum c) eqn:Hc.
  - simpl. destruct (Ascii.eqb_spec c "-") as [->|_]; [done | apply IH].
  - destruct inRun; [apply IH|]. simpl. apply IH.
Qed.

Lemma singleHyphens_weaken s :
  singleHyphens true s = true -> singleHyphens false s = true.
Proof. destruct s as [|c r]; simpl; [done|]. by destruct (Ascii.eqb c "-"). Qed.








(** ** Archival memory *)

Lemma findIndex_first {A} (p : A -> bool) (l : list A) x :
  In x l -> p x = true -> exists i, findIndex p l = Some i.
Proof.
  intros Hx Hp. destruct (findIndex p l) as [i|] eqn:Hf; [eauto|].
  apply findIndex_None in Hf.
  assert (existsb p l = true) by (apply existsb_exists; eauto). congruence.
Qed.

Lemma globalEntry_insert lId (ls : list Learning) j lj (f : Learning -> Learning) :
  ls !! j = Some lj ->
  learningId (f lj) = learningId lj ->
  (brand lj = "global" -> brand (f lj) = "global") ->
  globalEntry lId ls -> globalEntry lId (<[j := f lj]> ls).
Proof.
  intros Hj Hid Hbr (k & l & Hk & Hl & Hg).
  destruct (decide (j = k)) as [->|Hne].
  - exists k, (f lj). rewrite list_lookup_insert_eq
      by (by eapply lookup_lt_Some).
    assert (lj = l) as -> by congruence.
    split; [done|]. split; [congruence | auto].
  - exists k, l. by rewrite list_lookup_insert_ne.
Qed.

Lemma globalEntry_delete lId (ls : list Learning) j lj :
  ls !! j = Some lj -> learningId lj <> lId ->
  globalEntry lId ls -> globalEntry lId (delete j ls).
Proof.
  intros Hj Hne (k & l & Hk & Hl & Hg).
  destruct (decide (k < j)%nat) as [Hlt|Hge].
  - exists k, l. by rewrite list_lookup_delete_lt.
  - assert (k <> j) by (intros ->; congruence).
    destruct k as [|k]; [lia|].
    exists k, l. rewrite list_lookup_delete_ge by lia. done.
Qed.

Lemma globalEntry_visible lId b w :
  globalEntry lId (loadLearnings w) ->
  exists l, In l (getBrandLearnings b w) /\
            learningId l = lId /\ brand l = "global".
Proof.
  intros (k & l & Hk & Hl & Hg). exists l. split; [|done].
  unfold getBrandLearnings. apply filter_In. split.
  - apply list_elem_of_In. by eapply list_elem_of_lookup_2.
  - rewrite Hg. by rewrite orb_true_r.
Qed.

Lemma loadLearnings_saveLearnings ls w :
  loadLearnings (saveLearnings ls w) = ls.
Proof. reflexivity. Qed.

Lemma applyMemoryOp_keeps_global lId op w :
  deletes lId op = false ->
  globalEntry lId (loadLearnings w) ->
  globalEntry lId (loadLearnings (applyMemoryOp op w)).
Proof.
  intros Hdel Hglob. destruct op as [b ty cat cont ctx conf ms fid clk
                                    |i c|i|i]; simpl.
  - destruct Hglob as (k & l & Hk & Hl & Hg). exists k, l.
    split; [|done]. unfold storeLearning. cbn [snd].
    rewrite loadLearnings_saveLearnings. by apply lookup_app_l_Some.
  - unfold updateLearningConfidence.
    destruct (findIndex _ (loadLearnings w)) as [j|] eqn:Hf; [|done].
    destruct (loadLearnings w !! j) as [lj|] eqn:Hj; [|done]. cbn [snd].
    rewrite loadLearnings_saveLearnings.
    by apply (globalEntry_insert lId _ j lj (set_confidence c)).
  - unfold promoteToGlobal.
    destruct (findIndex _ (loadLearnings w)) as [j|] eqn:Hf; [|done].
    destruct (loadLearnings w !! j) as [lj|] eqn:Hj; [|done]. cbn [snd].
    rewrite loadLearnings_saveLearnings.
    by apply (globalEntry_insert lId _ j lj (set_brand "global")).
  - unfold deleteLearning.
    destruct (findIndex _ (loadLearnings w)) as [j|] eqn:Hf; [|done].
    cbn [snd]. rewrite loadLearnings_saveLearnings.
    destruct (findIndex_Some _ _ _ Hf) as (lj & Hj & Hp).
    apply strEq_true in Hp. simpl in Hdel.
    apply (globalEntry_delete lId _ j lj); [done| |done].
    intros He. rewrite <- Hp, He in Hdel.
    unfold strEq in Hdel. by rewrite String.eqb_refl in Hdel.
Qed.

(** C8. [promoteToGlobal(id)] succeeds on every id that a stored learning
    carries.  The learning it returns has that id and the brand "global",
    and [getBrandLearnings(b)] lists it for every brand id [b].  It stays
    so afterwards: after any further calls of [storeLearning],
    [updateLearningConfidence], [promoteToGlobal] and [deleteLearning] of
    other ids, [getBrandLearnings(b)] still lists, for every [b], a
    learning with that id whose brand is "global". *)
Theorem promoteToGlobal_visible_for_every_brand (w : World) (lId : string) :
  (exists l0, In l0 (loadLearnings w) /\ learningId l0 = lId) ->
  exists l,
    (promoteToGlobal lId w).1 = Some l /\
    learningId l = lId /\
    brand l = "global" /\
    (forall b, In l (getBrandLearnings b (promoteToGlobal lId w).2)) /\
    (forall ops b,
       existsb (deletes lId) ops = false ->
       exists l',
         In l' (getBrandLearnings b
                  (fold_left (fun w op => applyMemoryOp op w) ops
                             (promoteToGlobal lId w).2)) /\
         learningId l' = lId /\ brand l' = "global").
Proof.
  intros (l0 & Hin & Hid0).
  destruct (findIndex_first (fun l => strEq (learningId l) lId)
              (loadLearnings w) l0 Hin) as [j Hf];
    [by apply strEq_true|].
  destruct (findIndex_Some _ _ _ Hf) as (lj & Hj & Hp).
  apply strEq_true in Hp.
  assert (promoteToGlobal lId w
          = (Some (set_brand "global" lj),
             saveLearnings (<[j := set_brand "global" lj]> (loadLearnings w))
                           w)) as Hprom.
  { unfold promoteToGlobal. by rewrite Hf, Hj. }
  assert (globalEntry lId (loadLearnings (promoteToGlobal lId w).2)) as Hglob.
  { rewrite Hprom. cbn [snd]. rewrite loadLearnings_saveLearnings.
    exists j, (set_brand "global" lj).
    rewrite list_lookup_insert_eq by (by eapply lookup_lt_Some). done. }
  exists (set_brand "global" lj). rewrite Hprom at 1.
  split; [done|]. split; [done|]. split; [done|]. split.
  - intros b. rewrite Hprom. unfold getBrandLearnings. cbn [snd].
    rewrite loadLearnings_saveLearnings.
    apply filter_In. split; [|by rewrite orb_true_r].
    apply list_elem_of_In. eapply list_elem_of_lookup_2.
    apply list_lookup_insert_eq. by eapply lookup_lt_Some.
  - intros ops b Hops. apply globalEntry_visible.
    revert Hglob Hops. generalize (promoteToGlobal lId w).2.
    induction ops as [|op ops IH]; intros w1 Hglob Hops; [done|].
    simpl in *. apply orb_false_iff in Hops as [Hop Hops].
    apply IH; [|done]. by apply applyMemoryOp_keeps_global.
Qed.

Lemma promoteToGlobal_visible_for_every_brand_witness :
  exists l,
    (promoteToGlobal "learn-1" memoryWorld).1 = Some l /\
    brand l = "global" /\
    In l (getBrandLearnings "globex" (promoteToGlobal "learn-1" memoryWorld).2).
Proof.
  destruct (promoteToGlobal_visible_for_every_brand memoryWorld "learn-1")
    as (l & Hp & _ & Hb & Hvis & _).
  { eexists. split; [left; reflexivity | reflexivity]. }
  exists l. split; [exact Hp|]. split; [exact Hb | exact (Hvis "globex")].
Defined.

(** *** The order of dates *)

Lemma ascii_compare_lt_trans a b c :
  Ascii.compare a b = Lt -> Ascii.compare b c = Lt -> Ascii.compare a c = Lt.
Proof.
  unfold Ascii.compare. rewrite !N.compare_lt_iff. lia.
Qed.

Lemma string_compare_lt_trans a b c :
  String.compare a b = Lt -> String.compare b c = Lt ->
  String.compare a c = Lt.
Proof.
  revert b c. induction a as [|x a IH]; intros [|y b] [|z c]; simpl;
    try done.
  destruct (Ascii.compare x y) eqn:Hxy; [|intros _|done].
  - apply Ascii.compare_eq_iff in Hxy as ->.
    destruct (Ascii.compare y z); [apply IH|done|done].
  - destruct (Ascii.compare y z) eqn:Hyz; [|intros _|done].
    + apply Ascii.compare_eq_iff in Hyz as <-. by rewrite Hxy.
    + by rewrite (ascii_compare_lt_trans x y z).
Qed.

Lemma string_compare_refl a : String.compare a a = Eq.
Proof.
  induction a as [|x a IH]; simpl; [done|].
  unfold Ascii.compare. by rewrite N.compare_refl.
Qed.

Lemma string_leb_trans a b c :
  String.leb a b = true -> String.leb b c = true -> String.leb a c = true.
Proof.
  unfold String.leb.
  destruct (String.compare a b) eqn:Hab; [|intros _|done].
  - apply String.compare_eq_iff in Hab as ->. done.
  - destruct (String.compare b c) eqn:Hbc; [|intros _|done].
    + apply String.compare_eq_iff in Hbc as <-. by rewrite Hab.
    + by rewrite (string_compare_lt_trans a b c).
Qed.

Lemma confOrder_inj a b : confOrder a = confOrder b -> a = b.
Proof. by destruct a, b. Qed.

(** The comparator and the documented order agree. *)
Lemma compareLearnings_before a b :
  compareLearnings a b <= 0 <-> learningBefore a b.
Proof.
  unfold compareLearnings, learningBefore, localeCompare, String.leb.
  destruct (confOrder (confidence a) - confOrder (confidence b) =? 0)
    eqn:Hd; simpl.
  - apply Z.eqb_eq in Hd.
    assert (confidence a = confidence b) as Hc by (apply confOrder_inj; lia).
    destruct (String.compare (learningDate b) (learningDate a)); split;
      try (intros _; right; by split); try lia; try done.
  - apply Z.eqb_neq in Hd. split.
    + intros. left. lia.
    + intros [|[Hc _]]; [lia|]. rewrite Hc in Hd. lia.
Qed.

Lemma learningBefore_total a b :
  (compareLearnings a b >? 0) = true -> learningBefore b a.
Proof.
  intros H. apply Z.gtb_gt in H. apply compareLearnings_before.
  revert H. unfold compareLearnings, localeCompare.
  destruct (confOrder (confidence a) - confOrder (confidence b) =? 0)
    eqn:Hd; simpl.
  - apply Z.eqb_eq in Hd.
    replace (confOrder (confidence b) - confOrder (confidence a)) with 0
      by lia. simpl.
    rewrite (String.compare_antisym (learningDate a) (learningDate b)).
    destruct (String.compare (learningDate b) (learningDate a)); simpl; lia.
  - apply Z.eqb_neq in Hd.
    destruct (confOrder (confidence b) - confOrder (confidence a) =? 0)
      eqn:Hd'; simpl; [apply Z.eqb_eq in Hd'|]; lia.
Qed.

Lemma learningBefore_trans a b c :
  learningBefore a b -> learningBefore b c -> learningBefore a c.
Proof.
  unfold learningBefore.
  intros [Hab|[Hab Dab]] [Hbc|[Hbc Dbc]].
  - left. lia.
  - left. rewrite <- Hbc. done.
  - left. rewrite Hab. done.
  - right. split; [congruence|]. by eapply string_leb_trans.
Qed.

(** *** The sort *)

Lemma sortInsert_perm {A} (cmp : A -> A -> Z) x l :
  Permutation (sortInsert cmp x l) (x :: l).
Proof.
  induction l as [|y r IH]; simpl; [done|].
  destruct (cmp x y >? 0); [|done].
  rewrite IH. apply perm_swap.
Qed.

Lemma jsSort_perm {A} (cmp : A -> A -> Z) l : Permutation (jsSort cmp l) l.
Proof.
  induction l as [|x r IH]; simpl; [done|].
  unfold jsSort in *. simpl. rewrite sortInsert_perm. by constructor.
Qed.

Lemma sortInsert_sorted {A} (cmp : A -> A -> Z) (R : A -> A -> Prop) x l :
  (forall a b, (cmp a b >? 0) = true -> R b a) ->
  (forall a b, (cmp a b >? 0) = false -> R a b) ->
  (forall a b c, R a b -> R b c -> R a c) ->
  StronglySorted R l -> StronglySorted R (sortInsert cmp x l).
Proof.
  intros Hgt Hle Htr. induction 1 as [|y r Hs IH Hall]; simpl.
  - repeat constructor.
  - destruct (cmp x y >? 0) eqn:Hc.
    + constructor; [done|].
      eapply Permutation_Forall; [symmetry; apply sortInsert_perm|].
      constructor; auto.
    + constructor; [by constructor|].
      constructor; [auto|].
      eapply Forall_impl; [exact Hall|]. simpl. intros z Hz.
      eapply Htr; eauto.
Qed.

Lemma jsSort_sorted {A} (cmp : A -> A -> Z) (R : A -> A -> Prop) l :
  (forall a b, (cmp a b >? 0) = true -> R b a) ->
  (forall a b, (cmp a b >? 0) = false -> R a b) ->
  (forall a b c, R a b -> R b c -> R a c) ->
  StronglySorted R (jsSort cmp l).
Proof.
  intros Hgt Hle Htr. induction l as [|x r IH]; [constructor|].
  unfold jsSort in *. simpl. by apply sortInsert_sorted.
Qed.

(** *** The [seen] set *)

Lemma pushUnseen_seen st l : seenInv st -> seenInv (pushUnseen st l).
Proof.
  intros [Hnd Hsub]. unfold pushUnseen.
  case_bool_decide as Hin; [done|]. split; simpl.
  - rewrite fmap_app. apply NoDup_app. split; [done|]. split.
    + intros x Hx Hx'. apply list_elem_of_singleton in Hx' as ->.
      apply list_elem_of_fmap in Hx as (l' & Hid & Hl').
      apply Hin. rewrite Hid. by apply Hsub.
    + apply NoDup_singleton.
  - intros l' Hl'. apply elem_of_app in Hl' as [Hl'|Hl'].
    + apply elem_of_union_r. by apply Hsub.
    + apply list_elem_of_singleton in Hl' as ->.
      apply elem_of_union_l. by apply elem_of_singleton.
Qed.

Lemma pushAll_seen ls st :
  seenInv st -> seenInv (fold_left pushUnseen ls st).
Proof.
  revert st. induction ls as [|l ls IH]; intros st Hst; [done|].
  simpl. by apply IH, pushUnseen_seen.
Qed.

Lemma matchKeyword_seen bl st needle :
  seenInv st -> seenInv (matchKeyword bl st needle).
Proof. intros Hst. unfold matchKeyword. by apply pushAll_seen. Qed.

Lemma matchKeywords_seen {K} bl (f : K -> string) (ks : list K) st :
  seenInv st ->
  seenInv (fold_left (fun st k => matchKeyword bl st (f k)) ks st).
Proof.
  revert st. induction ks as [|k ks IH]; intros st Hst; [done|].
  simpl. by apply IH, matchKeyword_seen.
Qed.

(** C6. A call of [getRelevantLearnings] that supplies an activity, a
    category or at least one keyword returns a list unless the activity is
    a name that every object inherits; the list it returns holds no two
    entries with the same id and is sorted by confidence, high before
    medium before low, and within one confidence by date from the latest
    to the earliest. *)
Theorem getRelevantLearnings_distinct_and_sorted
    (bId : string) (ctx : LearningContext) (w : World) :
  noCriteria ctx = false ->
  ((forall a, activity ctx = Some a -> inheritedKey a = false) ->
   is_Some (getRelevantLearnings bId ctx w)) /\
  forall r, getRelevantLearnings bId ctx w = Some r ->
    NoDup (learningId <$> r) /\ StronglySorted learningBefore r.
Proof.
  intros Hcrit. unfold getRelevantLearnings. rewrite Hcrit.
  set (bl := getBrandLearnings bId w).
  set (st1 := match ctxCategory ctx with
              | Some c => if truthy (Some c) then _ else _
              | None => _
              end).
  set (st2 := match keywords ctx with Some ks => _ | None => _ end).
  assert (seenInv st1) as H1.
  { subst st1. assert (seenInv ([], ∅)) as H0.
    { split; simpl; [constructor | intros l Hl; by apply elem_of_nil in Hl]. }
    destruct (ctxCategory ctx) as [c|]; [|done].
    destruct (truthy (Some c)); [|done]. by apply pushAll_seen. }
  assert (seenInv st2) as H2.
  { subst st2. destruct (keywords ctx) as [ks|]; [|done].
    by apply (matchKeywords_seen bl toLowerCase). }
  split.
  - intros Hact. destruct (activity ctx) as [a|]; [|by eexists].
    destruct (truthy (Some a)); [|by eexists].
    rewrite (Hact a eq_refl). by eexists.
  - intros r Hr.
    assert (exists st3, seenInv st3 /\ r = jsSort compareLearnings st3.1)
      as (st3 & H3 & ->).
    { destruct (activity ctx) as [a|].
      - destruct (truthy (Some a)).
        + destruct (inheritedKey a); [done|].
          simpl in Hr. injection Hr as <-. eexists. split; [|done].
          by apply (matchKeywords_seen bl (fun k => k)).
        + simpl in Hr. injection Hr as <-. eauto.
      - simpl in Hr. injection Hr as <-. eauto. }
    split.
    + rewrite jsSort_perm. apply H3.
    + apply jsSort_sorted.
      * apply learningBefore_total.
      * intros a b Hle. apply compareLearnings_before.
        rewrite Z.gtb_ltb, Z.ltb_ge in Hle. lia.
      * apply learningBefore_trans.
Qed.

Lemma getRelevantLearnings_distinct_and_sorted_witness :
  exists r,
    getRelevantLearnings "acme" seoQuery libraryWorld = Some r /\
    learningId <$> r = ["learn-3"; "learn-1"; "learn-4"] /\
    NoDup (learningId <$> r) /\ StronglySorted learningBefore r.
Proof.
  destruct (getRelevantLearnings_distinct_and_sorted "acme" seoQuery
              libraryWorld eq_refl) as [_ Hr].
  destruct (getRelevantLearnings "acme" seoQuery libraryWorld) as [r|] eqn:Hq;
    [|by vm_compute in Hq].
  exists r. split; [reflexivity|]. split; [|exact (Hr r eq_refl)].
  vm_compute in Hq. by injection Hq as <-.
Defined.

(** ** The end of a session *)

Lemma getLedger_loaded w l :
  ledgerOf w = Some l -> getLedger w = (Some l, set_currentLedger (Some l) w).
Proof.
  unfold ledgerOf, getLedger, loadLedger.
  destruct w as [bf cf hf lf hif cof tr cl cs ss]. simpl.
  destruct cl as [l0|]; simpl.
  - by intros [= ->].
  - destruct cf as [l0|]; simpl; [by intros [= ->] | done].
Qed.

(** The handoff that [createHandoff] builds depends on the ledger, the
    arguments and the clock only; it is written under the ledger's brand. *)
Lemma createHandoff_writes steps prompt clk l :
  exists h, forall w,
    ledgerOf w = Some l ->
    createHandoff steps prompt clk w
      = (Some h, writeHandoff (brandId l) h (set_currentLedger (Some l) w)).
Proof.
  eexists. intros w Hl. unfold createHandoff, getSessionSummary.
  rewrite (getLedger_loaded w l Hl).
  rewrite (getLedger_current (set_currentLedger (Some l) w) l eq_refl).
  reflexivity.
Qed.

(** What [finishSession] leaves in the handoff store of the session's
    brand: the handoff it has just built when no handoff was captured at
    [beginSession], and nothing at all when one was. *)
Lemma finishSession_handoff_fate
    (w : World) (b : Brand) (l : ContinuityLedger)
    (opts : option FinishOptions) (clk : Clock) :
  isActive (sessionState w) = true ->
  ss_brand (sessionState w) = Some b ->
  ledgerOf w = Some l ->
  brandId l = id b ->
  opts ≫= opt_createHandoff <> Some false ->
  (ss_handoff (sessionState w) = None ->
   exists h,
     (createHandoff (opts ≫= opt_nextSteps) None clk w).1 = Some h /\
     getHandoff (id b) (finishSession opts clk w).2 = Some h) /\
  (is_Some (ss_handoff (sessionState w)) ->
   getHandoff (id b) (finishSession opts clk w).2 = None).
Proof.
  intros Hact Hb Hl Hid Hopt.
  destruct (createHandoff_writes (opts ≫= opt_nextSteps) None clk l)
    as [h Hh].
  unfold finishSession, getSessionSummary.
  rewrite Hact, Hb, (getLedger_loaded w l Hl).
  assert (forall X (x y : X),
            match opts ≫= opt_createHandoff with
            | Some false => x
            | _ => y
            end = y) as Hsel.
  { intros X x y. by destruct (opts ≫= opt_createHandoff) as [[|]|]. }
  rewrite Hsel. clear Hsel.
  rewrite (Hh (set_currentLedger (Some l) w)), (Hh w Hl)
    by (by apply ledgerOf_current).
  cbn [fst snd].
  unfold endSession, clearLedger, deleteContinuity, getHandoff.
  assert (forall w1 : World,
            handoffFiles w1 = <[brandId l := h]> (handoffFiles w) ->
            sessionState w1 = sessionState w ->
            (ss_handoff (sessionState w) = None ->
             handoffFiles
               (set_sessionState idleState
                  match ss_handoff (sessionState w1) with
                  | Some _ => (clearHandoff (id b) w1).2
                  | None => w1
                  end) !! id b = Some h) /\
            (is_Some (ss_handoff (sessionState w)) ->
             handoffFiles
               (set_sessionState idleState
                  match ss_handoff (sessionState w1) with
                  | Some _ => (clearHandoff (id b) w1).2
                  | None => w1
                  end) !! id b = None)) as Hlast.
  { intros w1 Hf Hss. rewrite Hss. split.
    - intros ->. simpl. rewrite Hf, Hid. apply lookup_insert_eq.
    - intros [h0 ->]. simpl. unfold deleteHandoffFile.
      rewrite Hf, Hid, lookup_insert_eq. simpl.
      apply lookup_delete_eq. }
  match goal with
  | |- context [match ss_handoff (sessionState ?w1) with _ => _ end] =>
      destruct (Hlast w1) as [Hnone Hsome]
  end.
  - destruct (currentSession _); simpl;
      by destruct (continuityFile _).
  - destruct (currentSession _); simpl;
      by destruct (continuityFile _).
  - split; [|exact Hsome].
    intros Hn. exists h. split; [done | by apply Hnone].
Qed.

(** C1 (what the code does). A brand that has a handoff from its first
    session starts a second session, which captures that handoff, and
    ends it with [createHandoff] left at its default.  [finishSession]
    writes the new handoff and then, because a handoff was captured at
    begin, unlinks the file it has just written: the handoff store of the
    brand is empty afterwards. *)
Theorem finishSession_unlinks_the_new_handoff :
  is_Some (getHandoff "acme-corp" firstSessionWorld) /\
  ss_handoff (sessionState secondSessionWorld)
    = getHandoff "acme-corp" firstSessionWorld /\
  finishSuccess (finishSession None laterClock secondSessionWorld).1 = true /\
  is_Some (createHandoff None None laterClock secondSessionWorld).1 /\
  getHandoff "acme-corp" (finishSession None laterClock secondSessionWorld).2
    = None /\
  drop 13 (fsTrace (finishSession None laterClock secondSessionWorld).2)
    = [Written "handoffs/acme-corp.yaml";
       Written "history/acme-corp/2026-01.yaml";
       Unlinked "session/continuity.yaml";
       Unlinked "handoffs/acme-corp.yaml"].
Proof.
  split; [by vm_compute; eexists|].
  split; [by vm_compute|].
  split; [by vm_compute|].
  split; [by vm_compute; eexists|].
  split; by vm_compute.
Qed.

(* ================================================================== *)
(** * Further properties of the ledger *)
(* ================================================================== *)

Lemma applyOp_cases op w :
  (exists l, ledgerOf w = Some l /\
     (applyOp op w = set_currentLedger (Some l) w \/
      exists l', applyOp op w = mutateAndSave l' (set_currentLedger (Some l) w)))
  \/ (ledgerOf w = None /\ applyOp op w = w).
Proof.
  destruct (ledgerOf w) as [l|] eqn:Hl.
  - left. exists l. split; [done|].
    pose proof (getLedger_loaded w l Hl) as Hg.
    pose proof (getLedger_current (set_currentLedger (Some l) w) l eq_refl)
      as Hg'.
    destruct op; simpl;
      unfold addInProgressTask, addCompletedTask, completeTask,
        updateTaskProgress, addBlocker, removeBlocker, addLedgerNote, setGoal;
      rewrite Hg;
      repeat match goal with
             | |- context [if ?c then _ else _] => destruct c
             | |- context [match findIndex ?p ?ts with _ => _ end] =>
                 destruct (findIndex p ts)
             | |- context [match ?ts !! ?i with _ => _ end] =>
                 destruct (ts !! i)
             end;
      try (left; reflexivity); try (right; eexists; reflexivity).
  - right. split; [done|].
    assert (getLedger w = (None, w)) as Hg.
    { revert Hl. unfold ledgerOf, getLedger, loadLedger.
      destruct (currentLedger w); [done|].
      by destruct (continuityFile w). }
    destruct op; simpl;
      unfold addInProgressTask, addCompletedTask, completeTask,
        updateTaskProgress, addBlocker, removeBlocker, addLedgerNote, setGoal;
      by rewrite Hg.
Qed.

(** X1. Write-through.  After [initLedger] and any sequence of ledger
    calls the ledger in memory and the continuity file hold the same
    record. *)
Theorem ledger_is_written_through
    (bId bName : string) (g : option string) (now0 : string) (w0 : World)
    (ops : list LedgerOp) :
  exists l,
    currentLedger (runOps ops (initLedger bId bName g now0 w0).2) = Some l /\
    continuityFile (runOps ops (initLedger bId bName g now0 w0).2) = Some l.
Proof.
  assert (forall w l, currentLedger w = Some l -> continuityFile w = Some l ->
            exists l', currentLedger (runOps ops w) = Some l' /\
                       continuityFile (runOps ops w) = Some l') as Hrun.
  { induction ops as [|op ops IH]; intros w l Hc Hf; simpl; [eauto|].
    destruct (applyOp_cases op w) as [(l1 & Hl1 & [He|[l2 He]])|[Hn _]].
    - rewrite (ledgerOf_current w l Hc) in Hl1. injection Hl1 as <-.
      apply (IH _ l); by rewrite He.
    - apply (IH _ l2); by rewrite He.
    - by rewrite (ledgerOf_current w l Hc) in Hn. }
  eapply Hrun; reflexivity.
Qed.

(** What the ledger calls leave alone. *)
Lemma applyOp_frame op w :
  brandFiles (applyOp op w) = brandFiles w /\
  handoffFiles (applyOp op w) = handoffFiles w /\
  learningsFile (applyOp op w) = learningsFile w /\
  historyFiles (applyOp op w) = historyFiles w /\
  configFile (applyOp op w) = configFile w /\
  currentSession (applyOp op w) = currentSession w /\
  sessionState (applyOp op w) = sessionState w.
Proof.
  destruct (applyOp_cases op w) as [(l1 & Hl1 & [He|[l2 He]])|[_ He]];
    by rewrite He.
Qed.

Lemma runOps_frame ops w :
  brandFiles (runOps ops w) = brandFiles w /\
  handoffFiles (runOps ops w) = handoffFiles w /\
  learningsFile (runOps ops w) = learningsFile w /\
  historyFiles (runOps ops w) = historyFiles w /\
  configFile (runOps ops w) = configFile w /\
  currentSession (runOps ops w) = currentSession w /\
  sessionState (runOps ops w) = sessionState w.
Proof.
  revert w. induction ops as [|op ops IH]; intros w; simpl; [done|].
  destruct (IH (applyOp op w)) as (-> & -> & -> & -> & -> & -> & ->).
  apply applyOp_frame.
Qed.

(** X3. The lists of the ledger stay free of duplicates and its heading
    stays fixed.  After [initLedger] and any sequence of ledger calls: no
    two in-progress entries carry the same text up to letter case, no
    blocker and no note is listed twice, and brand id, brand name and
    start time are those given to [initLedger]. *)
Theorem ledger_lists_stay_duplicate_free
    (bId bName : string) (g : option string) (now0 : string) (w0 : World)
    (ops : list LedgerOp) :
  exists l,
    currentLedger (runOps ops (initLedger bId bName g now0 w0).2) = Some l /\
    distinctTexts (inProgress l) = true /\
    NoDup (blockers l) /\ NoDup (ledgerNotes l) /\
    brandId l = bId /\ brandName l = bName /\ started l = now0.
Proof.
  set (P := fun l : ContinuityLedger =>
              distinctTexts (inProgress l) = true /\
              NoDup (blockers l) /\ NoDup (ledgerNotes l) /\
              brandId l = bId /\ brandName l = bName /\ started l = now0).
  assert (forall op w l, currentLedger w = Some l -> P l ->
            exists l', currentLedger (applyOp op w) = Some l' /\ P l')
    as Hstep.
  { intros op w l Hc (Hd & Hb & Hn & Hi & Hnm & Hst).
    destruct (applyOp_keeps_ledger op w l Hc Hd) as (l' & Hc' & Hd' & _).
    exists l'. split; [done|]. split; [done|].
    pose proof (getLedger_current w l Hc) as Hg.
    revert Hc'.
    destruct op as [t now|t res now|t res now|t res|b|b|n|g']; simpl;
      unfold addInProgressTask, addCompletedTask, completeTask,
        updateTaskProgress, addBlocker, removeBlocker, addLedgerNote, setGoal;
      rewrite Hg.
    - destruct (existsb _ _); [rewrite Hc|]; by intros [= <-].
    - by intros [= <-].
    - destruct (findIndex _ _) as [i|].
      + destruct (inProgress l !! i); [|rewrite Hc]; by intros [= <-].
      + unfold addCompletedTask. rewrite Hg. by intros [= <-].
    - destruct (findIndex _ _); [|rewrite Hc]; by intros [= <-].
    - destruct (existsb (strEq b) (blockers l)) eqn:He; simpl.
      + rewrite Hc. by intros [= <-].
      + intros [= <-]. simpl. repeat split; try done.
        apply NoDup_app. split; [done|]. split; [|apply NoDup_singleton].
        intros x Hx Hx'. apply list_elem_of_singleton in Hx' as ->.
        apply list_elem_of_In, existsb_strEq_In in Hx. congruence.
    - intros [= <-]. simpl. repeat split; try done.
      by apply NoDup_ListNoDup, List.NoDup_filter, NoDup_ListNoDup.
    - destruct (existsb (strEq n) (ledgerNotes l)) eqn:He; simpl.
      + rewrite Hc. by intros [= <-].
      + intros [= <-]. simpl. repeat split; try done.
        apply NoDup_app. split; [done|]. split; [|apply NoDup_singleton].
        intros x Hx Hx'. apply list_elem_of_singleton in Hx' as ->.
        apply list_elem_of_In, existsb_strEq_In in Hx. congruence.
    - by intros [= <-]. }
  assert (forall w l, currentLedger w = Some l -> P l ->
            exists l', currentLedger (runOps ops w) = Some l' /\ P l')
    as Hrun.
  { induction ops as [|op ops IH]; intros w l Hc HP; simpl; [eauto|].
    destruct (Hstep op w l Hc HP) as (l1 & Hc1 & HP1). eauto. }
  eapply Hrun; [reflexivity|].
  repeat split; simpl; constructor.
Qed.

(** X4. [clearLedger] leaves the absent state behind, whatever the state
    before: no ledger in memory, no continuity file, so that [getLedger]
    finds nothing and every mutating call after it changes nothing; a
    second [clearLedger] changes nothing either. *)
Theorem clearLedger_leaves_the_absent_state (w : World) :
  absent (clearLedger w) /\
  ledgerOf (clearLedger w) = None /\
  clearLedger (clearLedger w) = clearLedger w /\
  forall op, applyOp op (clearLedger w) = clearLedger w.
Proof.
  assert (absent (clearLedger w)) as Habs.
  { unfold clearLedger, deleteContinuity. simpl.
    destruct (continuityFile w) eqn:Hf; split; simpl; done. }
  split; [done|]. split; [|split].
  - unfold ledgerOf. by rewrite (getLedger_absent _ Habs).
  - unfold clearLedger, deleteContinuity. simpl.
    destruct w as [bf [c|] hf lf hif cof tr cl cs ss]; reflexivity.
  - intros op. destruct (applyOp_cases op (clearLedger w))
      as [(l & Hl & _)|[_ He]]; [|done].
    unfold ledgerOf in Hl. by rewrite (getLedger_absent _ Habs) in Hl.
Qed.

Lemma runOps_written_through ops w l :
  currentLedger w = Some l -> continuityFile w = Some l ->
  exists l', currentLedger (runOps ops w) = Some l' /\
             continuityFile (runOps ops w) = Some l'.
Proof.
  revert w l. induction ops as [|op ops IH]; intros w l Hc Hf; simpl; [eauto|].
  destruct (applyOp_cases op w) as [(l1 & Hl1 & [He|[l2 He]])|[Hn _]].
  - rewrite (ledgerOf_current w l Hc) in Hl1. injection Hl1 as <-.
    apply (IH _ l); by rewrite He.
  - apply (IH _ l2); by rewrite He.
  - by rewrite (ledgerOf_current w l Hc) in Hn.
Qed.

(** What a successful [beginSession] leaves behind. *)
Lemma beginSession_known_brand bId g clk w0 b :
  getBrand bId w0 = Some b ->
  exists r w1 b',
    beginSession bId g clk w0 = Returned r w1 /\
    beginSuccess r = true /\
    resumeContext r = getHandoff bId w0 /\
    currentLedger w1 =
      Some {| brandId := bId; brandName := name b; started := isoNow clk;
              goal := g; completed := []; inProgress := []; blockers := [];
              ledgerNotes := [] |} /\
    continuityFile w1 = currentLedger w1 /\
    configFile w1 =
      Some (set_activeBrand (Some bId)
              (default getDefaultConfig (configFile w0))) /\
    getBrand bId w1 = Some b' /\
    id b' = id b /\ name b' = name b /\
    (bId <> "" -> lastSession b' = Some (today clk)) /\
    (forall k, k <> bId -> getBrand k w1 = getBrand k w0) /\
    handoffFiles w1 = handoffFiles w0 /\
    learningsFile w1 = learningsFile w0 /\
    historyFiles w1 = historyFiles w0 /\
    currentSession w1 =
      Some {| sessionDate := today clk; sessionDuration := None;
              sessionBrandId := bId; activities := [];
              sessionNotes := [] |} /\
    isActive (sessionState w1) = true /\
    ss_brand (sessionState w1) = Some b /\
    startTime (sessionState w1) = Some (nowMs clk) /\
    ss_handoff (sessionState w1) =
      match getHandoff bId w0 with
      | Some h => Some h
      | None => ss_handoff (sessionState w0)
      end.
Proof.
  intros Hb. unfold beginSession. rewrite Hb.
  unfold setActiveBrand.
  assert (getBrand bId
            (writeConfig
               (set_activeBrand (Some bId)
                  (default getDefaultConfig (getConfig w0))) w0) = Some b)
    as Hb' by exact Hb.
  unfold hasHandoff, getHandoff.
  destruct (truthy (Some bId)) eqn:Htr.
  - rewrite Hb'. unfold updateBrand. rewrite Hb'. cbn.
    destruct (handoffFiles w0 !! bId) as [h|] eqn:Hh; cbn; rewrite ?Hh; cbn.
    + eexists _, _, _. split; [reflexivity|]. cbn.
      do 5 (split; [done|]).
      split; [apply lookup_insert_eq|].
      do 3 (split; [done|]).
      split; [intros k Hk; unfold getBrand; cbn; by apply lookup_insert_ne|].
      repeat (split; [done|]). done.
    + eexists _, _, _. split; [reflexivity|]. cbn.
      do 5 (split; [done|]).
      split; [apply lookup_insert_eq|].
      do 3 (split; [done|]).
      split; [intros k Hk; unfold getBrand; cbn; by apply lookup_insert_ne|].
      repeat (split; [done|]). done.
  - assert (bId = "") as ->.
    { simpl in Htr. apply negb_false_iff, strEq_true in Htr. done. }
    cbn.
    destruct (handoffFiles w0 !! "") as [h|] eqn:Hh; cbn; rewrite ?Hh; cbn.
    + eexists _, _, b. split; [reflexivity|]. cbn.
      repeat (split; [try done|]). done.
    + eexists _, _, b. split; [reflexivity|]. cbn.
      repeat (split; [try done|]). done.
Qed.

(** X2. A session survives a restart of the process.  After a successful
    [beginSession] for a brand with a non-empty id and any sequence of
    ledger calls, losing every module-level variable and calling
    [checkAndRestoreSession] yields an active session for that brand whose
    ledger is the one the process had before the restart; no handoff is
    attached to the restored session. *)
Theorem session_is_restored_after_restart
    (bId : string) (g : option string) (clk clk' : Clock) (w0 : World)
    (b : Brand) (ops : list LedgerOp) :
  getBrand bId w0 = Some b ->
  bId <> "" ->
  let w := runOps ops (worldOf (beginSession bId g clk w0)) in
  let res := checkAndRestoreSession clk' (restartProcess w) in
  is_Some (currentLedger w) /\
  hasSession res.1 = true /\
  restoredBrandId res.1 = Some (id b) /\
  currentLedger res.2 = currentLedger w /\
  isActive (sessionState res.2) = true /\
  ss_handoff (sessionState res.2) = None.
Proof.
  intros Hb Hne w res.
  destruct (beginSession_known_brand bId g clk w0 b Hb)
    as (r & w1 & b' & Hbeg & _ & _ & Hc & Hf & Hcfg & Hb' & Hid & _).
  subst res w. rewrite Hbeg. cbn [worldOf].
  destruct (currentLedger w1) as [l1|] eqn:Hc1; [|done].
  destruct (runOps_written_through ops w1 l1 Hc1 Hf) as (l & Hcl & Hfl).
  destruct (runOps_frame ops w1) as (Hbf & _ & _ & _ & Hcf & _).
  set (w := runOps ops w1) in *.
  assert (getActiveBrand (restartProcess w) = Some b') as Hact.
  { unfold getActiveBrand, getConfig, restartProcess. cbn.
    rewrite Hcf, Hcfg. cbn.
    destruct (strEq bId "") eqn:He; [by apply strEq_true in He|]. cbn.
    unfold getBrand in *. cbn. by rewrite Hbf. }
  unfold checkAndRestoreSession. rewrite Hact.
  assert (getLedger (restartProcess w)
          = (Some l, set_currentLedger (Some l) (restartProcess w))) as Hg.
  { unfold getLedger, loadLedger, restartProcess. cbn. by rewrite Hfl. }
  rewrite Hg. cbn. rewrite Hcl.
  split; [by eexists|]. by rewrite Hid.
Qed.

Lemma session_is_restored_after_restart_witness :
  let w := runOps [AddInProgressTask "Keyword research" "t1";
                   AddBlocker "Need API access"]
                  (worldOf (beginSession "acme-corp" None sampleClock
                                         acmeWorld)) in
  hasSession (checkAndRestoreSession laterClock (restartProcess w)).1 = true /\
  currentLedger (checkAndRestoreSession laterClock (restartProcess w)).2
    = currentLedger w.
Proof.
  destruct (getBrand "acme-corp" acmeWorld) as [b|] eqn:Hb;
    [|by vm_compute in Hb].
  destruct (session_is_restored_after_restart "acme-corp" None sampleClock
              laterClock acmeWorld b
              [AddInProgressTask "Keyword research" "t1";
               AddBlocker "Need API access"] Hb)
    as (_ & Hs & _ & Hl & _); [discriminate|].
  split; [exact Hs | exact Hl].
Defined.

Lemma filter_unlisted t ts :
  listed t ts = false ->
  List.filter (fun x => negb (sameTextCI (task x) t)) ts = ts.
Proof.
  intros H. induction ts as [|y r IH]; simpl; [done|].
  simpl in H. apply orb_false_iff in H as [Hy Hr].
  rewrite Hy. simpl. f_equal. by apply IH.
Qed.

(** X5. Completing a text that is not in progress logs it: on an open
    ledger whose in-progress texts are ASCII texts, [completeTask] with an
    ASCII text that no in-progress entry carries (letter case ignored)
    appends one completed entry with that text, the given result and the
    current time, and leaves the in-progress list, the blockers, the
    notes and the goal as they are. *)
Theorem completeTask_of_unknown_task_is_logged
    (w : World) (l : ContinuityLedger) (t : string) (res : option string)
    (now : string) :
  ledgerOf w = Some l ->
  asciiText t = true ->
  forallb (fun x => asciiText (task x)) (inProgress l) = true ->
  listed t (inProgress l) = false ->
  ledgerOf (completeTask t res now w) =
    Some (set_completed
            (completed l ++ [{| task := t; timestamp := now; result := res |}])
            l) /\
  continuityFile (completeTask t res now w)
    = ledgerOf (completeTask t res now w).
Proof.
  intros Hl _ _ Hun. unfold completeTask, addCompletedTask.
  rewrite (getLedger_loaded w l Hl).
  apply findIndex_None in Hun as Hf. rewrite Hf.
  rewrite (getLedger_current (set_currentLedger (Some l) w) l eq_refl).
  rewrite (filter_unlisted _ _ Hun).
  split; [|reflexivity].
  apply ledgerOf_current. simpl. by destruct l.
Qed.

Lemma completeTask_of_unknown_task_is_logged_witness :
  (fun l => (task <$> completed l, task <$> inProgress l))
    <$> ledgerOf (completeTask "Publish pricing page" (Some "live") "t1"
                    (addInProgressTask "Keyword research" "t0" openWorld))
  = Some (["Publish pricing page"], ["Keyword research"]).
Proof.
  rewrite (proj1 (completeTask_of_unknown_task_is_logged
            (addInProgressTask "Keyword research" "t0" openWorld)
            {| brandId := "acme"; brandName := "Acme";
               started := "2026-01-01T09:00:00.000Z"; goal := None;
               completed := [];
               inProgress := [{| task := "Keyword research";
                                 timestamp := "t0"; result := None |}];
               blockers := []; ledgerNotes := [] |}
            "Publish pricing page" (Some "live") "t1"
            eq_refl eq_refl eq_refl eq_refl)).
  reflexivity.
Defined.

Lemma findIndex_ext_pred {A} (p q : A -> bool) (l : list A) :
  (forall x, p x = q x) -> findIndex p l = findIndex q l.
Proof.
  intros H. induction l as [|y r IH]; simpl; [done|]. by rewrite H, IH.
Qed.

Lemma findIndex_alter_same (p : SessionTask -> bool)
    (f : SessionTask -> SessionTask) (i : nat) (ts : list SessionTask) :
  (forall x, p (f x) = p x) ->
  findIndex p (alter f i ts) = findIndex p ts.
Proof.
  intros Hp. revert i. induction ts as [|y r IH]; intros [|i]; cbn;
    try done.
  - by rewrite Hp.
  - by rewrite IH.
Qed.

(** X6. A progress note survives completion.  When a task in progress has
    been given a non-empty progress note by [updateTaskProgress] and is then
    completed under the same text (letter case ignored) without a result,
    or with the empty result, the completed entry carries the note as its
    result; a non-empty result given to [completeTask] takes its place. *)
Theorem completeTask_keeps_the_progress_note
    (w : World) (l : ContinuityLedger) (t t' note : string)
    (res : option string) (now : string) :
  ledgerOf w = Some l ->
  listed t (inProgress l) = true ->
  sameTextCI t t' = true ->
  note <> "" ->
  exists l' e,
    ledgerOf (completeTask t' res now (updateTaskProgress t note w))
      = Some l' /\
    completed l' = completed l ++ [e] /\
    sameTextCI (task e) t = true /\
    timestamp e = now /\
    result e = (if truthy res then res else Some note) /\
    (length (inProgress l') + 1 = length (inProgress l))%nat.
Proof.
  intros Hl Hin Hsame Hnote.
  unfold updateTaskProgress. rewrite (getLedger_loaded w l Hl).
  destruct (findIndex (fun x => sameTextCI (task x) t) (inProgress l))
    as [i|] eqn:Hf;
    [|apply findIndex_None in Hf; unfold listed in Hin; congruence].
  destruct (findIndex_Some _ _ _ Hf) as (e0 & He0 & Hp0).
  unfold completeTask.
  rewrite (getLedger_current _ _ (currentLedger_mutateAndSave _ _)).
  cbn [inProgress set_inProgress].
  assert (forall x, sameTextCI (task x) t' = sameTextCI (task x) t) as Hpred.
  { intros x. rewrite !(sameTextCI_sym (task x)).
    symmetry. by apply sameTextCI_trans_l. }
  rewrite (findIndex_ext_pred _ _ _ Hpred).
  rewrite findIndex_alter_same by done. rewrite Hf.
  rewrite list_lookup_alter_eq, He0. cbn.
  eexists _, _. split; [reflexivity|].
  cbn. split; [done|]. split; [done|]. split; [done|]. split.
  - unfold orElse. destruct (truthy res); [done|].
    cbn. destruct (strEq note "") eqn:He; [|done].
    by apply strEq_true in He.
  - rewrite length_delete_lookup with (e := {| task := task e0;
        timestamp := timestamp e0; result := Some note |}).
    + by rewrite length_alter.
    + by rewrite list_lookup_alter_eq, He0.
Qed.

Lemma completeTask_keeps_the_progress_note_witness :
  (fun l => result <$> completed l)
    <$> ledgerOf
          (completeTask "keyword research" None "t3"
             (updateTaskProgress "Keyword research" "40 terms so far"
                (addInProgressTask "Keyword research" "t1" openWorld)))
  = Some [Some "40 terms so far"].
Proof.
  destruct (completeTask_keeps_the_progress_note
              (addInProgressTask "Keyword research" "t1" openWorld)
              {| brandId := "acme"; brandName := "Acme";
                 started := "2026-01-01T09:00:00.000Z"; goal := None;
                 completed := [];
                 inProgress := [{| task := "Keyword research";
                                   timestamp := "t1"; result := None |}];
                 blockers := []; ledgerNotes := [] |}
              "Keyword research" "keyword research" "40 terms so far"
              None "t3" eq_refl eq_refl eq_refl)
    as (l' & e & Hl' & Hc & _ & _ & Hr & _); [discriminate|].
  rewrite Hl'. simpl. rewrite Hc. simpl. by rewrite Hr.
Defined.

(** X7. Starting a task twice starts it once.  On an open ledger a second
    [addInProgressTask] with a text that differs from the first at most in
    letter case leaves the world exactly as the first call left it: no
    entry is added and nothing is written. *)
Theorem addInProgressTask_twice_is_once
    (w : World) (l : ContinuityLedger) (t t' now now' : string) :
  ledgerOf w = Some l ->
  sameTextCI t t' = true ->
  addInProgressTask t' now' (addInProgressTask t now w)
    = addInProgressTask t now w.
Proof.
  intros Hl Hsame.
  assert (exists l1, currentLedger (addInProgressTask t now w) = Some l1 /\
                     listed t (inProgress l1) = true) as (l1 & Hc1 & Hin1).
  { unfold addInProgressTask. rewrite (getLedger_loaded w l Hl).
    fold (listed t (inProgress l)).
    destruct (listed t (inProgress l)) eqn:Hin.
    - exists l. by split.
    - eexists. split; [apply currentLedger_mutateAndSave|].
      simpl. rewrite listed_app. simpl.
      by rewrite sameTextCI_refl, orb_true_r. }
  unfold addInProgressTask at 1.
  rewrite (getLedger_current _ l1 Hc1).
  fold (listed t' (inProgress l1)).
  by rewrite <- (listed_same t t' _ Hsame), Hin1.
Qed.

Lemma addInProgressTask_twice_is_once_witness :
  addInProgressTask "KEYWORD RESEARCH" "t2"
    (addInProgressTask "Keyword research" "t1" openWorld)
  = addInProgressTask "Keyword research" "t1" openWorld.
Proof.
  apply (addInProgressTask_twice_is_once openWorld
           {| brandId := "acme"; brandName := "Acme";
              started := "2026-01-01T09:00:00.000Z"; goal := None;
              completed := []; inProgress := []; blockers := [];
              ledgerNotes := [] |}); reflexivity.
Defined.

(* ================================================================== *)
(** * Further properties of the handoff store *)
(* ================================================================== *)

(** X8. [createHandoff] reads the ledger and writes one file.  In the
    absent state it returns null and changes nothing.  On an open ledger
    it leaves the ledger and the continuity file as they are, writes the
    handoff file of the ledger's brand and no other file, and leaves the
    handoffs of all other brands untouched. *)
Theorem createHandoff_writes_one_file
    (steps : option (list PrioritizedTask)) (prompt : option string)
    (clk : Clock) (w : World) :
  (absent w -> createHandoff steps prompt clk w = (None, w)) /\
  (forall l, ledgerOf w = Some l ->
     let w' := (createHandoff steps prompt clk w).2 in
     ledgerOf w' = Some l /\
     continuityFile w' = continuityFile w /\
     fsTrace w' = fsTrace w ++ [Written (getHandoffPath (brandId l))] /\
     (forall b, b <> brandId l -> getHandoff b w' = getHandoff b w) /\
     brandFiles w' = brandFiles w /\ learningsFile w' = learningsFile w /\
     historyFiles w' = historyFiles w /\ configFile w' = configFile w).
Proof.
  split.
  - intros Habs. unfold createHandoff. by rewrite (getLedger_absent w Habs).
  - intros l Hl. destruct (createHandoff_writes steps prompt clk l) as [h Hh].
    rewrite (Hh w Hl). cbn.
    split; [done|]. split; [done|]. split; [done|].
    split; [|done].
    intros b Hb. unfold getHandoff. cbn. by apply lookup_insert_ne.
Qed.

Lemma createHandoff_writes_one_file_witness :
  fsTrace (createHandoff None None laterClock openWorld).2
    = fsTrace openWorld ++ [Written "handoffs/acme.yaml"].
Proof.
  exact (proj1 (proj2 (proj2 (proj2 (createHandoff_writes_one_file
           None None laterClock openWorld)
           {| brandId := "acme"; brandName := "Acme";
              started := "2026-01-01T09:00:00.000Z"; goal := None;
              completed := []; inProgress := []; blockers := [];
              ledgerNotes := [] |} eq_refl)))).
Defined.

(** X9. The snapshot that [createHandoff] takes.  The handoff carries the
    ledger's brand id; its completed tasks are the ledger's completed
    texts with their results, its in-progress tasks the ledger's
    in-progress texts with their results as progress, its deferred tasks
    the blockers, each with the reason "Blocked - needs resolution", all
    in the ledger's order.  A [nextSteps] list that is passed is stored as
    it is: passing the empty list stores no steps, whatever is in
    progress. *)
Theorem createHandoff_snapshot
    (steps : option (list PrioritizedTask)) (prompt : option string)
    (clk : Clock) (w : World) (l : ContinuityLedger) :
  ledgerOf w = Some l ->
  exists h,
    (createHandoff steps prompt clk w).1 = Some h /\
    handoffBrandId h = brandId l /\
    (forall s, steps = Some s -> nextSteps h = s) /\
    h_task <$> ls_completed (handoffLastSession h) = task <$> completed l /\
    h_result <$> ls_completed (handoffLastSession h)
      = result <$> completed l /\
    h_task <$> ls_inProgress (handoffLastSession h)
      = task <$> inProgress l /\
    h_progress <$> ls_inProgress (handoffLastSession h)
      = result <$> inProgress l /\
    h_task <$> deferred (handoffLastSession h) = blockers l /\
    Forall (fun d => h_reason d = Some "Blocked - needs resolution")
           (deferred (handoffLastSession h)).
Proof.
  intros Hl. unfold createHandoff, getSessionSummary.
  rewrite (getLedger_loaded w l Hl).
  rewrite (getLedger_current (set_currentLedger (Some l) w) l eq_refl).
  eexists. split; [reflexivity|]. cbn.
  split; [done|]. split; [by intros s ->|].
  rewrite <- !list_fmap_compose.
  repeat (split; [done|]).
  split.
  - induction (blockers l) as [|x r IH]; [done|]. cbn. by rewrite IH.
  - apply Forall_fmap. by apply Forall_true.
Qed.

Lemma createHandoff_snapshot_witness :
  exists h,
    (createHandoff (Some []) None laterClock
       (addInProgressTask "Keyword research" "t1" openWorld)).1 = Some h /\
    nextSteps h = [] /\
    h_task <$> ls_inProgress (handoffLastSession h) = ["Keyword research"].
Proof.
  destruct (createHandoff_snapshot (Some []) None laterClock
              (addInProgressTask "Keyword research" "t1" openWorld)
              {| brandId := "acme"; brandName := "Acme";
                 started := "2026-01-01T09:00:00.000Z"; goal := None;
                 completed := [];
                 inProgress := [{| task := "Keyword research";
                                   timestamp := "t1"; result := None |}];
                 blockers := []; ledgerNotes := [] |} eq_refl)
    as (h & Hh & _ & Hs & _ & _ & Hip & _).
  exists h. split; [exact Hh|]. split; [exact (Hs [] eq_refl) | exact Hip].
Defined.

Lemma prefix_append (a b : string) : String.prefix a (a +:+ b) = true.
Proof.
  induction a as [|c a IH]; [by destruct b|].
  change (String.prefix (String c a) (String c (a +:+ b)) = true).
  simpl. destruct (ascii_dec c c); [done|congruence].
Qed.

Lemma append_empty_r (a : string) : a +:+ "" = a.
Proof.
  induction a as [|c a IH]; [done|].
  change (String c (a +:+ "") = String c a). by f_equal.
Qed.

Lemma join_head sep x rest : exists tl, join sep (x :: rest) = x +:+ tl.
Proof.
  destruct rest as [|y r]; simpl.
  - exists "". symmetry. apply append_empty_r.
  - by eexists.
Qed.

Lemma generateResumePrompt_parts l steps :
  exists tl,
    generateResumePrompt l steps
      = join " " (("Working with " +:+ brandName l +:+ ".") :: tl) /\
    (goal l = None -> completed l = [] -> inProgress l = [] ->
     blockers l = [] -> steps = [] -> tl = []).
Proof.
  unfold generateResumePrompt.
  destruct (goal l) as [g|]; [destruct (truthy (Some g))|];
    destruct (completed l), (inProgress l), (blockers l), steps;
    cbn [length Nat.ltb Nat.leb app];
    eexists; (split; [reflexivity | try done]).
Qed.

(** X10. The resume prompt.  A non-empty prompt passed to [createHandoff]
    is stored as it is.  Without one, or with the empty text, the stored
    prompt is the generated one: it starts with "Working with <brand
    name>." and, for a ledger without goal, tasks and blockers and
    without next steps, it is exactly that sentence. *)
Theorem createHandoff_resume_prompt
    (steps : option (list PrioritizedTask)) (prompt : option string)
    (clk : Clock) (w : World) (l : ContinuityLedger) :
  ledgerOf w = Some l ->
  exists h,
    (createHandoff steps prompt clk w).1 = Some h /\
    (forall p, prompt = Some p -> p <> "" -> resumePrompt h = p) /\
    (truthy prompt = false ->
     resumePrompt h = generateResumePrompt l (nextSteps h) /\
     String.prefix ("Working with " +:+ brandName l +:+ ".")
                   (resumePrompt h) = true /\
     (goal l = None -> completed l = [] -> inProgress l = [] ->
      blockers l = [] -> nextSteps h = [] ->
      resumePrompt h = "Working with " +:+ brandName l +:+ ".")).
Proof.
  intros Hl. unfold createHandoff, getSessionSummary.
  rewrite (getLedger_loaded w l Hl).
  rewrite (getLedger_current (set_currentLedger (Some l) w) l eq_refl).
  eexists. split; [reflexivity|]. cbn [fst resumePrompt nextSteps].
  split.
  - intros p -> Hp. cbn. destruct (strEq p "") eqn:He; [|done].
    by apply strEq_true in He.
  - intros Hfalse.
    set (st := match steps with Some s => s | None => _ end).
    assert (match prompt with
            | Some p => if truthy (Some p) then p
                        else generateResumePrompt l st
            | None => generateResumePrompt l st
            end = generateResumePrompt l st) as ->.
    { destruct prompt as [p|]; [|done]. by rewrite Hfalse. }
    split; [done|].
    destruct (generateResumePrompt_parts l st) as (tl & -> & Hnil).
    split.
    + destruct (join_head " " ("Working with " +:+ brandName l +:+ ".") tl)
        as [tl' ->]. apply prefix_append.
    + intros H1 H2 H3 H4 H5. by rewrite (Hnil H1 H2 H3 H4 H5).
Qed.

Lemma createHandoff_resume_prompt_witness :
  resumePrompt <$> (createHandoff None (Some "") laterClock openWorld).1
    = Some "Working with Acme.".
Proof.
  destruct (createHandoff_resume_prompt None (Some "") laterClock openWorld
              {| brandId := "acme"; brandName := "Acme";
                 started := "2026-01-01T09:00:00.000Z"; goal := None;
                 completed := []; inProgress := []; blockers := [];
                 ledgerNotes := [] |} eq_refl)
    as (h & Hh & _ & Hgen).
  destruct (Hgen eq_refl) as (_ & _ & Hexact).
  rewrite Hh. simpl. f_equal.
  apply Hexact; try reflexivity.
  vm_compute in Hh. by injection Hh as <-.
Defined.

Lemma sortInsert_snoc {A} (cmp : A -> A -> Z) (s x : A) (m : list A) :
  (cmp s x >? 0) = false ->
  sortInsert cmp s (m ++ [x]) = sortInsert cmp s m ++ [x].
Proof.
  intros Hc. induction m as [|y m IH]; cbn.
  - by rewrite Hc.
  - destruct (cmp s y >? 0); [|done]. by rewrite IH.
Qed.

Lemma jsSort_snoc_last {A} (cmp : A -> A -> Z) (x : A) (l : list A) :
  Forall (fun s => (cmp s x >? 0) = false) l ->
  jsSort cmp (l ++ [x]) = jsSort cmp l ++ [x].
Proof.
  unfold jsSort. rewrite foldr_app. cbn [foldr sortInsert].
  induction 1 as [|s r Hs Hr IH]; [done|].
  cbn [foldr]. rewrite IH. by apply sortInsert_snoc.
Qed.

(** X11. [addNextStep] keeps the steps ordered.  On a stored handoff it
    returns and stores a handoff whose steps are the old steps and the new
    one, rearranged so that priorities never decrease along the list, even
    if the stored steps were out of order; a step of equal priority stays
    behind the steps stored before it.  The new step gets the given
    priority, or the number of old steps plus one when no priority or the
    priority 0 is given. *)
Theorem addNextStep_sorts_by_priority
    (w : World) (bId t : string) (prio : option Z) (ctx : option string)
    (h : Handoff) :
  getHandoff bId w = Some h ->
  let new :=
    {| priority :=
         match prio with
         | Some 0 | None => Z.of_nat (length (nextSteps h)) + 1
         | Some p => p
         end;
       stepTask := t; context := ctx |} in
  exists h',
    (addNextStep bId t prio ctx w).1 = Some h' /\
    getHandoff bId (addNextStep bId t prio ctx w).2 = Some h' /\
    Permutation (nextSteps h') (nextSteps h ++ [new]) /\
    StronglySorted (fun a b => priority a <= priority b) (nextSteps h') /\
    (Forall (fun s => priority s <= priority new) (nextSteps h) ->
     nextSteps h' = jsSort (fun a b => priority a - priority b) (nextSteps h)
                      ++ [new]).
Proof.
  intros Hh new. unfold addNextStep. rewrite Hh.
  assert (match prio with
          | Some p => if p =? 0 then Z.of_nat (length (nextSteps h)) + 1
                      else p
          | None => Z.of_nat (length (nextSteps h)) + 1
          end = priority new) as ->.
  { subst new. destruct prio as [[|p|p]|]; reflexivity. }
  fold new.
  eexists. split; [reflexivity|]. cbn [fst snd nextSteps set_nextSteps].
  split; [unfold getHandoff; cbn; apply lookup_insert_eq|].
  split; [apply jsSort_perm|]. split.
  - apply jsSort_sorted.
    + intros a b H. apply Z.gtb_gt in H. lia.
    + intros a b H. rewrite Z.gtb_ltb, Z.ltb_ge in H. lia.
    + intros a b c. lia.
  - intros Hle. apply jsSort_snoc_last.
    eapply Forall_impl; [exact Hle|]. cbn. intros s Hs.
    rewrite Z.gtb_ltb, Z.ltb_ge. lia.
Qed.

Lemma addNextStep_sorts_by_priority_witness :
  (fun h => stepTask <$> nextSteps h)
    <$> (addNextStep "acme" "Ask for API access" (Some 1) None handoffWorld).1
  = Some ["Continue: Keyword research"; "Ask for API access";
          "Resolve blocker: Need API access"].
Proof.
  destruct (getHandoff "acme" handoffWorld) as [h|] eqn:Hh;
    [|by vm_compute in Hh].
  destruct (addNextStep_sorts_by_priority handoffWorld "acme"
              "Ask for API access" (Some 1) None h Hh)
    as (h' & Hr & _).
  rewrite Hr. vm_compute in Hr. by injection Hr as <-.
Defined.

(** [clearHandoff] removes the handoff of one brand for good.
    After it [getHandoff] and [hasHandoff] find nothing for that brand,
    the handoffs of other brands are as before, clearing again changes
    nothing, and [addNextStep], [removeNextStep] and [updateResumePrompt]
    for that brand return null without writing. *)
Lemma clearHandoff_removes_one_handoff (w : World) (bId : string) :
  let w' := (clearHandoff bId w).2 in
  getHandoff bId w' = None /\
  hasHandoff bId w' = false /\
  (forall b, b <> bId -> getHandoff b w' = getHandoff b w) /\
  (clearHandoff bId w').2 = w' /\
  (forall t prio ctx, addNextStep bId t prio ctx w' = (None, w')) /\
  (forall i, removeNextStep bId i w' = (None, w')) /\
  (forall p, updateResumePrompt bId p w' = (None, w')).
Proof.
  intros w'.
  assert (getHandoff bId w' = None) as Hnone.
  { subst w'. unfold clearHandoff, deleteHandoffFile, getHandoff. cbn.
    destruct (handoffFiles w !! bId) eqn:Hh; cbn; [|done].
    apply lookup_delete_eq. }
  split; [done|]. split; [unfold hasHandoff; by rewrite Hnone|].
  split.
  { intros b Hb. subst w'.
    unfold clearHandoff, deleteHandoffFile, getHandoff. cbn.
    destruct (handoffFiles w !! bId); cbn; [|done].
    by apply lookup_delete_ne. }
  split.
  { unfold clearHandoff. cbn [snd]. unfold deleteHandoffFile.
    unfold getHandoff in Hnone. by rewrite Hnone. }
  split; [|split]; intros;
    unfold addNextStep, removeNextStep, updateResumePrompt;
    by rewrite Hnone.
Qed.

(* ================================================================== *)
(** * Further properties of the brand registry *)
(* ================================================================== *)

(** ** Derived identifiers *)

Lemma isLowerAlnum_not_hyphen c : isLowerAlnum c = true -> Ascii.eqb c "-" = false.
Proof.
  intros H. destruct (Ascii.eqb_spec c "-") as [->|]; [done|done].
Qed.

Lemma replaceNonAlnumRuns_idChars s b :
  allChars idChar (replaceNonAlnumRuns b s) = true.
Proof.
  revert b. induction s as [|c r IH]; intros b; simpl; [done|].
  destruct (isLowerAlnum c) eqn:Hc.
  - simpl. unfold idChar at 1. by rewrite Hc, IH.
  - destruct b; [apply IH|]. simpl. apply IH.
Qed.

Lemma allChars_stripTrailingChar p d s :
  allChars p s = true -> allChars p (stripTrailingChar d s) = true.
Proof.
  induction s as [|c r IH]; [done|].
  destruct r as [|e r'].
  - simpl. by destruct (Ascii.eqb c d).
  - change (stripTrailingChar d (String c (String e r')))
      with (String c (stripTrailingChar d (String e r'))).
    change (allChars p (String c (String e r')))
      with (p c && allChars p (String e r')).
    intros H. apply andb_true_iff in H as [Hc Hr].
    change (p c && allChars p (stripTrailingChar d (String e r')) = true).
    by rewrite Hc, IH.
Qed.

Lemma singleHyphens_stripTrailingChar d s b :
  singleHyphens b s = true -> singleHyphens b (stripTrailingChar d s) = true.
Proof.
  revert b. induction s as [|c r IH]; intros b; [done|].
  destruct r as [|e r'].
  - simpl. destruct (Ascii.eqb c d); [done|]. simpl. done.
  - change (stripTrailingChar d (String c (String e r')))
      with (String c (stripTrailingChar d (String e r'))).
    change (singleHyphens b (String c (String e r')))
      with (if Ascii.eqb c "-"
            then negb b && singleHyphens true (String e r')
            else singleHyphens false (String e r')).
    change (singleHyphens b
              (String c (stripTrailingChar d (String e r'))))
      with (if Ascii.eqb c "-"
            then negb b &&
                 singleHyphens true (stripTrailingChar d (String e r'))
            else singleHyphens false (stripTrailingChar d (String e r'))).
    destruct (Ascii.eqb c "-"); [|apply IH].
    intros H. apply andb_true_iff in H as [Hb Hr].
    by rewrite Hb, IH.
Qed.

Lemma allChars_take p n s :
  allChars p s = true -> allChars p (substring 0 n s) = true.
Proof.
  revert s. induction n as [|n IH]; intros [|c r]; simpl; try done.
  intros H. apply andb_true_iff in H as [Hc Hr]. by rewrite Hc, IH.
Qed.

Lemma singleHyphens_take n s b :
  singleHyphens b s = true -> singleHyphens b (substring 0 n s) = true.
Proof.
  revert s b. induction n as [|n IH]; intros [|c r] b; simpl; try done.
  destruct (Ascii.eqb c "-"); [|apply IH].
  intros H. apply andb_true_iff in H as [Hb Hr]. by rewrite Hb, IH.
Qed.

Lemma strlen_take n s : (String.length (substring 0 n s) <= n)%nat.
Proof.
  revert s. induction n as [|n IH]; intros [|c r]; simpl; try lia.
  specialize (IH r). lia.
Qed.

Lemma substring_all n s :
  (String.length s <= n)%nat -> substring 0 n s = s.
Proof.
  revert s. induction n as [|n IH]; intros [|c r]; simpl; try done.
  - lia.
  - intros H. f_equal. apply IH. lia.
Qed.

(** X12. The shape of a derived id.  For every name, [generateId] yields
    at most 50 characters, all of them lower-case letters, digits or
    hyphens, never a hyphen at the start and never two hyphens in a row. *)
Theorem generateId_shape (nm : string) :
  (String.length (generateId nm) <= 50)%nat /\
  allChars idChar (generateId nm) = true /\
  singleHyphens true (generateId nm) = true.
Proof.
  unfold generateId, trimHyphens.
  split; [apply strlen_take|]. split.
  - apply allChars_take, allChars_stripTrailingChar.
    pose proof (replaceNonAlnumRuns_idChars (toLowerCase nm) false) as H.
    destruct (replaceNonAlnumRuns false (toLowerCase nm)) as [|c r]; [done|].
    rewrite stripLeadingHyphen_cons.
    destruct (Ascii.eqb c "-"); [|done].
    simpl in H. by apply andb_true_iff in H as [_ H].
  - apply singleHyphens_take, singleHyphens_stripTrailingChar.
    pose proof (replaceNonAlnumRuns_singleHyphens (toLowerCase nm) false)
      as H.
    destruct (replaceNonAlnumRuns false (toLowerCase nm)) as [|c r]; [done|].
    rewrite stripLeadingHyphen_cons. simpl in H.
    destruct (Ascii.eqb c "-") eqn:Hc; [done|].
    simpl. by rewrite Hc.
Qed.

Lemma idChar_not_upper c : idChar c = true -> toLowerChar c = c.
Proof.
  unfold idChar, toLowerChar, isLowerAlnum, isUpper.
  intros H. apply orb_true_iff in H as [H|H].
  - destruct ((65 <=? nat_of_ascii c)%nat && (nat_of_ascii c <=? 90)%nat)
      eqn:Hu; [|done].
    apply andb_true_iff in Hu as [H1 H2].
    apply Nat.leb_le in H1, H2.
    apply orb_true_iff in H as [H|H]; apply andb_true_iff in H as [H3 H4];
      apply Nat.leb_le in H3, H4; lia.
  - apply Ascii.eqb_eq in H as ->. reflexivity.
Qed.

Lemma toLowerCase_id s : allChars idChar s = true -> toLowerCase s = s.
Proof.
  induction s as [|c r IH]; simpl; [done|].
  intros H. apply andb_true_iff in H as [Hc Hr].
  by rewrite idChar_not_upper, IH.
Qed.

Lemma replaceNonAlnumRuns_id s b :
  allChars idChar s = true -> singleHyphens b s = true ->
  replaceNonAlnumRuns b s = s.
Proof.
  revert b. induction s as [|c r IH]; intros b; simpl; [done|].
  intros H. apply andb_true_iff in H as [Hc Hr].
  destruct (isLowerAlnum c) eqn:Ha.
  - rewrite (isLowerAlnum_not_hyphen c Ha). intros Hs. f_equal. by apply IH.
  - unfold idChar in Hc. rewrite Ha in Hc. simpl in Hc. rewrite Hc.
    intros Hs. apply andb_true_iff in Hs as [Hb Hs].
    apply negb_true_iff in Hb as ->.
    apply Ascii.eqb_eq in Hc as ->. f_equal. by apply IH.
Qed.

Lemma stripTrailingChar_id s :
  endsWithHyphen s = false -> stripTrailingChar "-" s = s.
Proof.
  induction s as [|c r IH]; [done|].
  destruct r as [|e r'].
  - simpl. by intros ->.
  - change (endsWithHyphen (String c (String e r')))
      with (endsWithHyphen (String e r')).
    change (stripTrailingChar "-" (String c (String e r')))
      with (String c (stripTrailingChar "-" (String e r'))).
    intros H. by rewrite IH.
Qed.

(** X13. A well-formed id is its own derived id: for a text of at most 50
    lower-case letters, digits and single hyphens that neither starts nor
    ends with a hyphen, [generateId] returns the text itself. *)
Theorem generateId_fixes_well_formed_ids (s : string) :
  wellFormedId s = true -> generateId s = s.
Proof.
  unfold wellFormedId. rewrite !andb_true_iff, negb_true_iff.
  intros [[[Hch Hsh] Hend] Hlen]. apply Nat.leb_le in Hlen.
  unfold generateId, trimHyphens.
  rewrite (toLowerCase_id s Hch).
  rewrite (replaceNonAlnumRuns_id s false Hch (singleHyphens_weaken s Hsh)).
  assert (stripLeadingHyphen s = s) as ->.
  { destruct s as [|c r]; [done|]. rewrite stripLeadingHyphen_cons.
    simpl in Hsh. by destruct (Ascii.eqb c "-"). }
  rewrite (stripTrailingChar_id s Hend). by apply substring_all.
Qed.

Lemma generateId_fixes_well_formed_ids_witness :
  generateId (generateId "Tech & Co.") = generateId "Tech & Co.".
Proof.
  apply (generateId_fixes_well_formed_ids (generateId "Tech & Co.")).
  reflexivity.
Defined.

(** ** Creating and deleting brands *)

(** What a successful [createBrand] leaves behind. *)
Lemma createBrand_fresh nm ws data clk w :
  getBrand (generateId nm) w = None ->
  exists b w' b',
    createBrand nm ws data clk w = Returned b w' /\
    getBrand (generateId nm) w' = Some b' /\
    id b = generateId nm /\ name b = nm /\ lastSession b = None /\
    id b' = generateId nm /\ name b' = nm /\ website b' = website b /\
    created b' = today clk /\ lastUpdated b' = today clk /\
    competitors b' = default [] (p_competitors data) /\
    lastSession b' =
      (if strEq (generateId nm) "" then None else Some (today clk)) /\
    configFile w' =
      Some (set_activeBrand (Some (generateId nm))
              (default getDefaultConfig (configFile w))) /\
    (forall k, k <> generateId nm -> getBrand k w' = getBrand k w) /\
    handoffFiles w' = handoffFiles w /\
    learningsFile w' = learningsFile w /\
    historyFiles w' = historyFiles w.
Proof.
  intros Hfree. unfold createBrand. unfold getBrand in Hfree. rewrite Hfree.
  unfold setActiveBrand. cbn [truthy].
  destruct (strEq (generateId nm) "") eqn:He; cbn [negb].
  - cbn. eexists _, _, _. split; [reflexivity|].
    split; [unfold getBrand; cbn; apply lookup_insert_eq|].
    cbn. do 11 (split; [done|]).
    split; [|done].
    intros k Hk. unfold getBrand. cbn. by apply lookup_insert_ne.
  - match goal with
    | |- context [getBrand ?i (writeConfig ?c (writeBrand ?i ?b0 w))] =>
        assert (getBrand i (writeConfig c (writeBrand i b0 w)) = Some b0)
          as Hb by (unfold getBrand; cbn; apply lookup_insert_eq)
    end.
    rewrite Hb. unfold updateBrand. rewrite Hb. cbn.
    eexists _, _, _. split; [reflexivity|].
    split; [unfold getBrand; cbn; apply lookup_insert_eq|].
    cbn. do 11 (split; [done|]).
    split; [|done].
    intros k Hk. unfold getBrand. cbn.
    by rewrite !lookup_insert_ne.
Qed.

(** X14. One id, one brand.  For names of ASCII characters (where
    [toLowerCase] is the folding of the sources): after a brand has been
    created, creating a brand whose name derives the same id (the same
    name in another letter case, with other punctuation, or the id
    itself) throws "already exists" and leaves the world, the first brand
    included, as it was. *)
Theorem createBrand_same_id_throws
    (nm nm' ws ws' : string) (data data' : PartialBrand) (clk clk' : Clock)
    (w : World) :
  asciiText nm = true -> asciiText nm' = true ->
  getBrand (generateId nm) w = None ->
  generateId nm' = generateId nm ->
  let w1 := worldOf (createBrand nm ws data clk w) in
  createBrand nm' ws' data' clk' w1
    = Thrown ("Brand with ID " +:+ quoted (generateId nm)
              +:+ " already exists") w1 /\
  name <$> getBrand (generateId nm) w1 = Some nm.
Proof.
  intros _ _ Hfree Hsame w1.
  destruct (createBrand_fresh nm ws data clk w Hfree)
    as (b & w' & b' & Hc & Hg & _ & _ & _ & _ & Hnm & _).
  subst w1. rewrite Hc. cbn [worldOf].
  split; [|by rewrite Hg; cbn; rewrite Hnm].
  unfold createBrand. rewrite Hsame.
  unfold getBrand in Hg. by rewrite Hg.
Qed.

Lemma createBrand_same_id_throws_witness :
  createBrand "acme-corp" "acme.org" noUpdates laterClock acmeWorld
    = Thrown ("Brand with ID " +:+ quoted "acme-corp" +:+ " already exists")
             acmeWorld.
Proof.
  exact (proj1 (createBrand_same_id_throws "Acme Corp" "acme-corp"
                  "https://acme.com/" "acme.org" noUpdates noUpdates
                  sampleClock laterClock emptyWorld
                  eq_refl eq_refl eq_refl eq_refl)).
Defined.

(** X15. [createBrand] makes the new brand the active one, for a name
    of ASCII characters (where [toLowerCase] is the folding of the
    sources).  When the derived id is not empty, [getActiveBrand]
    afterwards returns the stored brand, which carries the day of creation as its last session, while
    the record that [createBrand] returned does not carry it.  When the
    name holds no letter or digit the derived id is empty: the brand is
    stored under the empty id without a last session, and
    [getActiveBrand] returns null. *)
Theorem createBrand_sets_the_active_brand
    (nm ws : string) (data : PartialBrand) (clk : Clock) (w : World) :
  asciiText nm = true ->
  getBrand (generateId nm) w = None ->
  exists b w',
    createBrand nm ws data clk w = Returned b w' /\
    lastSession b = None /\
    (generateId nm <> "" ->
     getActiveBrand w' = getBrand (generateId nm) w' /\
     lastSession <$> getActiveBrand w' = Some (Some (today clk))) /\
    (generateId nm = "" ->
     getActiveBrand w' = None /\ getBrand "" w' = Some b).
Proof.
  intros _ Hfree.
  destruct (createBrand_fresh nm ws data clk w Hfree)
    as (b & w' & b' & Hc & Hg & _ & _ & Hls & _ & _ & _ & _ & _ & _ & Hls'
        & Hcfg & _).
  exists b, w'. split; [done|]. split; [done|].
  unfold getActiveBrand, getConfig. rewrite Hcfg. cbn. split.
  - intros Hne. destruct (strEq (generateId nm) "") eqn:He;
      [by apply strEq_true in He|]. cbn.
    split; [done|]. rewrite Hg. cbn. by rewrite Hls'.
  - intros He. rewrite He. cbn. split; [done|].
    revert Hc. unfold createBrand. unfold getBrand in Hfree.
    rewrite Hfree, He. cbn. intros [= <- <-].
    unfold getBrand. cbn. apply lookup_insert_eq.
Qed.

Lemma createBrand_sets_the_active_brand_witness :
  getActiveBrand
    (worldOf (createBrand "!!!" "example.org" noUpdates sampleClock
                          acmeWorld)) = None.
Proof.
  destruct (createBrand_sets_the_active_brand "!!!" "example.org" noUpdates
              sampleClock acmeWorld) as (b & w' & Hc & _ & _ & He);
    [reflexivity | by vm_compute |].
  rewrite Hc. exact (proj1 (He eq_refl)).
Defined.

(** X17. [deleteBrand] removes one brand file and nothing that belongs to
    the brand elsewhere.  On an existing brand it returns true; the brand
    is gone, all other brands are as before, and the handoffs, the history
    and the learnings, those of the deleted brand included, stay in the
    store.  The active-brand pointer is cleared when it pointed to the
    deleted brand and the configuration is not written otherwise.  On a
    missing brand it throws and changes nothing. *)
Theorem deleteBrand_removes_only_the_brand_file
    (bId : string) (clk : Clock) (w : World) :
  (getBrand bId w = None ->
   deleteBrand bId clk w
     = Thrown ("Brand " +:+ quoted bId +:+ " not found") w) /\
  (is_Some (getBrand bId w) ->
   exists w',
     deleteBrand bId clk w = Returned true w' /\
     getBrand bId w' = None /\
     (forall k, k <> bId -> getBrand k w' = getBrand k w) /\
     handoffFiles w' = handoffFiles w /\
     historyFiles w' = historyFiles w /\
     learningsFile w' = learningsFile w /\
     ((configFile w ≫= activeBrand) = Some bId ->
      (activeBrand <$> configFile w') = Some None /\
      getActiveBrand w' = None) /\
     ((configFile w ≫= activeBrand) <> Some bId ->
      configFile w' = configFile w)).
Proof.
  split.
  - intros Hn. unfold deleteBrand. by rewrite Hn.
  - intros [b Hb]. unfold deleteBrand. rewrite Hb. unfold getConfig.
    destruct (configFile w) as [c|] eqn:Hc; cbn.
    + case_bool_decide as Hact; cbn.
      * unfold deleteBrandFile. cbn. unfold getBrand in Hb. rewrite Hb. cbn.
        eexists. split; [reflexivity|]. unfold getBrand. cbn.
        split; [apply lookup_delete_eq|].
        split; [intros k Hk; by apply lookup_delete_ne|].
        do 3 (split; [done|]).
        split; [|congruence].
        intros _. unfold getActiveBrand. by cbn.
      * unfold deleteBrandFile. unfold getBrand in Hb. rewrite Hb. cbn.
        eexists. split; [reflexivity|]. unfold getBrand. cbn.
        split; [apply lookup_delete_eq|].
        split; [intros k Hk; by apply lookup_delete_ne|].
        do 3 (split; [done|]).
        split; [congruence|]. by rewrite Hc.
    + unfold deleteBrandFile. unfold getBrand in Hb. rewrite Hb. cbn.
      eexists. split; [reflexivity|]. unfold getBrand. cbn.
      split; [apply lookup_delete_eq|].
      split; [intros k Hk; by apply lookup_delete_ne|].
      do 3 (split; [done|]).
      split; [done|]. by rewrite Hc.
Qed.

Lemma deleteBrand_removes_only_the_brand_file_witness :
  exists w',
    deleteBrand "acme-corp" laterClock firstSessionWorld = Returned true w' /\
    getBrand "acme-corp" w' = None /\
    getHandoff "acme-corp" w' = getHandoff "acme-corp" firstSessionWorld /\
    getActiveBrand w' = None.
Proof.
  destruct (proj2 (deleteBrand_removes_only_the_brand_file "acme-corp"
                     laterClock firstSessionWorld))
    as (w' & Hd & Hg & _ & Hh & _ & _ & Hact & _);
    [by vm_compute; eexists|].
  exists w'. split; [exact Hd|]. split; [exact Hg|].
  split; [unfold getHandoff; by rewrite Hh|].
  apply Hact. by vm_compute.
Defined.

(** ** Competitors *)

Lemma distinctDomains_filter p cs :
  distinctDomains cs = true -> distinctDomains (List.filter p cs) = true.
Proof.
  induction cs as [|c r IH]; simpl; [done|].
  rewrite andb_true_iff, negb_true_iff. intros [Hc Hr].
  destruct (p c); simpl; [|auto].
  rewrite IH by done. rewrite andb_true_r, negb_true_iff.
  apply not_true_iff_false. intros Hex. apply existsb_exists in Hex
    as (x & Hx & Hsame). apply filter_In in Hx as [Hx _].
  assert (existsb (fun x => sameTextCI (domain x) (domain c)) r = true)
    by (apply existsb_exists; eauto). congruence.
Qed.

Lemma distinctDomains_snoc cs c :
  distinctDomains cs = true ->
  existsb (fun x => sameTextCI (domain x) (domain c)) cs = false ->
  distinctDomains (cs ++ [c]) = true.
Proof.
  induction cs as [|y r IH]; simpl; [done|].
  rewrite !andb_true_iff, !negb_true_iff, orb_false_iff.
  intros [Hy Hr] [Hcy Hcr]. split; [|auto].
  rewrite existsb_app, Hy. simpl. rewrite orb_false_r.
  by rewrite sameTextCI_sym.
Qed.

Lemma applyEdit_keeps_domains bId e w b :
  getBrand bId w = Some b ->
  distinctDomains (competitors b) = true ->
  exists b', getBrand bId (applyEdit bId e w) = Some b' /\
    distinctDomains (competitors b') = true /\
    id b' = id b /\ created b' = created b /\ name b' = name b.
Proof.
  intros Hb Hd. destruct e as [dom nm angle clk|dom clk]; simpl.
  - unfold addCompetitor. rewrite Hb.
    destruct (existsb _ (competitors b)) eqn:Hex; [by exists b|].
    unfold updateBrand. rewrite Hb. cbn.
    eexists. split; [unfold getBrand; cbn; apply lookup_insert_eq|]. cbn.
    split; [|done]. by apply distinctDomains_snoc.
  - unfold removeCompetitor, updateBrand. rewrite Hb. cbn.
    eexists. split; [unfold getBrand; cbn; apply lookup_insert_eq|]. cbn.
    split; [|done]. by apply distinctDomains_filter.
Qed.

(** X16. The competitor list stays free of duplicates.  When the
    competitors of a stored brand have pairwise different domains (letter
    case ignored), they still have after any sequence of [addCompetitor]
    and [removeCompetitor] calls for that brand; the brand's id, creation
    date and name stay as they are.  In particular [addCompetitor] with a
    domain that is listed in another letter case throws and changes
    nothing. *)
Theorem competitor_domains_stay_distinct
    (bId : string) (w : World) (b : Brand) (edits : list CompetitorEdit) :
  getBrand bId w = Some b ->
  distinctDomains (competitors b) = true ->
  (exists b',
     getBrand bId (fold_left (fun w e => applyEdit bId e w) edits w)
       = Some b' /\
     distinctDomains (competitors b') = true /\
     id b' = id b /\ created b' = created b /\ name b' = name b) /\
  (forall dom nm angle clk,
     existsb (fun c => sameTextCI (domain c) dom) (competitors b) = true ->
     addCompetitor bId dom nm angle clk w
       = Thrown ("Competitor " +:+ quoted dom +:+ " already exists") w).
Proof.
  intros Hb Hd. split.
  - revert w b Hb Hd. induction edits as [|e edits IH]; intros w b Hb Hd;
      simpl; [by exists b|].
    destruct (applyEdit_keeps_domains bId e w b Hb Hd)
      as (b1 & Hb1 & Hd1 & Hi1 & Hc1 & Hn1).
    destruct (IH _ b1 Hb1 Hd1) as (b' & Hb' & Hd' & Hi' & Hc' & Hn').
    exists b'. repeat split; congruence.
  - intros dom nm angle clk Hex. unfold addCompetitor. by rewrite Hb, Hex.
Qed.

Lemma competitor_domains_stay_distinct_witness :
  exists b',
    getBrand "acme-corp"
      (fold_left (fun w e => applyEdit "acme-corp" e w)
         [AddCompetitor "Globex.com" None None laterClock;
          AddCompetitor "globex.COM" (Some "Globex") None laterClock;
          AddCompetitor "initech.com" None None laterClock]
         acmeWorld) = Some b' /\
    domain <$> competitors b' = ["Globex.com"; "initech.com"].
Proof.
  destruct (getBrand "acme-corp" acmeWorld) as [b|] eqn:Hb;
    [|by vm_compute in Hb].
  destruct (proj1 (competitor_domains_stay_distinct "acme-corp" acmeWorld b
              [AddCompetitor "Globex.com" None None laterClock;
               AddCompetitor "globex.COM" (Some "Globex") None laterClock;
               AddCompetitor "initech.com" None None laterClock] Hb
              ltac:(vm_compute in Hb; by injection Hb as <-)))
    as (b' & Hb' & _).
  exists b'. split; [exact Hb'|].
  vm_compute in Hb'. by injection Hb' as <-.
Defined.

(** ** Listing and searching *)

Lemma includes_empty s : includes s "" = true.
Proof. by destruct s. Qed.

Lemma filter_all {A} (p : A -> bool) (l : list A) :
  (forall x, p x = true) -> List.filter p l = l.
Proof.
  intros H. induction l as [|y r IH]; simpl; [done|]. by rewrite H, IH.
Qed.

(** X18. [listBrands] lists every stored brand of the directory listing,
    most recently active first.  Its result is a rearrangement of the
    brands read for the listed ids.  When the last activity of every
    listed brand (last session, or last update for a brand without one)
    is a date YYYY-MM-DD, as [getDateString] writes it and on which the
    collation of [localeCompare] is the order of the code units, the
    last activity never increases along the list. *)
Theorem listBrands_most_recent_first (ids : list string) (w : World) :
  Permutation (listBrands ids w) (omap (fun i => getBrand i w) ids) /\
  (forallb (fun b => isoDate (lastActivity b))
           (omap (fun i => getBrand i w) ids) = true ->
   StronglySorted
     (fun a b => String.leb (lastActivity b) (lastActivity a) = true)
     (listBrands ids w)) /\
  (forall b, In b (listBrands ids w) <->
             exists i, In i ids /\ getBrand i w = Some b).
Proof.
  unfold listBrands. split; [apply jsSort_perm|]. split.
  - intros _. apply jsSort_sorted.
    + intros a b H. apply Z.gtb_gt in H. unfold localeCompare in H.
      unfold String.leb. rewrite String.compare_antisym.
      by destruct (String.compare (lastActivity b) (lastActivity a)).
    + intros a b H. rewrite Z.gtb_ltb, Z.ltb_ge in H.
      unfold localeCompare in H. unfold String.leb.
      by destruct (String.compare (lastActivity b) (lastActivity a)).
    + intros a b c Hab Hbc. by eapply string_leb_trans.
  - intros b. rewrite <- !list_elem_of_In.
    rewrite (jsSort_perm _ (omap (fun i => getBrand i w) ids)).
    rewrite list_elem_of_omap. split.
    + intros (i & Hi & Hb). exists i. by rewrite <- list_elem_of_In.
    + intros (i & Hi & Hb). exists i. by rewrite list_elem_of_In.
Qed.

Lemma listBrands_most_recent_first_witness :
  StronglySorted
    (fun a b => String.leb (lastActivity b) (lastActivity a) = true)
    (listBrands ["acme-corp"; "beta-labs"] registryWorld).
Proof.
  exact (proj1 (proj2 (listBrands_most_recent_first
                         ["acme-corp"; "beta-labs"] registryWorld))
               eq_refl).
Defined.

(** X19. Searching.  Every brand that [searchBrands] returns is listed by
    [listBrands]; when the query and the name, website and industry of
    the stored brands are ASCII texts (where [toLowerCase] is the folding
    of the sources), it holds the query, letter case ignored, in its
    name, website or industry.  The empty query returns the whole
    listing, and [findBrandByDomain] with a domain that is empty once
    protocol, "www." and trailing slash are stripped returns the first
    brand of the listing rather than null. *)
Theorem search_and_empty_queries
    (query dom : string) (ids : list string) (w : World) :
  (forall b, In b (searchBrands query ids w) -> In b (listBrands ids w)) /\
  (asciiText query = true ->
   forallb asciiBrand (omap (fun i => getBrand i w) ids) = true ->
   forall b, In b (searchBrands query ids w) ->
     includes (toLowerCase (name b)) (toLowerCase query) = true \/
     includes (toLowerCase (website b)) (toLowerCase query) = true \/
     includes (toLowerCase (industry (business b))) (toLowerCase query)
       = true) /\
  searchBrands "" ids w = listBrands ids w /\
  (toLowerCase (stripTrailingChar "/" (stripWww (stripProtocol dom))) = "" ->
   findBrandByDomain dom ids w = head (listBrands ids w)).
Proof.
  split; [|split; [|split]].
  - intros b Hb. unfold searchBrands in Hb. by apply filter_In in Hb as [Hb _].
  - intros _ _ b Hb. unfold searchBrands in Hb.
    apply filter_In in Hb as [_ Hm]. rewrite !orb_true_iff in Hm. tauto.
  - unfold searchBrands. apply filter_all. intros b.
    change (toLowerCase "") with "". by rewrite includes_empty.
  - intros Hclean. unfold findBrandByDomain. rewrite Hclean.
    destruct (listBrands ids w) as [|b r]; [done|]. simpl.
    by rewrite includes_empty, orb_true_r.
Qed.

Lemma search_and_empty_queries_witness :
  findBrandByDomain "https://www." ["acme-corp"; "beta-labs"] registryWorld
    = head (listBrands ["acme-corp"; "beta-labs"] registryWorld) /\
  forall b,
    In b (searchBrands "ACME" ["acme-corp"; "beta-labs"] registryWorld) ->
    includes (toLowerCase (name b)) "acme" = true \/
    includes (toLowerCase (website b)) "acme" = true \/
    includes (toLowerCase (industry (business b))) "acme" = true.
Proof.
  destruct (search_and_empty_queries "ACME" "https://www."
              ["acme-corp"; "beta-labs"] registryWorld)
    as (_ & Hq & _ & Hd).
  split; [exact (Hd eq_refl) | exact (Hq eq_refl eq_refl)].
Defined.

(* ================================================================== *)
(** * Further properties of the archival memory *)
(* ================================================================== *)

(** X20. [storeLearning] appends, and only the brand concerned sees it.
    The stored list is the old list followed by the new learning, which
    carries the fresh id, the date of the day and the given confidence, or
    "medium" when none is given.  What [getBrandLearnings] returns for a
    brand grows by that learning when it was stored for this brand or as
    "global", and does not change otherwise. *)
Theorem storeLearning_appends
    (b : string) (ty : LearningType) (cat cont : string)
    (ctx : option string) (conf : option Confidence)
    (ms : option (list (string * string))) (freshId : string) (clk : Clock)
    (w : World) :
  let l := (storeLearning b ty cat cont ctx conf ms freshId clk w).1 in
  let w' := (storeLearning b ty cat cont ctx conf ms freshId clk w).2 in
  getAllLearnings w' = getAllLearnings w ++ [l] /\
  learningId l = freshId /\ brand l = b /\
  learningDate l = today clk /\
  confidence l = default medium conf /\
  forall b',
    getBrandLearnings b' w' =
      getBrandLearnings b' w ++
      (if strEq b b' || strEq b "global" then [l] else []).
Proof.
  intros l w'. subst l w'. unfold storeLearning. cbn [fst snd].
  unfold getAllLearnings, getBrandLearnings.
  rewrite loadLearnings_saveLearnings.
  repeat (split; [done|]).
  intros b'. rewrite List.filter_app. cbn. done.
Qed.

Lemma pushAll_Forall (Q : Learning -> Prop) ls st :
  Forall Q ls -> Forall Q st.1 -> Forall Q (fold_left pushUnseen ls st).1.
Proof.
  intros Hls. revert st. induction Hls as [|x r Hx Hr IH]; intros st Hst;
    [done|].
  simpl. apply IH. unfold pushUnseen. case_bool_decide; [done|].
  simpl. apply Forall_app. split; [done|]. by constructor.
Qed.

Lemma Forall_filter_in {A} (p : A -> bool) (l : list A) :
  Forall (fun x => In x l) (List.filter p l).
Proof.
  apply Forall_forall. intros x Hx. apply list_elem_of_In in Hx.
  by apply filter_In in Hx as [Hx _].
Qed.

Lemma matchKeywords_Forall {K} bl (f : K -> string) (ks : list K) st :
  Forall (fun x => In x bl) st.1 ->
  Forall (fun x => In x bl)
         (fold_left (fun st k => matchKeyword bl st (f k)) ks st).1.
Proof.
  revert st. induction ks as [|k ks IH]; intros st Hst; [done|].
  simpl. apply IH. unfold matchKeyword.
  apply pushAll_Forall; [apply Forall_filter_in | done].
Qed.

(** X21. [getRelevantLearnings] stays within the brand.  Every learning
    it returns is one that [getBrandLearnings] returns for the brand: its
    brand is the given one or "global".  Without criteria the result is
    the last five of them in stored order (all of them when there are
    fewer).  With a category as the only criterion, the category and the
    categories of the brand's learnings being ASCII texts (where
    [toLowerCase] is the folding of the sources), every returned learning
    has the category text, letter case ignored, in its category. *)
Theorem getRelevantLearnings_within_the_brand
    (bId : string) (ctx : LearningContext) (w : World) (r : list Learning) :
  getRelevantLearnings bId ctx w = Some r ->
  (forall l, In l r ->
     In l (getBrandLearnings bId w) /\
     (brand l = bId \/ brand l = "global")) /\
  (noCriteria ctx = true ->
   r = drop (length (getBrandLearnings bId w) - 5) (getBrandLearnings bId w)
   /\ (length r <= 5)%nat) /\
  (forall c, ctxCategory ctx = Some c -> c <> "" ->
     activity ctx = None -> keywords ctx = None ->
     asciiText c = true ->
     forallb (fun l => asciiText (category l)) (getBrandLearnings bId w)
       = true ->
     forall l, In l r ->
       includes (toLowerCase (category l)) (toLowerCase c) = true).
Proof.
  intros Hr.
  assert (forall l, In l (getBrandLearnings bId w) ->
            brand l = bId \/ brand l = "global") as Hscope.
  { intros l Hl. unfold getBrandLearnings in Hl.
    apply filter_In in Hl as [_ Hl]. apply orb_true_iff in Hl as [Hl|Hl];
      apply strEq_true in Hl; auto. }
  assert (forall l, In l r -> In l (getBrandLearnings bId w)) as Hin.
  { revert Hr. unfold getRelevantLearnings.
    set (bl := getBrandLearnings bId w).
    destruct (noCriteria ctx).
    - intros [= <-] l Hl. apply list_elem_of_In in Hl.
      apply list_elem_of_In. by eapply subseteq_drop.
    - set (st1 := match ctxCategory ctx with
                  | Some c => if truthy (Some c) then _ else _
                  | None => _
                  end).
      set (st2 := match keywords ctx with Some ks => _ | None => _ end).
      assert (Forall (fun x => In x bl) st1.1) as H1.
      { subst st1. destruct (ctxCategory ctx) as [c|]; [|by constructor].
        destruct (truthy (Some c)); [|by constructor].
        apply pushAll_Forall; [apply Forall_filter_in | by constructor]. }
      assert (Forall (fun x => In x bl) st2.1) as H2.
      { subst st2. destruct (keywords ctx) as [ks|]; [|done].
        by apply (matchKeywords_Forall bl toLowerCase). }
      intros Hr l Hl.
      assert (exists st3 : list Learning * gset string,
                Forall (fun x => In x bl) st3.1 /\
                r = jsSort compareLearnings st3.1)
        as (st3 & H3 & Heq).
      { destruct (activity ctx) as [a|].
        - destruct (truthy (Some a)).
          + destruct (inheritedKey a); [done|].
            simpl in Hr. injection Hr as <-. eexists. split; [|done].
            by apply (matchKeywords_Forall bl (fun k => k)).
          + simpl in Hr. injection Hr as <-. eauto.
        - simpl in Hr. injection Hr as <-. eauto. }
      rewrite Heq in Hl.
      apply list_elem_of_In in Hl. rewrite jsSort_perm in Hl.
      by apply (proj1 (Forall_forall _ _) H3). }
  split; [intros l Hl; split; [auto | apply Hscope; auto]|].
  split.
  - intros Hno. revert Hr. unfold getRelevantLearnings. rewrite Hno.
    intros [= <-]. split; [done|]. rewrite length_drop. lia.
  - intros c Hc Hne Hact Hkw _ _ l Hl.
    revert Hr. unfold getRelevantLearnings.
    assert (noCriteria ctx = false) as ->.
    { unfold noCriteria. rewrite Hc. cbn.
      destruct (strEq c "") eqn:He; [by apply strEq_true in He|].
      cbn. by rewrite andb_false_r. }
    rewrite Hc, Hact, Hkw. cbn [truthy].
    destruct (strEq c "") eqn:He; [by apply strEq_true in He|]. cbn.
    intros [= <-].
    apply list_elem_of_In in Hl. rewrite jsSort_perm in Hl.
    assert (Forall (fun x => includes (toLowerCase (category x))
                               (toLowerCase c) = true)
              (fold_left pushUnseen
                 (List.filter
                    (fun l => includes (toLowerCase (category l))
                                (toLowerCase c))
                    (getBrandLearnings bId w)) ([], ∅)).1) as Hall.
    { apply pushAll_Forall; [|by constructor].
      apply Forall_forall. intros x Hx. apply list_elem_of_In in Hx.
      by apply filter_In in Hx as [_ Hx]. }
    by apply (proj1 (Forall_forall _ _) Hall).
Qed.

Lemma getRelevantLearnings_within_the_brand_witness :
  exists r,
    getRelevantLearnings "acme"
      {| activity := None; ctxCategory := Some "seo"; keywords := None |}
      libraryWorld = Some r /\
    learningId <$> r = ["learn-3"; "learn-1"; "learn-4"] /\
    forall l, In l r ->
      (brand l = "acme" \/ brand l = "global") /\
      includes (toLowerCase (category l)) "seo" = true.
Proof.
  destruct (getRelevantLearnings "acme"
              {| activity := None; ctxCategory := Some "seo";
                 keywords := None |} libraryWorld) as [r|] eqn:Hq;
    [|by vm_compute in Hq].
  exists r. split; [reflexivity|]. split.
  - vm_compute in Hq. by injection Hq as <-.
  - intros l Hl.
    destruct (getRelevantLearnings_within_the_brand "acme" _
                libraryWorld r Hq) as (Hin & _ & Hcat).
    split; [exact (proj2 (Hin l Hl))|].
    refine (Hcat "seo" eq_refl _ eq_refl eq_refl eq_refl eq_refl l Hl).
    discriminate.
Defined.

Lemma filter_delete_rejected {A} (p : A -> bool) (l : list A) i x :
  l !! i = Some x -> p x = false ->
  List.filter p (delete i l) = List.filter p l.
Proof.
  revert i. induction l as [|y r IH]; intros [|i]; try done.
  - cbn. intros [= ->] Hp. by rewrite Hp.
  - intros Hi Hp.
    change (List.filter p (y :: delete i r) = List.filter p (y :: r)).
    simpl. by rewrite (IH i Hi Hp).
Qed.

Lemma In_delete_index {A} (x : A) i (l : list A) :
  In x (delete i l) -> exists k, k <> i /\ l !! k = Some x.
Proof.
  revert i. induction l as [|y r IH]; intros [|i]; cbn; try done.
  - intros Hx. apply list_elem_of_In, list_elem_of_lookup_1 in Hx as [k Hk].
    exists (S k). by split.
  - intros [->|Hx].
    + exists 0%nat. by split.
    + destruct (IH i Hx) as (k & Hk & Hl). exists (S k). split; [lia|done].
Qed.

(** X22. [deleteLearning] removes one learning.  When no stored learning
    carries the id it returns false and writes nothing.  Otherwise it
    returns true and the stored list gets one shorter: an entry with that
    id is gone, the learnings with other ids stay as they are and in
    order, and, when the stored ids are pairwise different, no learning
    with the id is left. *)
Theorem deleteLearning_removes_one (lId : string) (w : World) :
  ((forall l, In l (loadLearnings w) -> learningId l <> lId) ->
   deleteLearning lId w = (false, w)) /\
  ((exists l, In l (loadLearnings w) /\ learningId l = lId) ->
   let w' := (deleteLearning lId w).2 in
   (deleteLearning lId w).1 = true /\
   (length (loadLearnings w') + 1 = length (loadLearnings w))%nat /\
   List.filter (fun l => negb (strEq (learningId l) lId)) (loadLearnings w')
     = List.filter (fun l => negb (strEq (learningId l) lId))
                   (loadLearnings w) /\
   (NoDup (learningId <$> loadLearnings w) ->
    forall l, In l (loadLearnings w') -> learningId l <> lId)).
Proof.
  unfold deleteLearning. split.
  - intros Hnone.
    destruct (findIndex _ (loadLearnings w)) as [i|] eqn:Hf; [|done].
    destruct (findIndex_Some _ _ _ Hf) as (l & Hl & Hp).
    apply strEq_true in Hp. exfalso. apply (Hnone l); [|done].
    apply list_elem_of_In. by eapply list_elem_of_lookup_2.
  - intros (l0 & Hin & Hid).
    destruct (findIndex_first (fun l => strEq (learningId l) lId)
                (loadLearnings w) l0 Hin) as [i Hf]; [by apply strEq_true|].
    rewrite Hf. cbn [fst snd]. rewrite loadLearnings_saveLearnings.
    destruct (findIndex_Some _ _ _ Hf) as (l & Hl & Hp).
    split; [done|]. split; [by eapply length_delete_lookup|]. split.
    + apply (filter_delete_rejected _ _ i l Hl). by rewrite Hp.
    + intros Hnd x Hx Hxid. apply strEq_true in Hp.
      destruct (In_delete_index x i _ Hx) as (k & Hk & Hlk).
      apply Hk. apply (NoDup_lookup _ k i lId Hnd).
      * by rewrite list_lookup_fmap, Hlk; cbn; rewrite Hxid.
      * by rewrite list_lookup_fmap, Hl; cbn; rewrite Hp.
Qed.

Lemma deleteLearning_removes_one_witness :
  learningId <$> loadLearnings (deleteLearning "learn-2" libraryWorld).2
    = ["learn-0"; "learn-1"; "learn-3"; "learn-4"] /\
  deleteLearning "learn-9" libraryWorld = (false, libraryWorld).
Proof.
  split; [by vm_compute|].
  apply (proj1 (deleteLearning_removes_one "learn-9" libraryWorld)).
  intros l Hl Hid. vm_compute in Hl.
  repeat (destruct Hl as [<-|Hl]; [discriminate Hid|]). exact Hl.
Defined.

(** X23. [updateLearningConfidence] changes the confidence of one
    learning and nothing else.  When no stored learning carries the id it
    returns null and writes nothing.  Otherwise it returns the first
    learning with that id with the new confidence; the stored list keeps
    its length and order, every other entry is unchanged, and the changed
    entry keeps its id, brand, date, type, category, content, context and
    metrics. *)
Theorem updateLearningConfidence_changes_confidence_only
    (lId : string) (c : Confidence) (w : World) :
  ((forall l, In l (loadLearnings w) -> learningId l <> lId) ->
   updateLearningConfidence lId c w = (None, w)) /\
  ((exists l, In l (loadLearnings w) /\ learningId l = lId) ->
   let w' := (updateLearningConfidence lId c w).2 in
   exists i l0,
     loadLearnings w !! i = Some l0 /\ learningId l0 = lId /\
     (updateLearningConfidence lId c w).1 = Some (set_confidence c l0) /\
     loadLearnings w' !! i = Some (set_confidence c l0) /\
     (forall j, j <> i -> loadLearnings w' !! j = loadLearnings w !! j) /\
     length (loadLearnings w') = length (loadLearnings w) /\
     set_confidence high <$> loadLearnings w'
       = set_confidence high <$> loadLearnings w).
Proof.
  unfold updateLearningConfidence. split.
  - intros Hnone.
    destruct (findIndex _ (loadLearnings w)) as [i|] eqn:Hf; [|done].
    destruct (findIndex_Some _ _ _ Hf) as (l & Hl & Hp).
    apply strEq_true in Hp. exfalso. apply (Hnone l); [|done].
    apply list_elem_of_In. by eapply list_elem_of_lookup_2.
  - intros (l1 & Hin & Hid).
    destruct (findIndex_first (fun l => strEq (learningId l) lId)
                (loadLearnings w) l1 Hin) as [i Hf]; [by apply strEq_true|].
    rewrite Hf. destruct (findIndex_Some _ _ _ Hf) as (l0 & Hl & Hp).
    rewrite Hl. cbn [fst snd]. rewrite loadLearnings_saveLearnings.
    apply strEq_true in Hp.
    exists i, l0. split; [done|]. split; [done|]. split; [done|].
    split; [apply list_lookup_insert_eq; by eapply lookup_lt_Some|].
    split; [intros j Hj; by apply list_lookup_insert_ne|].
    split; [apply length_insert|].
    apply list_eq. intros j. rewrite !list_lookup_fmap.
    destruct (decide (i = j)) as [<-|Hne].
    + rewrite list_lookup_insert_eq by (by eapply lookup_lt_Some).
      by rewrite Hl.
    + by rewrite list_lookup_insert_ne.
Qed.

Lemma updateLearningConfidence_changes_confidence_only_witness :
  (fun l => (learningId l, confidence l))
    <$> loadLearnings (updateLearningConfidence "learn-1" low libraryWorld).2
  = [("learn-0", high); ("learn-1", low); ("learn-2", high);
     ("learn-3", high); ("learn-4", low)].
Proof.
  destruct (proj2 (updateLearningConfidence_changes_confidence_only
                     "learn-1" low libraryWorld))
    as (i & l0 & _).
  { eexists. split; [right; left; reflexivity | reflexivity]. }
  by vm_compute.
Defined.

(** X24. [getRecentLearnings] returns the latest learnings, latest
    first.  Its result is the beginning of an arrangement of all stored
    learnings in which dates never increase; with a limit of n >= 0 it has
    n entries, or all when fewer are stored, and 10 is the limit when none
    is given.  A negative limit does not return nothing: it cuts that many
    entries off the end of the arrangement. *)
Theorem getRecentLearnings_latest_first (limit : option Z) (w : World) :
  let n := default 10 limit in
  let all := loadLearnings w in
  exists rest,
    Permutation (getRecentLearnings limit w ++ rest) all /\
    StronglySorted
      (fun a b => String.leb (learningDate b) (learningDate a) = true)
      (getRecentLearnings limit w ++ rest) /\
    (0 <= n ->
     length (getRecentLearnings limit w) = Nat.min (Z.to_nat n) (length all)) /\
    (n < 0 ->
     length (getRecentLearnings limit w)
       = (length all - Z.to_nat (- n))%nat).
Proof.
  intros n all. unfold getRecentLearnings. fold n. fold all.
  set (sorted := jsSort _ all).
  assert (Permutation sorted all) as Hperm by apply jsSort_perm.
  assert (StronglySorted
            (fun a b => String.leb (learningDate b) (learningDate a) = true)
            sorted) as Hsorted.
  { apply jsSort_sorted.
    - intros a b H. apply Z.gtb_gt in H. unfold localeCompare in H.
      unfold String.leb. rewrite String.compare_antisym.
      by destruct (String.compare (learningDate b) (learningDate a)).
    - intros a b H. rewrite Z.gtb_ltb, Z.ltb_ge in H.
      unfold localeCompare in H. unfold String.leb.
      by destruct (String.compare (learningDate b) (learningDate a)).
    - intros a b c Hab Hbc. by eapply string_leb_trans. }
  assert (length sorted = length all) as Hlen
    by (by apply Permutation_length).
  unfold sliceTo. destruct (n <? 0) eqn:Hn.
  - apply Z.ltb_lt in Hn.
    exists (drop (Z.to_nat (Z.of_nat (length sorted) + n)) sorted).
    rewrite take_drop. split; [done|]. split; [done|].
    split; [lia|]. intros _. rewrite length_take, Hlen. lia.
  - apply Z.ltb_ge in Hn.
    exists (drop (Z.to_nat n) sorted).
    rewrite take_drop. split; [done|]. split; [done|].
    split; [|lia]. intros _. by rewrite length_take, Hlen.
Qed.

(* ================================================================== *)
(** * Further properties of sessions and their history *)
(* ================================================================== *)

(** X25. [beginSession] opens a fresh session or changes nothing.  For
    an unknown brand it reports failure and leaves the world as it was.
    For a stored brand it reports success; the session is active for that
    brand, the brand is the active brand, the ledger in memory and on disk
    is a new one with the brand's name, the given goal and empty lists
    (whatever ledger there was before), a history session is open, and the
    brand's handoff, which the result passes on for display, is still in
    the store. *)
Theorem beginSession_opens_a_fresh_session
    (bId : string) (g : option string) (clk : Clock) (w : World) :
  (getBrand bId w = None ->
   exists r, beginSession bId g clk w = Returned r w /\
             beginSuccess r = false) /\
  (forall b, getBrand bId w = Some b ->
   exists r w1,
     beginSession bId g clk w = Returned r w1 /\
     beginSuccess r = true /\
     resumeContext r = getHandoff bId w /\
     getHandoff bId w1 = getHandoff bId w /\
     ledgerOf w1 =
       Some {| brandId := bId; brandName := name b; started := isoNow clk;
               goal := g; completed := []; inProgress := [];
               blockers := []; ledgerNotes := [] |} /\
     continuityFile w1 = ledgerOf w1 /\
     hasActiveSession w1 = true /\
     getSessionBrand w1 = Some b /\
     (configFile w1 ≫= activeBrand) = Some bId /\
     (sessionBrandId <$> getCurrentSession w1) = Some bId).
Proof.
  split.
  - intros Hn. unfold beginSession. rewrite Hn. by eexists.
  - intros b Hb.
    destruct (beginSession_known_brand bId g clk w b Hb)
      as (r & w1 & b' & Hbeg & Hs & Hres & Hc & Hf & Hcfg & _ & _ & _ & _ & _
          & Hhf & _ & _ & Hcs & Hact & Hbr & _).
    exists r, w1. split; [done|]. split; [done|]. split; [done|].
    split; [unfold getHandoff; by rewrite Hhf|].
    rewrite (ledgerOf_current w1 _ Hc).
    split; [done|]. split; [by rewrite Hf|].
    split; [done|]. split; [done|].
    split; [by rewrite Hcfg|].
    unfold getCurrentSession. by rewrite Hcs.
Qed.

Lemma beginSession_opens_a_fresh_session_witness :
  (fun l => (brandName l, inProgress l))
    <$> ledgerOf (worldOf (beginSession "acme-corp" None sampleClock
                             (addInProgressTask "Old task" "t0"
                                (worldOf (beginSession "acme-corp" None
                                            sampleClock acmeWorld)))))
  = Some ("Acme Corp", []).
Proof.
  set (w := addInProgressTask "Old task" "t0"
              (worldOf (beginSession "acme-corp" None sampleClock acmeWorld))).
  destruct (getBrand "acme-corp" w) as [b|] eqn:Hb; [|by vm_compute in Hb].
  destruct (proj2 (beginSession_opens_a_fresh_session "acme-corp" None
                     sampleClock w) b Hb)
    as (r & w1 & Hbeg & _ & _ & _ & Hl & _).
  rewrite Hbeg. cbn [worldOf]. rewrite Hl. cbn.
  vm_compute in Hb. by injection Hb as <-.
Defined.

Lemma getSessionSummary_frame clk w :
  let w1 := (getSessionSummary clk w).2 in
  brandFiles w1 = brandFiles w /\ handoffFiles w1 = handoffFiles w /\
  learningsFile w1 = learningsFile w /\ historyFiles w1 = historyFiles w /\
  configFile w1 = configFile w /\ currentSession w1 = currentSession w /\
  sessionState w1 = sessionState w /\ ledgerOf w1 = ledgerOf w.
Proof.
  unfold getSessionSummary, ledgerOf, getLedger, loadLedger.
  destruct (currentLedger w) eqn:Hc; cbn; [by rewrite Hc|].
  destruct (continuityFile w) eqn:Hf; cbn; [done|]. by rewrite Hc, Hf.
Qed.

Lemma createHandoff_frame steps prompt clk w :
  let w1 := (createHandoff steps prompt clk w).2 in
  brandFiles w1 = brandFiles w /\
  learningsFile w1 = learningsFile w /\ historyFiles w1 = historyFiles w /\
  configFile w1 = configFile w /\ currentSession w1 = currentSession w /\
  sessionState w1 = sessionState w.
Proof.
  destruct (ledgerOf w) as [l|] eqn:Hl.
  - destruct (createHandoff_writes steps prompt clk l) as [h Hh].
    by rewrite (Hh w Hl).
  - unfold createHandoff.
    assert (getLedger w = (None, w)) as ->; [|done].
    revert Hl. unfold ledgerOf, getLedger, loadLedger.
    destruct (currentLedger w); [done|]. by destruct (continuityFile w).
Qed.

Lemma endSession_frame dur clk w :
  let w1 := (endSession dur clk w).2 in
  brandFiles w1 = brandFiles w /\ handoffFiles w1 = handoffFiles w /\
  learningsFile w1 = learningsFile w /\ configFile w1 = configFile w /\
  sessionState w1 = sessionState w /\ currentSession w1 = None /\
  currentLedger w1 = currentLedger w /\ continuityFile w1 = continuityFile w.
Proof.
  unfold endSession. destruct (currentSession w) eqn:Hs; cbn; [done|].
  by rewrite Hs.
Qed.

Lemma clearLedger_frame w :
  let w1 := clearLedger w in
  brandFiles w1 = brandFiles w /\ handoffFiles w1 = handoffFiles w /\
  learningsFile w1 = learningsFile w /\ historyFiles w1 = historyFiles w /\
  configFile w1 = configFile w /\ sessionState w1 = sessionState w /\
  currentSession w1 = currentSession w /\
  currentLedger w1 = None /\ continuityFile w1 = None.
Proof.
  unfold clearLedger, deleteContinuity. cbn.
  destruct (continuityFile w) eqn:Hf; cbn; [done|]. by rewrite Hf.
Qed.

Lemma clearHandoff_frame bId w :
  let w1 := (clearHandoff bId w).2 in
  brandFiles w1 = brandFiles w /\
  learningsFile w1 = learningsFile w /\ historyFiles w1 = historyFiles w /\
  configFile w1 = configFile w /\ sessionState w1 = sessionState w /\
  currentSession w1 = currentSession w /\
  currentLedger w1 = currentLedger w /\ continuityFile w1 = continuityFile w.
Proof.
  unfold clearHandoff, deleteHandoffFile. cbn.
  by destruct (handoffFiles w !! bId).
Qed.

(** X26. [finishSession] ends the session or changes nothing.  Without
    an active session it reports "No active session" and leaves the world
    as it was.  With one it reports success and leaves no session behind:
    the session state is idle, the ledger is gone from memory and from
    disk, no history session is open, brands, learnings and configuration
    are untouched, and a second [finishSession] finds no active session. *)
Theorem finishSession_leaves_no_session
    (opts : option FinishOptions) (clk : Clock) (w : World) :
  (isActive (sessionState w) = false \/ ss_brand (sessionState w) = None ->
   finishSession opts clk w
     = ({| finishSuccess := false; finishMessage := "No active session";
           finishSummary := None |}, w)) /\
  (isActive (sessionState w) = true -> is_Some (ss_brand (sessionState w)) ->
   let w' := (finishSession opts clk w).2 in
   finishSuccess (finishSession opts clk w).1 = true /\
   sessionState w' = idleState /\
   absent w' /\ ledgerOf w' = None /\
   currentSession w' = None /\
   brandFiles w' = brandFiles w /\ learningsFile w' = learningsFile w /\
   configFile w' = configFile w /\
   forall opts' clk',
     finishSuccess (finishSession opts' clk' w').1 = false /\
     (finishSession opts' clk' w').2 = w').
Proof.
  split.
  - intros [Hi|Hn]; unfold finishSession.
    + by rewrite Hi.
    + rewrite Hn. by destruct (isActive (sessionState w)).
  - intros Hact [b Hb] w'.
    assert (forall opts' clk' w0, sessionState w0 = idleState ->
              finishSuccess (finishSession opts' clk' w0).1 = false /\
              (finishSession opts' clk' w0).2 = w0) as Hidle.
    { intros opts' clk' w0 Hs. unfold finishSession. by rewrite Hs. }
    subst w'. unfold finishSession. rewrite Hact, Hb.
    pose proof (getSessionSummary_frame clk w) as Hsum.
    destruct (getSessionSummary clk w) as [summary w1]. cbn in Hsum.
    destruct Hsum as (Hb1 & _ & Hl1 & _ & Hc1 & _ & Hss1 & _).
    set (w2 := match opts ≫= opt_createHandoff with
               | Some false => w1
               | _ => (createHandoff (opts ≫= opt_nextSteps) None clk w1).2
               end).
    assert (brandFiles w2 = brandFiles w1 /\
            learningsFile w2 = learningsFile w1 /\
            configFile w2 = configFile w1 /\
            sessionState w2 = sessionState w1) as (Hb2 & Hl2 & Hc2 & Hss2).
    { subst w2.
      pose proof (createHandoff_frame (opts ≫= opt_nextSteps) None clk w1)
        as (? & ? & _ & ? & _ & ?).
      by destruct (opts ≫= opt_createHandoff) as [[|]|]. }
    pose proof (endSession_frame
                  ((fun t0 => formatDuration (nowMs clk - t0))
                     <$> startTime (sessionState w)) clk w2)
      as (Hb3 & _ & Hl3 & Hc3 & Hss3 & Hcs3 & _).
    set (w3 := (endSession _ clk w2).2) in *.
    pose proof (clearLedger_frame w3)
      as (Hb4 & _ & Hl4 & _ & Hc4 & Hss4 & Hcs4 & Hcl4 & Hcf4).
    set (w4 := clearLedger w3) in *.
    pose proof (clearHandoff_frame (id b) w4)
      as (Hb5 & Hl5 & _ & Hc5 & _ & Hcs5 & Hcl5 & Hcf5).
    set (w5 := match ss_handoff (sessionState w4) with
               | Some _ => (clearHandoff (id b) w4).2
               | None => w4
               end).
    assert (brandFiles w5 = brandFiles w4 /\
            learningsFile w5 = learningsFile w4 /\
            configFile w5 = configFile w4 /\
            currentSession w5 = currentSession w4 /\
            currentLedger w5 = currentLedger w4 /\
            continuityFile w5 = continuityFile w4)
      as (Hb6 & Hl6 & Hc6 & Hcs6 & Hcl6 & Hcf6).
    { subst w5. by destruct (ss_handoff (sessionState w4)). }
    cbn [fst snd finishSuccess].
    assert (absent (set_sessionState idleState w5)) as Habs.
    { split; cbn; congruence. }
    split; [done|]. split; [done|]. split; [done|].
    split; [unfold ledgerOf; by rewrite (getLedger_absent _ Habs)|].
    split; [cbn; congruence|].
    split; [cbn; congruence|]. split; [cbn; congruence|].
    split; [cbn; congruence|].
    intros opts' clk'. by apply Hidle.
Qed.

Lemma finishSession_leaves_no_session_witness :
  absent (finishSession None laterClock secondSessionWorld).2 /\
  sessionState (finishSession None laterClock secondSessionWorld).2
    = idleState.
Proof.
  destruct (proj2 (finishSession_leaves_no_session None laterClock
                     secondSessionWorld))
    as (_ & Hs & Ha & _); [by vm_compute | by vm_compute; eexists |].
  split; [exact Ha | exact Hs].
Defined.

Lemma logActivities_accumulate tys clk w s :
  currentSession w = Some s ->
  let w' := fold_left (fun w ty => (logActivity ty None clk w).2) tys w in
  exists s',
    currentSession w' = Some s' /\
    activityType <$> activities s' = (activityType <$> activities s) ++ tys /\
    sessionBrandId s' = sessionBrandId s /\
    sessionDuration s' = sessionDuration s /\
    sessionDate s' = sessionDate s /\
    fsTrace w' = fsTrace w /\ historyFiles w' = historyFiles w.
Proof.
  revert w s. induction tys as [|ty tys IH]; intros w s Hs.
  - exists s. cbn. by rewrite app_nil_r.
  - assert (exists act, activityType act = ty /\
              (logActivity ty None clk w).2
              = set_currentSession
                  (Some (set_activities (activities s ++ [act]) s)) w)
      as (act & Hact & Hlog).
    { unfold logActivity. rewrite Hs. eexists.
      split; [|cbn [snd]; reflexivity]. reflexivity. }
    cbn [fold_left]. rewrite Hlog.
    destruct (IH (set_currentSession
                    (Some (set_activities (activities s ++ [act]) s)) w)
                 (set_activities (activities s ++ [act]) s) eq_refl)
      as (s' & Hs' & Hty & Hb & Hd & Hdt & Htr & Hh).
    cbn in Hty, Hb, Hd, Hdt.
    rewrite fmap_app in Hty. cbn in Hty. rewrite Hact, <- app_assoc in Hty.
    exists s'. split; [exact Hs'|]. split; [exact Hty|].
    split; [exact Hb|]. split; [exact Hd|]. split; [exact Hdt|].
    split; [exact Htr | exact Hh].
Qed.

(** X27. What is logged in a session reaches the history when the
    session ends, and not before.  After [startSession], any number of
    [logActivity] calls write nothing and leave the history files alone.
    [endSession] then returns the session with the logged activities in
    the order they were logged and with the duration, when one is given;
    it appends that session to the sessions of the brand's file of the
    month, leaves all other history files alone, writes that one file and
    closes the session.  Without an open session [logActivity] and
    [endSession] return null and change nothing. *)
Theorem logged_activities_reach_the_history
    (bId : string) (tys : list string) (dur : option string) (clk : Clock)
    (w : World) :
  let w1 := (startSession bId clk w).2 in
  let w2 := fold_left (fun w ty => (logActivity ty None clk w).2) tys w1 in
  let w3 := (endSession dur clk w2).2 in
  fsTrace w2 = fsTrace w /\ historyFiles w2 = historyFiles w /\
  (exists s,
     (endSession dur clk w2).1 = Some s /\
     activityType <$> activities s = tys /\
     sessionBrandId s = bId /\
     sessionDuration s = (if truthy dur then dur else None) /\
     getBrandHistory bId None None clk w3
       = getBrandHistory bId None None clk w ++ [s]) /\
  (forall key, key <> (bId, thisMonth clk) ->
     historyFiles w3 !! key = historyFiles w !! key) /\
  fsTrace w3 = fsTrace w ++ [Written (getHistoryPath bId (thisMonth clk))] /\
  currentSession w3 = None /\
  (forall ty o w0, currentSession w0 = None ->
     logActivity ty o clk w0 = (None, w0) /\
     endSession dur clk w0 = (None, w0)).
Proof.
  intros w1 w2 w3.
  destruct (logActivities_accumulate tys clk w1
              {| sessionDate := today clk; sessionDuration := None;
                 sessionBrandId := bId; activities := [];
                 sessionNotes := [] |} eq_refl)
    as (s' & Hs' & Hty & Hb & Hd & _ & Htr & Hh).
  fold w2 in Hs', Htr, Hh. cbn in Hty, Hb, Hd, Htr, Hh.
  split; [done|]. split; [done|].
  subst w3. unfold endSession. rewrite Hs'. cbn [fst snd].
  unfold saveSessionToHistory, getBrandHistory. cbn [fst snd].
  split; [|split; [|split; [|split]]].
  - eexists. split; [reflexivity|].
    split; [by destruct (truthy dur)|].
    split; [by destruct (truthy dur)|].
    split; [destruct (truthy dur); cbn; congruence|].
    assert (sessionBrandId
              (if truthy dur
               then {| sessionDate := sessionDate s';
                       sessionDuration := dur;
                       sessionBrandId := sessionBrandId s';
                       activities := activities s';
                       sessionNotes := sessionNotes s' |}
               else s') = bId) as -> by (by destruct (truthy dur)).
    cbn. rewrite lookup_insert_eq, Hh.
    by destruct (historyFiles w !! (bId, thisMonth clk)).
  - intros key Hkey. cbn.
    assert (sessionBrandId
              (if truthy dur
               then {| sessionDate := sessionDate s';
                       sessionDuration := dur;
                       sessionBrandId := sessionBrandId s';
                       activities := activities s';
                       sessionNotes := sessionNotes s' |}
               else s') = bId) as -> by (by destruct (truthy dur)).
    rewrite lookup_insert_ne by done. by rewrite Hh.
  - cbn.
    assert (sessionBrandId
              (if truthy dur
               then {| sessionDate := sessionDate s';
                       sessionDuration := dur;
                       sessionBrandId := sessionBrandId s';
                       activities := activities s';
                       sessionNotes := sessionNotes s' |}
               else s') = bId) as -> by (by destruct (truthy dur)).
    by rewrite Htr.
  - done.
  - intros ty o w0 Hn. unfold logActivity, endSession. by rewrite Hn.
Qed.

(** X28. Ending a session without a new handoff consumes the old one.
    When [finishSession] is called with [createHandoff: false], the
    handoff files are left as they are if no handoff was attached to the
    session at its begin; if one was, the handoff file of the session's
    brand is removed and the brand has no handoff afterwards, while the
    handoffs of the other brands stay. *)
Theorem finishSession_without_new_handoff
    (opts : option FinishOptions) (clk : Clock) (w : World) (b : Brand) :
  isActive (sessionState w) = true ->
  ss_brand (sessionState w) = Some b ->
  opts ≫= opt_createHandoff = Some false ->
  let w' := (finishSession opts clk w).2 in
  (ss_handoff (sessionState w) = None -> handoffFiles w' = handoffFiles w) /\
  (is_Some (ss_handoff (sessionState w)) ->
   getHandoff (id b) w' = None /\
   forall k, k <> id b -> getHandoff k w' = getHandoff k w).
Proof.
  intros Hact Hb Hopt w'. subst w'. unfold finishSession.
  rewrite Hact, Hb, Hopt.
  pose proof (getSessionSummary_frame clk w) as Hsum.
  destruct (getSessionSummary clk w) as [summary w1]. cbn in Hsum.
  destruct Hsum as (_ & Hh1 & _ & _ & _ & _ & Hss1 & _).
  pose proof (endSession_frame
                ((fun t0 => formatDuration (nowMs clk - t0))
                   <$> startTime (sessionState w)) clk w1)
    as (_ & Hh3 & _ & _ & Hss3 & _).
  set (w3 := (endSession _ clk w1).2) in *.
  pose proof (clearLedger_frame w3) as (_ & Hh4 & _ & _ & _ & Hss4 & _).
  set (w4 := clearLedger w3) in *.
  cbn [snd].
  assert (ss_handoff (sessionState w4) = ss_handoff (sessionState w)) as ->
    by congruence.
  assert (handoffFiles w4 = handoffFiles w) as Hh by congruence.
  split.
  - intros ->. cbn. done.
  - intros [h0 ->]. unfold clearHandoff, deleteHandoffFile, getHandoff.
    cbn [snd]. rewrite Hh.
    destruct (handoffFiles w !! id b) eqn:Hl; cbn; rewrite ?Hh.
    + split; [apply lookup_delete_eq|].
      intros k Hk. by apply lookup_delete_ne.
    + split; [done|]. done.
Qed.

Lemma finishSession_without_new_handoff_witness :
  getHandoff "acme-corp"
    (finishSession (Some {| opt_createHandoff := Some false;
                            opt_nextSteps := None |})
                   laterClock secondSessionWorld).2 = None.
Proof.
  destruct (ss_brand (sessionState secondSessionWorld)) as [b|] eqn:Hb;
    [|by vm_compute in Hb].
  destruct (finishSession_without_new_handoff
              (Some {| opt_createHandoff := Some false;
                       opt_nextSteps := None |})
              laterClock secondSessionWorld b) as [_ Hsome];
    [by vm_compute | exact Hb | reflexivity |].
  destruct Hsome as [Hnone _]; [by vm_compute; eexists|].
  vm_compute in Hb. injection Hb as <-. exact Hnone.
Defined.

(* ================================================================== *)
(** * Properties of the input parser *)
(* ================================================================== *)

Lemma append_cons c (a b : string) : String c a +:+ b = String c (a +:+ b).
Proof. reflexivity. Qed.

Lemma append_snoc_assoc (a b : string) c :
  (a +:+ String c "") +:+ b = a +:+ String c b.
Proof.
  induction a as [|x a IH]; [done|].
  rewrite !append_cons. by rewrite IH.
Qed.

Lemma parseCSVLoop_plain d f rest res cur :
  allChars (fun c => negb (Ascii.eqb c quoteChar) && negb (Ascii.eqb c d)) f
    = true ->
  parseCSVLoop d (f +:+ rest) res cur false
    = parseCSVLoop d rest res (cur +:+ f) false.
Proof.
  revert cur. induction f as [|c f IH]; intros cur.
  - intros _. by rewrite append_empty_r.
  - rewrite append_cons. cbn [allChars parseCSVLoop].
    rewrite !andb_true_iff, !negb_true_iff. intros [[Hq Hd] Hf].
    rewrite Hq, Hd. cbn [andb]. rewrite (IH _ Hf).
    by rewrite append_snoc_assoc.
Qed.

Lemma parseCSVLoop_fields d fields res :
  d <> quoteChar -> fields <> [] ->
  Forall (fun f => plainField d f = true) fields ->
  parseCSVLoop d (join (String d "") fields) res "" false = res ++ fields.
Proof.
  intros Hd Hne Hall. revert res.
  induction Hall as [|f r Hf Hr IH]; intros res; [done|].
  unfold plainField in Hf. apply andb_true_iff in Hf as [Hplain Htrim].
  apply strEq_true in Htrim.
  destruct r as [|g r'].
  - cbn [join]. rewrite <- (append_empty_r f) at 1.
    rewrite (parseCSVLoop_plain d f "" res "" Hplain).
    cbn [parseCSVLoop]. change ("" +:+ f) with f. by rewrite Htrim.
  - change (join (String d "") (f :: g :: r'))
      with (f +:+ String d "" +:+ join (String d "") (g :: r')).
    rewrite (parseCSVLoop_plain d f _ res "" Hplain).
    change ("" +:+ f) with f. rewrite append_cons.
    change ("" +:+ join (String d "") (g :: r'))
      with (join (String d "") (g :: r')).
    cbn [parseCSVLoop].
    destruct (Ascii.eqb_spec d quoteChar) as [|_]; [done|].
    rewrite Ascii.eqb_refl. cbn [andb negb].
    rewrite Htrim, IH by done. by rewrite <- app_assoc.
Qed.

Lemma parseCSVLoop_nonempty d line res cur q :
  parseCSVLoop d line res cur q <> [].
Proof.
  revert res cur q. induction line as [|c r IH]; intros res cur q;
    cbn [parseCSVLoop].
  - by destruct res.
  - destruct (Ascii.eqb c quoteChar); [apply IH|].
    destruct (Ascii.eqb c d && negb q); apply IH.
Qed.

(** X29. [parseCSVLine] reads back what was joined.  For an ASCII
    delimiter other than the double quote, a line made of one or more
    fields of ASCII characters (where [trim] strips what
    [String.prototype.trim] strips) joined by the delimiter, none of
    which contains a double quote or the delimiter or starts or ends with
    white space, is split into exactly those fields.  Whatever the line,
    the result has at least one field: the empty line yields one empty
    field. *)
Theorem parseCSVLine_reads_back_joined_fields
    (d : ascii) (fields : list string) :
  asciiChar d = true -> d <> quoteChar -> fields <> [] ->
  Forall (fun f => asciiText f = true) fields ->
  Forall (fun f => plainField d f = true) fields ->
  parseCSVLine (join (String d "") fields) d = fields /\
  (forall line, parseCSVLine line d <> []) /\
  parseCSVLine "" d = [""].
Proof.
  intros _ Hd Hne _ Hall. split; [|split].
  - unfold parseCSVLine. by rewrite parseCSVLoop_fields.
  - intros line. apply parseCSVLoop_nonempty.
  - reflexivity.
Qed.

Lemma parseCSVLine_reads_back_joined_fields_witness :
  parseCSVLine "keyword,search volume,kd" ","
    = ["keyword"; "search volume"; "kd"].
Proof.
  apply (parseCSVLine_reads_back_joined_fields ","
           ["keyword"; "search volume"; "kd"]).
  - reflexivity.
  - discriminate.
  - discriminate.
  - repeat constructor.
  - repeat constructor.
Defined.

(** X30. What [assessDataConfidence] can conclude from the source.  Data
    taken from a screenshot or from reasoning is never rated high, and
    data from an API is never rated low.  Pasted data is rated high
    exactly when the tool was identified and some keyword has a volume and
    some keyword has a difficulty, and it is never rated low when the tool
    was identified. *)
Theorem assessDataConfidence_by_source
    {number : Type} (parsed : ParsedData number) :
  let level := (assessDataConfidence parsed).1 in
  let hasVolume :=
    match dataKeywords parsed with
    | Some kws => existsb (fun k => bool_decide (is_Some (volume k))) kws
    | None => false
    end in
  let hasDifficulty :=
    match dataKeywords parsed with
    | Some kws => existsb (fun k => bool_decide (is_Some (difficulty k))) kws
    | None => false
    end in
  (source parsed = fromScreenshot \/ source parsed = fromReasoning ->
   level <> high) /\
  (source parsed = fromApi -> level <> low) /\
  (source parsed = fromPaste ->
   (level = high <->
    truthy (tool parsed) && hasVolume && hasDifficulty = true) /\
   (truthy (tool parsed) = true -> level <> low)).
Proof.
  unfold assessDataConfidence, confidenceScore. cbn [fst].
  destruct (source parsed), (truthy (tool parsed)),
    (dataKeywords parsed) as [kws|];
    try destruct (existsb (fun k => bool_decide (is_Some (volume k))) kws);
    try destruct (existsb (fun k => bool_decide (is_Some (difficulty k)))
                          kws);
    cbn; repeat split; try done; try (intros [?|?]; done).
Qed.

Lemma assessDataConfidence_by_source_witness :
  (assessDataConfidence
     {| source := fromScreenshot; tool := Some "ahrefs";
        parsedConfidence := medium;
        dataKeywords :=
          Some [{| keyword := "crm software"; volume := Some 1200;
                   difficulty := Some 45; cpc := None |}];
        limitations := None |}).1 = medium.
Proof.
  pose proof (proj1 (assessDataConfidence_by_source
                {| source := fromScreenshot; tool := Some "ahrefs";
                   parsedConfidence := medium;
                   dataKeywords :=
                     Some [{| keyword := "crm software";
                              volume := Some 1200;
                              difficulty := Some 45; cpc := None |}];
                   limitations := None |}) (or_introl eq_refl)) as Hnot.
  destruct (assessDataConfidence _).1 eqn:He; [done | done |].
  by vm_compute in He.
Defined.

Lemma getRecentLearnings_latest_first_witness :
  learningId <$> getRecentLearnings (Some 2) libraryWorld
    = ["learn-4"; "learn-3"] /\
  length (getRecentLearnings (Some 2) libraryWorld) = 2%nat.
Proof.
  destruct (getRecentLearnings_latest_first (Some 2) libraryWorld)
    as (rest & _ & _ & Hlen & _).
  split; [by vm_compute|]. rewrite Hlen; [by vm_compute | done].
Defined.

Lemma logged_activities_reach_the_history_witness :
  exists s,
    (endSession (Some "25 min") laterClock
       (fold_left (fun w ty => (logActivity ty None laterClock w).2)
          ["keyword_research"; "content_planning"]
          (startSession "acme-corp" laterClock acmeWorld).2)).1 = Some s /\
    activityType <$> activities s = ["keyword_research"; "content_planning"] /\
    sessionDuration s = Some "25 min".
Proof.
  destruct (logged_activities_reach_the_history "acme-corp"
              ["keyword_research"; "content_planning"] (Some "25 min")
              laterClock acmeWorld)
    as (_ & _ & (s & Hs & Hty & _ & Hd & _) & _).
  exists s. split; [exact Hs|]. split; [exact Hty | exact Hd].
Defined.
